(** * A model of the MOSMIX forecast node [nodes/dwd-weatherforecast.js]

    Parameter values (numbers parsed from the KML text) are modelled as real
    numbers, timestamps ([moment(...).valueOf()], [Date.now()]) as integer
    milliseconds in [Z], and the requested horizon [hoursAhead] as a JS
    number: a rational, or non-finite ([NaN], [Infinity], [-Infinity]).
    Strings are lists of 8-bit characters; for ASCII text they are the JS
    strings.  A JS [null] inside a value series is [None]; an index past the end of a
    JS array ([undefined]) is the [None] of the list lookup [!!]. *)

From Stdlib Require Import Reals Lra QArith Qround String Ascii Sorting.Sorted.
From stdpp Require Import base gmap strings list sorting.

(* ------------------------------------------------------------------------ *)
(** ** JS number primitives on the real-number model *)

Definition Rltb (x y : R) : bool := if Rlt_dec x y then true else false.
Definition Rleb (x y : R) : bool := if Rle_dec x y then true else false.

(** [Math.round x]: the integer nearest to [x], halves rounded upwards. *)
Definition js_round (x : R) : Z := Int_part (x + / 2).

(** [+x.toFixed(d)]: the [n / 10^d] nearest to [x], the larger [n] on a tie. *)
Definition js_toFixed (d : nat) (x : R) : R :=
  IZR (js_round (x * 10 ^ d)) / 10 ^ d.

(** Truncation towards zero, used by the remainder operator [%]. *)
Definition js_trunc (x : R) : Z :=
  if Rle_dec 0 x then Int_part x else (- Int_part (- x))%Z.

(** [x % y]: the remainder keeps the sign of the dividend. *)
Definition js_rem (x y : R) : R := x - y * IZR (js_trunc (x / y)).

(* ------------------------------------------------------------------------ *)
(** ** Parameter series *)

(** A parameter as built by the extraction functions: [{ code, unit, values }]. *)
Record Param := mkParam {
  p_code : string;
  p_unit : option string;
  p_values : list (option R)
}.

(** The [params] object: parameter code -> parameter. *)
Abbreviation Params := (gmap string Param).

(** [{ ...p, values: vs }] *)
Definition with_values (p : Param) (vs : list (option R)) : Param :=
  mkParam (p_code p) (p_unit p) vs.

(** [getFirst(codes, i)] inside [normalizeRecords]: the first code whose
    series has an entry (possibly [null]) at index [i]. *)
Fixpoint getFirst (params : Params) (codes : list string) (i : nat) : option R :=
  match codes with
  | [] => None
  | code :: rest =>
      match params !! code with
      | Some p =>
          match p_values p !! i with
          | Some v => v
          | None => getFirst params rest i
          end
      | None => getFirst params rest i
      end
  end.

(* ------------------------------------------------------------------------ *)
(** ** Wind direction *)

Definition names8 : list string :=
  ["N"; "NO"; "O"; "SO"; "S"; "SW"; "W"; "NW"].

Definition names16 : list string :=
  ["N"; "NNO"; "NO"; "ONO"; "O"; "OSO"; "SO"; "SSO";
   "S"; "SSW"; "SW"; "WSW"; "W"; "WNW"; "NW"; "NNW"].

(** [dirToCardinal(deg, mode)]; [None] is the returned [null] (and an
    out-of-range array read, which the [% 8] / [% 16] rule out). *)
Definition dirToCardinal (deg : option R) (mode : string) : option string :=
  match deg with
  | None => None
  | Some d =>
      let norm := js_rem (js_rem d 360 + 360) 360 in
      if String.eqb mode "8" then
        names8 !! Z.to_nat (Z.rem (js_round (norm / 45)) 8)
      else if String.eqb mode "16" then
        names16 !! Z.to_nat (Z.rem (js_round (norm / 22.5)) 16)
      else None
  end.

(* ------------------------------------------------------------------------ *)
(** ** Normalisation to records *)

(** The [cfg] object passed by [runFetch]. *)
Record NormCfg := mkNormCfg {
  cfg_coreOnly : bool;
  cfg_toC : bool;
  cfg_windToKmh : bool;
  cfg_pressureToHpa : bool;
  cfg_visibilityToKm : bool;
  cfg_windDirMode : string
}.

(** An output record.  Every field of the object literal is nullable
    ([None] = [null]); [windDirCardinal] is added to the object only for a
    non-["deg"] mode, so it is [None] when the key is missing and [Some c]
    when present with value [c]. *)
Record ForecastRecord := mkRecord {
  r_ts : Z;
  r_iso : string;
  r_temperature : option R;
  r_windSpeed : option R;
  r_windDir : option R;
  r_pressure : option R;
  r_relHumidity : option R;
  r_visibility : option R;
  r_cloudCover : option R;
  r_precipitation : option R;
  r_precipitationText : option string;
  r_windDirCardinal : option (option string)
}.

Definition KtoC (k : R) : R := k - 273.15.
Definition toKmh (ms : R) : R := ms * 3.6.
Definition toHpa (pa : R) : R := pa / 100.
Definition toKm (m : R) : R := m / 1000.

Definition MAGNUS_A : R := 17.625.
Definition MAGNUS_B : R := 243.04.

Definition gamma (xC : R) : R := (MAGNUS_A * xC) / (MAGNUS_B + xC).

(** The relative-humidity fallback: [RH] stays as looked up unless it is
    [null] and both temperature and dew point are there. *)
Definition derive_RH (RH T_K Td_K : option R) : option R :=
  match RH, T_K, Td_K with
  | None, Some tk, Some tdk =>
      let T_C := KtoC tk in
      let Td_C := KtoC tdk in
      let es := exp (gamma T_C) in
      let e := exp (gamma Td_C) in
      Some (Rmax 0 (Rmin 100 (100 * (e / es))))
  | _, _, _ => RH
  end.

Definition precip_kind : string := "Regen".

(** The intensity chosen from the precipitation value. *)
Definition precip_intensity (p : R) : string :=
  if Rltb p 0.3 then "leicht"
  else if Rltb p 1.0 then "mäßig"
  else "stark".

Definition windDirMode_active (mode : string) : bool :=
  negb (String.eqb mode "") && negb (String.eqb mode "deg").

Section Normalize.

(** The JS runtime's number-to-string conversion (template literal) and
    [new Date(ts).toISOString()]. *)
Variable number_to_string : R -> string.
Variable toISOString : Z -> string.

(** [`${kind} (${intensity}) – ${rec.precipitation} mm/h`] *)
Definition precip_text (p : R) : string :=
  precip_kind ++ " (" ++ precip_intensity p ++ ") – " ++ number_to_string p ++ " mm/h".

(** The body of the [for] loop of [normalizeRecords], at index [i]. *)
Definition build_record (params : Params) (cfg : NormCfg) (i : nat) (ts : Z)
    : ForecastRecord :=
  let T_K := getFirst params ["TTT"] i in
  let Td_K := getFirst params ["Td"] i in
  let RH0 := getFirst params ["rH"; "RELH"] i in
  let windSpeed0 := getFirst params ["FF"] i in
  let windDir := getFirst params ["DD"] i in
  let pressurePa := getFirst params ["PPPP"] i in
  let visibilityM := getFirst params ["VV"] i in
  let cloudCover := getFirst params ["Neff"; "neff"] i in
  let precip := getFirst params ["RR1c"; "RR1o1"] i in
  let RH := derive_RH RH0 T_K Td_K in
  let temperature :=
    if cfg_toC cfg then option_map (fun t => js_toFixed 2 (KtoC t)) T_K else T_K in
  let windSpeed :=
    if cfg_windToKmh cfg then option_map (fun w => js_toFixed 2 (toKmh w)) windSpeed0
    else windSpeed0 in
  let pressure :=
    if cfg_pressureToHpa cfg then option_map (fun p => IZR (js_round (toHpa p))) pressurePa
    else pressurePa in
  let visibility :=
    if cfg_visibilityToKm cfg then option_map (fun v => js_toFixed 1 (toKm v)) visibilityM
    else visibilityM in
  {| r_ts := ts;
     r_iso := toISOString ts;
     r_temperature := temperature;
     r_windSpeed := windSpeed;
     r_windDir := windDir;
     r_pressure := pressure;
     r_relHumidity := option_map (fun r => IZR (js_round r)) RH;
     r_visibility := visibility;
     r_cloudCover := cloudCover;
     r_precipitation := precip;
     r_precipitationText := option_map precip_text precip;
     r_windDirCardinal :=
       if windDirMode_active (cfg_windDirMode cfg)
       then Some (dirToCardinal windDir (cfg_windDirMode cfg)) else None |}.

(** The [coreOnly] projection [o[k] = r[k] ?? null] over the core keys,
    which are all keys of a record: only a missing [windDirCardinal]
    becomes a present [null]. *)
Definition core_project (r : ForecastRecord) : ForecastRecord :=
  {| r_ts := r_ts r; r_iso := r_iso r; r_temperature := r_temperature r;
     r_windSpeed := r_windSpeed r; r_windDir := r_windDir r;
     r_pressure := r_pressure r; r_relHumidity := r_relHumidity r;
     r_visibility := r_visibility r; r_cloudCover := r_cloudCover r;
     r_precipitation := r_precipitation r;
     r_precipitationText := r_precipitationText r;
     r_windDirCardinal :=
       Some (match r_windDirCardinal r with Some c => c | None => None end) |}.

(** [normalizeRecords(timeSteps, params, cfg)] *)
Definition normalizeRecords (timeSteps : list Z) (params : Params) (cfg : NormCfg)
    : list ForecastRecord :=
  let out := imap (build_record params cfg) timeSteps in
  if cfg_coreOnly cfg then core_project <$> out else out.

End Normalize.

(* ------------------------------------------------------------------------ *)
(** ** Series alignment (end of [fetchAndParseMosmix]) *)

(** [Array.prototype.slice(a, b)] for [0 <= a]. *)
Definition js_slice {A} (l : list A) (a b : nat) : list A := take (b - a) (drop a l).

(** The two in-place updates of [p.values] in the "Länge angleichen" loop. *)
Definition align_values (n : nat) (vs : list (option R)) : list (option R) :=
  let vs1 := if Nat.ltb n (length vs) then js_slice vs 0 n else vs in
  if Nat.ltb (length vs1) n then vs1 ++ replicate (n - length vs1) None else vs1.

Definition align_params (n : nat) (params : Params) : Params :=
  fmap (fun p => with_values p (align_values n (p_values p))) params.

(** The end of the [try] block of [fetchAndParseMosmix], from the collected
    time strings, the collected parameters and the station name:
    [tsStrings.map(s => moment.tz(String(s), tz).valueOf())
    .filter(Number.isFinite)], where [parse s = None] stands for a
    non-finite [valueOf()]; the throw on an empty axis; then the
    "Länge angleichen" loop and the returned object. *)
Definition mosmix_result (parse : string -> option Z) (tsStrings : list string)
    (params : Params) (stationName : option string)
    : (list Z * Params * option string) + string :=
  let timeSteps := omap parse tsStrings in
  match timeSteps with
  | [] => inr "ForecastTimeSteps leer"
  | _ => inl (timeSteps, align_params (length timeSteps) params, stationName)
  end.

(* ------------------------------------------------------------------------ *)
(** ** The chain of parameter extractions in [fetchAndParseMosmix] *)

(** [{ ...a, ...b }]: the keys of [b] overwrite those of [a]. *)
Definition obj_spread (a b : Params) : Params := b ∪ a.

(** [!Object.keys(params).length] *)
Definition params_empty (params : Params) : bool := Nat.eqb (size params) 0.

Section Chain.

(** The parsed KML document, and the five extraction functions:
    [extractParamsFromSchemaData], [extractParamsFromForecast],
    [extractParamsFromDwdForecast] (on the tree), [extractParamsByRegex]
    (on the raw KML text) and [extractParamsByGenericWalk] (on the tree). *)
Variable Doc : Type.
Variable extractParamsFromSchemaData : Doc -> Params.
Variable extractParamsFromForecast : Doc -> Params.
Variable extractParamsFromDwdForecast : Doc -> Params.
Variable extractParamsByRegex : string -> Params.
Variable extractParamsByGenericWalk : Doc -> Params.

(** One guarded step: [if (!Object.keys(params).length) params = {...params, ...next}]. *)
Definition chain_step (params : Params) (next : unit -> Params) : Params :=
  if params_empty params then obj_spread params (next tt) else params.

Definition extract_chain (doc : Doc) (kmlStr : string) : Params :=
  let params := obj_spread ∅ (extractParamsFromSchemaData doc) in
  let params := chain_step params (fun _ => extractParamsFromForecast doc) in
  let params := chain_step params (fun _ => extractParamsFromDwdForecast doc) in
  let params := chain_step params (fun _ => extractParamsByRegex kmlStr) in
  chain_step params (fun _ => extractParamsByGenericWalk doc).

(** The order of the strategies, A to E, as a list of thunks. *)
Definition strategies (doc : Doc) (kmlStr : string) : list (unit -> Params) :=
  [fun _ => extractParamsFromSchemaData doc;
   fun _ => extractParamsFromForecast doc;
   fun _ => extractParamsFromDwdForecast doc;
   fun _ => extractParamsByRegex kmlStr;
   fun _ => extractParamsByGenericWalk doc].

End Chain.

(** The first non-empty result of a list of strategies ([∅] when all are empty). *)
Fixpoint first_nonempty (fs : list (unit -> Params)) : Params :=
  match fs with
  | [] => ∅
  | f :: rest => if params_empty (f tt) then first_nonempty rest else f tt
  end.

(* ------------------------------------------------------------------------ *)
(** ** Time filters of [DwdWeatherForecastNode] *)

(** Index of the first [t >= now], or [-1]. *)
Fixpoint first_future (now : Z) (i : Z) (ts : list Z) : Z :=
  match ts with
  | [] => (-1)%Z
  | t :: rest => if Z.leb now t then i else first_future now (i + 1) rest
  end.

(** [tVal >= now && tVal <= end] *)
Definition in_window (now : Z) (end_ : Q) (t : Z) : bool :=
  Z.leb now t && Qle_bool (inject_Z t) end_.

(** The first loop of [applyHoursAheadFilter]: [(firstIdx, lastIdx)] of the
    instants in [[now, end]]. *)
Fixpoint window_scan (now : Z) (end_ : Q) (i : Z) (ts : list Z) (acc : Z * Z)
    : Z * Z :=
  match ts with
  | [] => acc
  | t :: rest =>
      let acc' :=
        if in_window now end_ t
        then ((if Z.eqb (fst acc) (-1) then i else fst acc), i)
        else acc in
      window_scan now end_ (i + 1) rest acc'
  end.

(** A JS number: a finite value, or one of [NaN], [Infinity], [-Infinity],
    the values for which [Number.isFinite] is false. *)
Inductive JSNumber :=
| JSFinite (q : Q)
| JSNonFinite.

(** [applyHoursAheadFilter(timeSteps, params, hoursAhead)] at clock [now]:
    [!hoursAhead || !Number.isFinite(hoursAhead) || hoursAhead <= 0] returns
    the input ([!hoursAhead] holds for [0] and [NaN] only). *)
Definition applyHoursAheadFilter (now : Z) (timeSteps : list Z) (params : Params)
    (hoursAhead' : JSNumber) : list Z * Params :=
  match hoursAhead' with
  | JSNonFinite => (timeSteps, params)
  | JSFinite hoursAhead =>
  if Qle_bool hoursAhead 0 then (timeSteps, params) else
  let end_ := (inject_Z now + hoursAhead * 3600 * 1000)%Q in
  let '(firstIdx0, lastIdx0) := window_scan now end_ 0 timeSteps ((-1)%Z, (-1)%Z) in
  let '(firstIdx, lastIdx) :=
    if Z.eqb firstIdx0 (-1) then
      let f := first_future now 0 timeSteps in
      if Z.eqb f (-1) then (f, lastIdx0)
      else (f, Z.min (Z.of_nat (length timeSteps) - 1)
                     (f + Z.max 0 (Qceiling hoursAhead) - 1))
    else (firstIdx0, lastIdx0) in
  if Z.eqb firstIdx (-1) || Z.eqb lastIdx (-1) || Z.ltb lastIdx firstIdx
  then (timeSteps, params)
  else
    let a := Z.to_nat firstIdx in
    let b := Z.to_nat (lastIdx + 1) in
    (js_slice timeSteps a b,
     fmap (fun p => with_values p (js_slice (p_values p) a b)) params)
  end.

(** [applyOnlyFutureFilter(timeSteps, params, onlyFuture)] at clock [now]. *)
Definition applyOnlyFutureFilter (now : Z) (timeSteps : list Z) (params : Params)
    (onlyFuture : bool) : list Z * Params :=
  if negb onlyFuture then (timeSteps, params) else
  let start := first_future now 0 timeSteps in
  if Z.leb start 0 then
    if Z.eqb start (-1) then ([], fmap (fun p => with_values p []) params)
    else (timeSteps, params)
  else
    (drop (Z.to_nat start) timeSteps,
     fmap (fun p => with_values p (drop (Z.to_nat start) (p_values p))) params).

(* ------------------------------------------------------------------------ *)
(** ** String helpers used by [runFetch] (ASCII model) *)

Definition is_js_space (c : ascii) : bool :=
  let n := nat_of_ascii c in Nat.eqb n 32 || (Nat.leb 9 n && Nat.leb n 13).

Fixpoint drop_spaces (l : list ascii) : list ascii :=
  match l with
  | c :: rest => if is_js_space c then drop_spaces rest else l
  | [] => []
  end.

(** [String.prototype.trim] *)
Definition js_trim (s : string) : string :=
  string_of_list_ascii (rev (drop_spaces (rev (drop_spaces (list_ascii_of_string s))))).

Definition ascii_upper (c : ascii) : ascii :=
  let n := nat_of_ascii c in
  if Nat.leb 97 n && Nat.leb n 122 then ascii_of_nat (n - 32) else c.

(** [String.prototype.toUpperCase] *)
Definition js_toUpperCase (s : string) : string :=
  string_of_list_ascii (map ascii_upper (list_ascii_of_string s)).

Fixpoint prefix_ci (pat s : list ascii) : bool :=
  match pat, s with
  | [], _ => true
  | p :: pat', c :: s' => Ascii.eqb (ascii_upper p) (ascii_upper c) && prefix_ci pat' s'
  | _ :: _, [] => false
  end.

(** The replacement text of one match (GetSubstitution for a pattern
    without capture groups): [$$] is [$], [$&] the matched text, [$`] the
    text before the match, [$'] the text after it; any other [$] (also [$1]
    or [$<], there being no groups) stands for itself. *)
Fixpoint get_subst (matched before after repl : list ascii) : list ascii :=
  match repl with
  | [] => []
  | c :: r =>
      if Ascii.eqb c "$" then
        match r with
        | d :: r' =>
            if Ascii.eqb d "$" then "$"%char :: get_subst matched before after r'
            else if Ascii.eqb d "&" then matched ++ get_subst matched before after r'
            else if Ascii.eqb d "`" then before ++ get_subst matched before after r'
            else if Ascii.eqb d "'" then after ++ get_subst matched before after r'
            else c :: get_subst matched before after r
        | [] => [c]
        end
      else c :: get_subst matched before after r
  end.

(** [s.replace(/pat/gi, repl)] for a literal, non-empty [pat]: [pre] is the
    part of [s] already scanned (reversed), [skip] counts the characters of a
    match still to be consumed. *)
Fixpoint replace_ci_go (pat repl pre s : list ascii) (skip : nat) : list ascii :=
  match s with
  | [] => []
  | c :: rest =>
      match skip with
      | S k => replace_ci_go pat repl (c :: pre) rest k
      | O =>
          if prefix_ci pat s
          then get_subst (take (length pat) s) (rev pre) (drop (length pat) s) repl
               ++ replace_ci_go pat repl (c :: pre) rest (length pat - 1)
          else c :: replace_ci_go pat repl (c :: pre) rest 0
      end
  end.

Definition replace_ci (s pat repl : string) : string :=
  string_of_list_ascii
    (replace_ci_go (list_ascii_of_string pat) (list_ascii_of_string repl) []
                   (list_ascii_of_string s) 0).

(** [a || b] on strings. *)
Definition str_or (a b : string) : string := if String.eqb a "" then b else a.

(* ------------------------------------------------------------------------ *)
(** ** The node: configuration, messages, context store, [runFetch] *)

Definition DEFAULT_URL_TEMPLATE : string :=
  "https://opendata.dwd.de/weather/local_forecasts/mos/MOSMIX_L/single_stations/{station}/kml/MOSMIX_L_LATEST_{station}.kmz".

(** The [node.*] settings read from the editor configuration. *)
Record NodeCfg := mkNodeCfg {
  node_station : string;
  node_sourceUrl : string;
  node_hoursAhead : JSNumber;
  node_coreOnly : bool;
  node_toC : bool;
  node_windToKmh : bool;
  node_pressureToHpa : bool;
  node_visibilityToKm : bool;
  node_windDirMode : string;
  node_staleOnError : bool;
  node_onlyFuture : bool
}.

(** The fields of an input message that [runFetch] reads ([None] = missing). *)
Record Msg := mkMsg {
  msg_station : option string;
  msg_sourceUrl : option string;
  msg_hoursAhead : option JSNumber;
  msg_onlyFuture : option bool
}.

(** [_meta] of an output message. *)
Record Meta := mkMeta {
  meta_url : string;
  meta_count : nat;
  meta_stale : bool;
  meta_paramsAvailable : list string;
  meta_windDirMode : string
}.

(** An output message [{ payload, station: { id, name }, _meta }]. *)
Record Out := mkOut {
  out_payload : list ForecastRecord;
  out_station_id : string;
  out_station_name : option string;
  out_meta : Meta
}.

(** The object stored under [CTX_KEY] by [saveLastGood]. *)
Record Entry := mkEntry {
  entry_at : Z;
  entry_station : string;
  entry_series : list ForecastRecord;
  entry_meta : Meta
}.

(** The node context [node.context()]: a key-value store. *)
Abbreviation Ctx := (gmap string Entry).

Definition CTX_KEY : string := "lastGood".

Definition set_stale (m : Meta) : Meta :=
  mkMeta (meta_url m) (meta_count m) true (meta_paramsAvailable m) (meta_windDirMode m).

(** [saveLastGood(series, meta, station)] at clock [now]. *)
Definition saveLastGood (ctx : Ctx) (now : Z) (series : list ForecastRecord)
    (meta : Meta) (station : string) : Ctx :=
  <[CTX_KEY := mkEntry now station series meta]> ctx.

(** [sendStaleIfAvailable()]: the message it sends, if any.  [last.meta]
    is the [_meta] of a successful run, which has no [stationName] key, so
    [last.meta?.stationName || null] is [null]. *)
Definition sendStaleIfAvailable (ctx : Ctx) : option Out :=
  match ctx !! CTX_KEY with
  | None => None
  | Some last =>
      Some (mkOut (entry_series last) (entry_station last) None
                  (set_stale (entry_meta last)))
  end.

(** [buildUrl(station, tpl)]: [inl] is the thrown error's message key. *)
Definition buildUrl (station tpl : string) : string + string :=
  let st := js_toUpperCase (js_trim station) in
  if String.eqb st "" then inl "runtime.errorStationMissing"
  else inr (replace_ci (str_or tpl DEFAULT_URL_TEMPLATE) "{station}" st).

(** The awaited result of [fetchAndParseMosmix(url, ...)]: the resolved
    [{ timeSteps, params, stationName }], or the message of the error thrown. *)
Inductive FetchOutcome :=
| FetchOk (timeSteps : list Z) (params : Params) (stationName : option string)
| FetchFailed (message : string).

(** The retry loop of [fetchAndParseMosmix]: [body k] is the outcome of
    the [try] block at attempt [k] (its result, or the message of the error
    it throws).  The loop [for (attempt = 0; attempt < 3; attempt++)] runs
    here with [fuel = 3 - attempt]; after a failed attempt [k < 2] it waits
    1000 ms.  The result: the outcome, the attempts made and the total
    waiting time in milliseconds. *)
Fixpoint retry_loop {A} (body : nat -> A + string) (attempt fuel : nat)
    (lastErr : option string) : (A + string) * list nat * Z :=
  match fuel with
  | O => (inr (match lastErr with Some e => e | None => "Unbekannter Fehler" end),
          [], 0%Z)
  | S fuel' =>
      match body attempt with
      | inl v => (inl v, [attempt], 0%Z)
      | inr e =>
          let '(res, tried, waited) := retry_loop body (S attempt) fuel' (Some e) in
          (res, attempt :: tried, ((if Nat.ltb attempt 2 then 1000 else 0) + waited)%Z)
      end
  end.

Definition fetch_retry {A} (body : nat -> A + string) : (A + string) * list nat * Z :=
  retry_loop body 0 3 None.

(** The awaited [fetchAndParseMosmix(url, ...)] as seen by [runFetch]. *)
Definition mosmix_outcome (r : (list Z * Params * option string) + string) : FetchOutcome :=
  match r with
  | inl (timeSteps, params, stationName) => FetchOk timeSteps params stationName
  | inr e => FetchFailed e
  end.

(** The observable effects of one [runFetch] call: the context afterwards,
    the messages passed to [node.send], the error descriptions passed to
    [node.error], and the message of an exception escaping [runFetch]. *)
Record Effects := mkEffects {
  eff_ctx : Ctx;
  eff_sent : list Out;
  eff_errors : list string;
  eff_thrown : option string
}.

(** The order of [Array.prototype.sort] on strings (code units). *)
Definition str_le (a b : string) : Prop := String.leb a b = true.

#[global] Instance str_le_dec : RelDecision str_le :=
  fun a b => decide (String.leb a b = true).

(** [Object.keys(params).sort()] *)
Definition sorted_keys (params : Params) : list string :=
  merge_sort str_le (map fst (map_to_list params)).

(** [(msg && msg.station) || node.station] *)
Definition run_station (node : NodeCfg) (msg : Msg) : string :=
  match msg_station msg with
  | Some s => str_or s (node_station node)
  | None => node_station node
  end.

(** [(msg && msg.sourceUrl) || node.sourceUrl || DEFAULT_URL_TEMPLATE] *)
Definition run_template (node : NodeCfg) (msg : Msg) : string :=
  str_or (match msg_sourceUrl msg with Some u => u | None => "" end)
         (str_or (node_sourceUrl node) DEFAULT_URL_TEMPLATE).

Section RunFetch.

Variable number_to_string : R -> string.
Variable toISOString : Z -> string.

(** The success branch of the [try] block, from the fetched time axis and
    parameters: the filtered axis and the output message. *)
Definition run_success (node : NodeCfg) (now : Z) (msg : Msg) (station url : string)
    (timeSteps : list Z) (params : Params) (stationName : option string)
    : list Z * Out :=
  let effHoursAhead :=
    match msg_hoursAhead msg with Some h => h | None => node_hoursAhead node end in
  let effectiveOnlyFuture :=
    match msg_onlyFuture msg with Some b => b | None => node_onlyFuture node end in
  let '(ts1, pa1) := applyOnlyFutureFilter now timeSteps params effectiveOnlyFuture in
  let '(ts2, pa2) := applyHoursAheadFilter now ts1 pa1 effHoursAhead in
  let cfg := mkNormCfg (node_coreOnly node) (node_toC node) (node_windToKmh node)
                       (node_pressureToHpa node) (node_visibilityToKm node)
                       (node_windDirMode node) in
  let series := normalizeRecords number_to_string toISOString ts2 pa2 cfg in
  (ts2, mkOut series station stationName
              (mkMeta url (length series) false (sorted_keys pa2) (node_windDirMode node))).

(** [runFetch(msg)] on context [ctx] at clock [now], where [fetchAndParse]
    stands for the awaited [fetchAndParseMosmix(url, "Europe/Berlin", ...)]. *)
Definition runFetch (node : NodeCfg) (ctx : Ctx) (now : Z) (msg : Msg)
    (fetchAndParse : string -> FetchOutcome) : Effects :=
  let station := run_station node msg in
  match buildUrl station (run_template node msg) with
  | inl err => mkEffects ctx [] [] (Some err)
  | inr url =>
      match fetchAndParse url with
      | FetchOk timeSteps params stationName =>
          let out := snd (run_success node now msg station url
                                      timeSteps params stationName) in
          mkEffects (saveLastGood ctx now (out_payload out) (out_meta out) station)
                    [out] [] None
      | FetchFailed errMsg =>
          let stale := if node_staleOnError node then sendStaleIfAvailable ctx else None in
          match stale with
          | Some out => mkEffects ctx [out] [] None
          | None => mkEffects ctx [] [errMsg] None
          end
      end
  end.

End RunFetch.

(* ------------------------------------------------------------------------ *)
(** ** Relations between a parameter set and a filtered one *)

(** [l1] is a contiguous piece of [l2]. *)
Definition list_infix {A} (l1 l2 : list A) : Prop := exists k l, l2 = k ++ l1 ++ l.

(** Every series has one value per instant of the time axis. *)
Definition series_aligned (timeSteps : list Z) (params : Params) : Prop :=
  map_Forall (fun _ p => length (p_values p) = length timeSteps) params.

(** [params'] has the codes of [params]; each of its parameters keeps code
    and unit and holds a contiguous piece of the original series. *)
Definition params_pieces (params params' : Params) : Prop :=
  forall c, match params !! c, params' !! c with
            | Some p, Some q =>
                p_code q = p_code p /\ p_unit q = p_unit p /\
                list_infix (p_values q) (p_values p)
            | None, None => True
            | _, _ => False
            end.

(* ------------------------------------------------------------------------ *)
(** ** The parsed KML tree and the time-string collectors *)

(** The values of the tree [parseStringPromise] builds with
    [explicitArray: true, mergeAttrs: true]: strings, arrays and objects.
    An object's fields are listed in [Object.entries] order: element and
    attribute names are not integer-like, so this is insertion order.  The
    keys of an array ("0", "1", ...) never end with a name the collectors
    search for, so an array is walked element by element. *)
#[warnings="-register-all"]
Inductive JVal : Type :=
| JStr (s : string)
| JArr (items : list JVal)
| JObj (fields : list (string * JVal)).

(** [obj[k]] on an object's fields (keys are unique). *)
Fixpoint jget (fields : list (string * JVal)) (k : string) : option JVal :=
  match fields with
  | [] => None
  | (k', v) :: fields' => if String.eqb k' k then Some v else jget fields' k
  end.

(** [v[k]], [undefined] on strings and arrays. *)
Definition jprop (v : JVal) (k : string) : option JVal :=
  match v with JObj fields => jget fields k | _ => None end.

(** [typeof v[k] === "string"], with that string. *)
Definition jprop_str (v : JVal) (k : string) : option string :=
  match jprop v k with Some (JStr s) => Some s | _ => None end.

(** [v && typeof v === "object"] *)
Definition jis_object (v : JVal) : bool :=
  match v with JStr _ => false | _ => true end.

(** [!!v]: the empty string is the only falsy value of the tree. *)
Definition jtruthy (v : JVal) : bool :=
  match v with JStr s => negb (String.eqb s "") | _ => true end.

(** [asArray(x)] on a defined value. *)
Definition asArray (x : JVal) : list JVal :=
  match x with JArr l => l | _ => [x] end.

(** [key.endsWith(suffix)] *)
Definition str_ends_with (key suffix : string) : bool :=
  Nat.leb (String.length suffix) (String.length key) &&
  String.eqb (String.substring (String.length key - String.length suffix)
                               (String.length suffix) key) suffix.

(** [endsWithAny(key, names)] *)
Definition endsWithAny (key : string) (names : list string) : bool :=
  existsb (fun n => String.eqb key n || str_ends_with key (":" ++ n)%string) names.

(** The body of the loop over [asArray(val)] under a [TimeStep] key of
    [collectTimeStepStrings]; [rec] is the recursive call. *)
Definition ts_leaf (rec : JVal -> list string -> list string) (v : JVal)
    (hits : list string) : list string :=
  match v with
  | JStr s => (hits ++ [s])%list
  | _ =>
      match jprop_str v "_" with
      | Some s => (hits ++ [s])%list
      | None =>
          match jprop_str v "value" with
          | Some s => (hits ++ [s])%list
          | None => rec v hits
          end
      end
  end.

(** [collectTimeStepStrings(obj, hits)]: [hits.push] appends. *)
Fixpoint collectTimeStepStrings (obj : JVal) (hits : list string) {struct obj}
    : list string :=
  match obj with
  | JStr _ => hits
  | JArr items =>
      fold_left (fun h v => if jis_object v then collectTimeStepStrings v h else h)
                items hits
  | JObj fields =>
      fold_left (fun h '(key, val) =>
        if endsWithAny key ["TimeStep"] then
          match val with
          | JArr vs => fold_left (fun h' v => ts_leaf collectTimeStepStrings v h') vs h
          | _ => ts_leaf collectTimeStepStrings val h
          end
        else if jis_object val then collectTimeStepStrings val h else h)
        fields hits
  end.

(** The body of the loop over [asArray(whenArr)] of [collectTrackWhenStrings]. *)
Definition when_leaf (w : JVal) (hits : list string) : list string :=
  match w with
  | JStr s => (hits ++ [s])%list
  | _ =>
      match jprop_str w "_" with
      | Some s => (hits ++ [s])%list
      | None =>
          match jprop_str w "value" with
          | Some s => (hits ++ [s])%list
          | None => hits
          end
      end
  end.

(** The body of the loop over [asArray(val)] under a [Track] key:
    [const whenArr = tr && tr.when; if (whenArr) ...]. *)
Definition track_leaf (tr : JVal) (hits : list string) : list string :=
  match jprop tr "when" with
  | Some whenArr =>
      if jtruthy whenArr then fold_left (fun h w => when_leaf w h) (asArray whenArr) hits
      else hits
  | None => hits
  end.

(** [collectTrackWhenStrings(obj, hits)] *)
Fixpoint collectTrackWhenStrings (obj : JVal) (hits : list string) {struct obj}
    : list string :=
  match obj with
  | JStr _ => hits
  | JArr items =>
      fold_left (fun h v => if jis_object v then collectTrackWhenStrings v h else h)
                items hits
  | JObj fields =>
      fold_left (fun h '(key, val) =>
        if endsWithAny key ["Track"] then
          fold_left (fun h' tr => track_leaf tr h') (asArray val) h
        else if jis_object val then collectTrackWhenStrings val h else h)
        fields hits
  end.

(** The string leaves of a tree, in order. *)
Fixpoint jstrings (v : JVal) : list string :=
  match v with
  | JStr s => [s]
  | JArr l => flat_map jstrings l
  | JObj fields => flat_map (fun '(_, w) => jstrings w) fields
  end.

(** The number of nodes of a tree. *)
Fixpoint jsize (v : JVal) : nat :=
  match v with
  | JStr _ => 1
  | JArr l => S (list_sum (map jsize l))
  | JObj fields => S (list_sum (map (fun '(_, w) => jsize w) fields))
  end.

Definition stack_size (stack : list JVal) : nat := list_sum (map jsize stack).

(** [if (val && typeof val === "object") { if (Array.isArray(val))
    stack.push(...val); else stack.push(val); }], on a stack whose top
    ([stack.pop()]) is the head of the list. *)
Definition push_val (val : JVal) (stack : list JVal) : list JVal :=
  match val with
  | JStr _ => stack
  | JArr l => rev l ++ stack
  | JObj _ => val :: stack
  end.

(** The [for (const [key, val] of Object.entries(cur))] loop of
    [findFirstDocumentNode] on an object: [inl] the node it returns,
    [inr] the stack after the loop. *)
Fixpoint scan_fields (fields : list (string * JVal)) (stack : list JVal)
    : JVal + list JVal :=
  match fields with
  | [] => inr stack
  | (key, val) :: fields' =>
      let hit :=
        if endsWithAny key ["Document"] then
          match asArray val with
          | a0 :: _ => if jis_object a0 then Some a0 else None
          | [] => None
          end
        else None in
      match hit with
      | Some d => inl d
      | None => scan_fields fields' (push_val val stack)
      end
  end.

(** The [while (stack.length)] loop of [findFirstDocumentNode], bounded by
    [fuel] rounds; [find_loop_fuel] below shows that the size of the stack
    is always enough fuel.  On an array [cur] the keys are indices, which
    never end with "Document". *)
Fixpoint find_loop (fuel : nat) (stack : list JVal) : option JVal :=
  match fuel with
  | O => None
  | S fuel' =>
      match stack with
      | [] => None
      | cur :: stack' =>
          match cur with
          | JStr _ => find_loop fuel' stack'
          | JArr l => find_loop fuel' (fold_left (fun st v => push_val v st) l stack')
          | JObj fields =>
              match scan_fields fields stack' with
              | inl d => Some d
              | inr st => find_loop fuel' st
              end
          end
      end
  end.

(** [findFirstDocumentNode(obj)] *)
Definition findFirstDocumentNode (obj : JVal) : option JVal :=
  find_loop (jsize obj) [obj].

(** [jsub x v]: [x] is a node of the tree [v]. *)
Inductive jsub (x : JVal) : JVal -> Prop :=
| jsub_refl : jsub x x
| jsub_arr (l : list JVal) (w : JVal) : In w l -> jsub x w -> jsub x (JArr l)
| jsub_obj (fields : list (string * JVal)) (k : string) (w : JVal) :
    In (k, w) fields -> jsub x w -> jsub x (JObj fields).

(* ------------------------------------------------------------------------ *)
(** ** [tryGetStationName] (ASCII model of its regular expressions) *)

Definition is_ascii_letter (c : ascii) : bool :=
  let n := nat_of_ascii c in (Nat.leb 65 n && Nat.leb n 90) || (Nat.leb 97 n && Nat.leb n 122).

Definition is_ascii_digit (c : ascii) : bool :=
  let n := nat_of_ascii c in Nat.leb 48 n && Nat.leb n 57.

(** [/^[A-Z]\d{3,4}$/i.test(t)] *)
Definition id_shape (t : list ascii) : bool :=
  match t with
  | c :: ds => is_ascii_letter c && forallb is_ascii_digit ds &&
               (Nat.eqb (length ds) 3 || Nat.eqb (length ds) 4)
  | [] => false
  end.

(** [looksLikeId(s)]: [/^[A-Z]\d{3,4}$/i.test(String(s).trim())] *)
Definition looksLikeId (s : string) : bool :=
  id_shape (list_ascii_of_string (js_trim s)).

(** [k === "name" || /:name$/i.test(k)] *)
Definition isNameKey (k : string) : bool :=
  String.eqb k "name" || str_ends_with (js_toUpperCase k) ":NAME".

(** [if (t.trim()) { const s = t.trim(); if (!looksLikeId(s)) return s; }] *)
Definition name_if_ok (t : string) : option string :=
  let s := js_trim t in
  if String.eqb s "" then None else if looksLikeId s then None else Some s.

(** The [else if (a && typeof a.value === "string" && a.value.trim())] branch. *)
Definition value_branch (a : JVal) : option string :=
  match jprop_str a "value" with Some t => name_if_ok t | None => None end.

(** The body of [for (const a of arr)] under a name key of [pickDeepName]:
    [Some s] when it returns [s].  A string [a] takes the first branch when
    its trim is non-empty, and no other branch applies to a string. *)
Definition name_leaf (a : JVal) : option string :=
  match a with
  | JStr t => name_if_ok t
  | _ =>
      match jprop_str a "_" with
      | Some t => if String.eqb (js_trim t) "" then value_branch a else name_if_ok t
      | None => value_branch a
      end
  end.

(** [for (const a of arr)]: the first name returned. *)
Fixpoint first_name (arr : list JVal) : option string :=
  match arr with
  | [] => None
  | a :: arr' => match name_leaf a with Some s => Some s | None => first_name arr' end
  end.

(** The [for (const [k, v] of Object.entries(cur))] loop of [pickDeepName]
    on an object: [inl] the name it returns, [inr] the stack after it. *)
Fixpoint scan_names (fields : list (string * JVal)) (stack : list JVal)
    : string + list JVal :=
  match fields with
  | [] => inr stack
  | (k, v) :: fields' =>
      match (if isNameKey k then first_name (asArray v) else None) with
      | Some s => inl s
      | None => scan_names fields' (push_val v stack)
      end
  end.

(** The [while (stack.length)] loop of [pickDeepName], bounded by [fuel]
    rounds ([pick_loop_fuel] below: the size of the stack is enough).  On an
    array [cur] the keys are indices, which are never name keys. *)
Fixpoint pick_loop (fuel : nat) (stack : list JVal) : option string :=
  match fuel with
  | O => None
  | S fuel' =>
      match stack with
      | [] => None
      | cur :: stack' =>
          match cur with
          | JStr _ => pick_loop fuel' stack'
          | JArr l => pick_loop fuel' (fold_left (fun st v => push_val v st) l stack')
          | JObj fields =>
              match scan_names fields stack' with
              | inl s => Some s
              | inr st => pick_loop fuel' st
              end
          end
      end
  end.

(** [pickDeepName(obj)] *)
Definition pickDeepName (obj : JVal) : option string :=
  pick_loop (jsize obj) [obj].

(** [asArr(node && node[key])] *)
Definition asArr_prop (node : JVal) (key : string) : list JVal :=
  match jprop node key with Some x => asArray x | None => [] end.

(** [pickText(node, key)] *)
Definition pickText (node : JVal) (key : string) : option string :=
  match asArr_prop node key with
  | [] => None
  | raw :: _ =>
      match raw with
      | JStr t => Some (js_trim t)
      | _ =>
          match jprop_str raw "_" with
          | Some t => Some (js_trim t)
          | None => option_map js_trim (jprop_str raw "value")
          end
      end
  end.

(** [desc.replace(/<[^>]*>/g, "")]: a [<] followed somewhere by a [>] starts
    a tag, removed up to the first [>]; a [<] with no [>] after it stays. *)
Fixpoint strip_tags (l : list ascii) : list ascii :=
  match l with
  | [] => []
  | c :: rest =>
      if Ascii.eqb c "<" && existsb (fun d => Ascii.eqb d ">") rest then skip_tag rest
      else c :: strip_tags rest
  end
with skip_tag (l : list ascii) : list ascii :=
  match l with
  | [] => []
  | c :: rest => if Ascii.eqb c ">" then strip_tags rest else skip_tag rest
  end.

Definition is_line_term (c : ascii) : bool :=
  Nat.eqb (nat_of_ascii c) 10 || Nat.eqb (nat_of_ascii c) 13.

Definition is_alnum (c : ascii) : bool := is_ascii_letter c || is_ascii_digit c.

Fixpoint span_alnum (l : list ascii) : list ascii * list ascii :=
  match l with
  | c :: rest =>
      if is_alnum c then let '(xs, r) := span_alnum rest in (c :: xs, r) else ([], l)
  | [] => ([], [])
  end.

(** [/^\s*\([A-Z0-9]{3,4}\)\s*$/i.test(t)]: neither parenthesis is a space
    or alphanumeric, so the greedy reading below is the only match. *)
Definition id_suffix (t : list ascii) : bool :=
  match drop_spaces t with
  | c :: r =>
      Ascii.eqb c "(" &&
      (let '(xs, r') := span_alnum r in
       match r' with
       | d :: r'' =>
           Ascii.eqb d ")" && (Nat.eqb (length xs) 3 || Nat.eqb (length xs) 4) &&
           forallb is_js_space r''
       | [] => false
       end)
  | [] => false
  end.

(** [m[1]] of [t.match(/^(.+?)\s*\([A-Z0-9]{3,4}\)\s*$/i)]: the lazy group
    is the shortest non-empty prefix, free of line terminators ([.]), whose
    rest matches; [pre] is the prefix tried so far, reversed. *)
Fixpoint lazy_name (pre : list ascii) (l : list ascii) : option (list ascii) :=
  match l with
  | [] => None
  | c :: rest =>
      if is_line_term c then None
      else if id_suffix rest then Some (rev (c :: pre)) else lazy_name (c :: pre) rest
  end.

(** [t.split(/[\r\n]/)[0]] *)
Fixpoint take_line (l : list ascii) : list ascii :=
  match l with
  | [] => []
  | c :: rest => if is_line_term c then [] else c :: take_line rest
  end.

(** The [if (desc) { ... }] block on a non-empty [desc]. *)
Definition name_from_desc (desc : string) : option string :=
  let plain := list_ascii_of_string
                 (js_trim (string_of_list_ascii (strip_tags (list_ascii_of_string desc)))) in
  let from_first :=
    let first := js_trim (string_of_list_ascii (take_line plain)) in
    if negb (String.eqb first "") && negb (looksLikeId first) then Some first else None in
  match lazy_name [] plain with
  | Some m1 =>
      let m1s := string_of_list_ascii m1 in
      if negb (String.eqb m1s "") && negb (looksLikeId m1s) then Some (js_trim m1s)
      else from_first
  | None => from_first
  end.

(** [const desc = pickText(pm, "kml:description") || pickText(pm, "description");
    if (desc) { ... } return null;] *)
Definition desc_name (pm : JVal) : option string :=
  let desc :=
    match pickText pm "kml:description" with
    | Some d => if String.eqb d "" then pickText pm "description" else Some d
    | None => pickText pm "description"
    end in
  match desc with
  | Some d => if String.eqb d "" then None else name_from_desc d
  | None => None
  end.

(** [[].concat(asArr(document.Placemark)).concat(asArr(document["kml:Placemark"]))] *)
Definition placemarks (document : JVal) : list JVal :=
  asArr_prop document "Placemark" ++ asArr_prop document "kml:Placemark".

(** [tryGetStationName(document)]: [None] is [null]. *)
Definition tryGetStationName (document : JVal) : option string :=
  match placemarks document with
  | [] => None
  | pm :: _ =>
      match pickDeepName pm with
      | Some name => if String.eqb name "" then desc_name pm else Some name
      | None => desc_name pm
      end
  end.

(** A Placemark named by its 5-digit WMO number (Frankfurt/Main, 10637). *)
Definition station_doc_10637 : JVal :=
  JObj [("kml:Placemark",
         JArr [JObj [("kml:name", JArr [JStr "10637"]);
                     ("kml:description", JArr [JStr "FRANKFURT/M."])]])].

(** A Placemark named by its id, with the name and the id in the description. *)
Definition station_doc_h721 : JVal :=
  JObj [("kml:Placemark",
         JArr [JObj [("kml:name", JArr [JStr " H721 "]);
                     ("kml:description", JArr [JStr "<b>KOELN/BONN</b> (H721)  "])]])].

(* ======================================================================== *)
(** * Sanity checks on small inputs *)

(** A one-value temperature series (280 K). *)
Definition sample_TTT : Param := mkParam "TTT" None [Some 280%R].
Definition sample_params : Params := {[ "TTT" := sample_TTT ]}.

(** Temperature and dew point both 283.15 K, no humidity series. *)
Definition params_saturated : Params :=
  <["TTT" := mkParam "TTT" None [Some 283.15%R]]>
    {[ "Td" := mkParam "Td" None [Some 283.15%R] ]}.

(** A precipitation series with the value 0. *)
Definition params_rain0 : Params :=
  {[ "RR1c" := mkParam "RR1c" None [Some 0%R] ]}.

(** The editor defaults: all conversions on, degrees only, full records. *)
Definition cfg_default : NormCfg := mkNormCfg false true true true true "deg".

(** The stale message [sendStaleIfAvailable] builds from a cache entry. *)
Definition stale_out (last : Entry) : Out :=
  mkOut (entry_series last) (entry_station last) None (set_stale (entry_meta last)).

(** A node configured for station H721 with stale fallback. *)
Definition node_H721 : NodeCfg :=
  mkNodeCfg "H721" DEFAULT_URL_TEMPLATE (JSFinite 0) false true true true true "deg" true false.

Definition msg_empty : Msg := mkMsg None None None None.

Definition url_H721 : string :=
  "https://opendata.dwd.de/weather/local_forecasts/mos/MOSMIX_L/single_stations/H721/kml/MOSMIX_L_LATEST_H721.kmz".

(** The node context after a successful run for H721 (empty time axis). *)
Definition ctx_after_H721 : Ctx :=
  eff_ctx (runFetch (fun _ => "") (fun _ => "") node_H721 ∅ 0 msg_empty
             (fun _ => FetchOk [] ∅ (Some "KOELN/BONN"))).

(** A request for another station, 10637. *)
Definition msg_10637 : Msg := mkMsg (Some "10637") None None None.

(** Five hourly instants after [now = 0]. *)
Definition hourly_axis : list Z := [3600000; 7200000; 10800000; 14400000; 18000000]%Z.

(** Three instants 10, 20 and 30 hours after [now = 0]. *)
Definition sparse_axis : list Z := [36000000; 72000000; 108000000]%Z.

(** A node whose station setting is blank. *)
Definition node_blank : NodeCfg :=
  mkNodeCfg "  " DEFAULT_URL_TEMPLATE (JSFinite 0) false true true true true "deg" true false.

(** Null at index 0 in [RR1c] and [Neff], values in [RR1o1] and [neff]. *)
Definition params_null_first : Params :=
  <["RR1c" := mkParam "RR1c" None [None]]>
  (<["RR1o1" := mkParam "RR1o1" None [Some 2%R]]>
  (<["Neff" := mkParam "Neff" None [None]]>
  {[ "neff" := mkParam "neff" None [Some 5%R] ]})).

(** The editor defaults with an unknown wind mode ["32"]. *)
Definition cfg_mode32 : NormCfg := mkNormCfg false true true true true "32".

(** Five hourly future instants, a two-hour horizon: the first two remain. *)
Example hours_ahead_two_of_five :
  fst (applyHoursAheadFilter 0 [3600000; 7200000; 10800000; 14400000; 18000000]%Z
         ∅ (JSFinite 2)) = [3600000; 7200000]%Z.
Proof. reflexivity. Qed.

(** [now - 1h; now + 1h; now + 2h] with only-future: the last two remain. *)
Example only_future_last_two :
  fst (applyOnlyFutureFilter 0 [-3600000; 3600000; 7200000]%Z ∅ true)
  = [3600000; 7200000]%Z.
Proof. reflexivity. Qed.

Example align_pads : align_values 3 [Some 1%R] = [Some 1%R; None; None].
Proof. reflexivity. Qed.

Example build_url_upper :
  buildUrl " h721 " "x/{STATION}/y/{station}" = inr "x/H721/y/H721".
Proof. reflexivity. Qed.

Example build_url_H721 :
  buildUrl (run_station node_H721 msg_empty) (run_template node_H721 msg_empty)
  = inr url_H721.
Proof. vm_compute. reflexivity. Qed.

(* ======================================================================== *)
(** * General lemmas *)

(** Rewrite every [params_empty x] whose value is known from the context. *)
Ltac rewrite_params_empty :=
  repeat (match goal with
          | H : params_empty ?x = _ |- context [params_empty ?x] => rewrite H
          end; cbv beta iota).

Lemma params_empty_true (m : Params) : params_empty m = true -> m = ∅.
Proof.
  unfold params_empty. intros H. apply Nat.eqb_eq in H.
  by apply map_size_empty_iff.
Qed.

Lemma chain_step_eq (params : Params) (next : unit -> Params) :
  chain_step params next = if params_empty params then next tt else params.
Proof.
  unfold chain_step, obj_spread. destruct (params_empty params) eqn:E; [|done].
  apply params_empty_true in E as ->. apply map_union_empty.
Qed.

Lemma first_future_none (now i : Z) (ts : list Z) :
  Forall (fun t => (t < now)%Z) ts -> first_future now i ts = (-1)%Z.
Proof.
  intros H. revert i. induction H as [|t ts Ht _ IH]; intros i; [done|].
  simpl. destruct (Z.leb_spec now t); [lia|]. apply IH.
Qed.

Lemma window_scan_none (now : Z) (e : Q) (i : Z) (ts : list Z) (acc : Z * Z) :
  Forall (fun t => in_window now e t = false) ts -> window_scan now e i ts acc = acc.
Proof.
  intros H. revert i acc. induction H as [|t ts Ht _ IH]; intros i acc; [done|].
  simpl. rewrite Ht. apply IH.
Qed.

Lemma in_window_past (now : Z) (e : Q) (t : Z) :
  (t < now)%Z -> in_window now e t = false.
Proof. intros H. unfold in_window. destruct (Z.leb_spec now t); [lia|done]. Qed.

Lemma Qle_bool_pos_false (q : Q) : (0 < q)%Q -> Qle_bool q 0 = false.
Proof.
  intros H. destruct (Qle_bool q 0) eqn:E; [|done].
  apply Qle_bool_iff in E. exfalso. apply (Qlt_not_le _ _ H E).
Qed.

Lemma align_values_spec (n : nat) (vs : list (option R)) :
  length (align_values n vs) = n /\
  (length vs <= n ->
     take (length vs) (align_values n vs) = vs /\
     drop (length vs) (align_values n vs) = replicate (n - length vs) None) /\
  (n <= length vs -> align_values n vs = take n vs).
Proof.
  unfold align_values, js_slice. rewrite Nat.sub_0_r, drop_0.
  destruct (Nat.ltb_spec n (length vs)) as [Hlt|Hge].
  - rewrite length_take_le by lia.
    destruct (Nat.ltb_spec n n); [lia|].
    split; [by rewrite length_take_le by lia|]. split; intros; [lia|done].
  - destruct (Nat.ltb_spec (length vs) n) as [Hl|Hl].
    + rewrite length_app, length_replicate.
      split; [lia|]. split; [|intros; lia]. intros _.
      rewrite take_app_length, drop_app_length. done.
    + assert (length vs = n) as <- by lia.
      rewrite Nat.sub_diag, take_ge, drop_ge by lia.
      split; [done|]. split; [done|]. intros _. done.
Qed.

(* ======================================================================== *)
(** * The claims *)

(** C2: the parameter extractions are tried in the order A (SchemaData
    simple arrays), B (Forecast/TimeSeries parameters), C (attribute-named
    dwd:Forecast), D (regular expressions on the raw text), E (generic walk);
    the result is the first non-empty one, so when A finds parameters the
    result is exactly A's parameters, whatever E would find. *)
Theorem extract_chain_first_nonempty (Doc : Type)
    (exA exB exC exE : Doc -> Params) (exD : string -> Params)
    (doc : Doc) (kmlStr : string) :
  extract_chain Doc exA exB exC exD exE doc kmlStr
    = first_nonempty (strategies Doc exA exB exC exD exE doc kmlStr) /\
  (params_empty (exA doc) = false ->
   extract_chain Doc exA exB exC exD exE doc kmlStr = exA doc).
Proof.
  assert (Hchain : extract_chain Doc exA exB exC exD exE doc kmlStr
                   = first_nonempty (strategies Doc exA exB exC exD exE doc kmlStr)).
  { unfold extract_chain, strategies. simpl.
    rewrite !chain_step_eq. unfold obj_spread. rewrite (map_union_empty (exA doc)).
    destruct (params_empty (exA doc)) eqn:EA, (params_empty (exB doc)) eqn:EB,
      (params_empty (exC doc)) eqn:EC, (params_empty (exD kmlStr)) eqn:ED,
      (params_empty (exE doc)) eqn:EE; rewrite_params_empty; try reflexivity.
    exact (params_empty_true _ EE). }
  split; [exact Hchain|].
  intros HA. rewrite Hchain. simpl. by rewrite HA.
Qed.

Lemma extract_chain_first_nonempty_witness :
  params_empty {[ "TTT" := mkParam "TTT" None [Some 280%R] ]} = false /\
  extract_chain unit
    (fun _ => {[ "TTT" := mkParam "TTT" None [Some 280%R] ]})
    (fun _ => ∅) (fun _ => ∅)
    (fun _ => {[ "TTT" := mkParam "TTT" None [Some 1%R; Some 2%R] ]})
    (fun _ => ∅) tt ""
  = {[ "TTT" := mkParam "TTT" None [Some 280%R] ]}.
Proof.
  split; [vm_compute; reflexivity|].
  destruct (extract_chain_first_nonempty unit
    (fun _ => {[ "TTT" := mkParam "TTT" None [Some 280%R] ]})
    (fun _ => ∅) (fun _ => ∅)
    (fun _ => {[ "TTT" := mkParam "TTT" None [Some 1%R; Some 2%R] ]})
    (fun _ => ∅) tt "") as [_ HA].
  apply HA. vm_compute. reflexivity.
Defined.

(** C8: after alignment to a time axis of length [n] every series has
    length [n]; a shorter one keeps its values as a prefix followed by
    [null]s only, a longer one is cut to its first [n] values. *)
Theorem align_params_length (n : nat) (params : Params) (code : string) (p : Param) :
  params !! code = Some p ->
  exists p', align_params n params !! code = Some p' /\
    p_code p' = p_code p /\ p_unit p' = p_unit p /\
    length (p_values p') = n /\
    (length (p_values p) <= n ->
       take (length (p_values p)) (p_values p') = p_values p /\
       drop (length (p_values p)) (p_values p')
         = replicate (n - length (p_values p)) None) /\
    (n <= length (p_values p) -> p_values p' = take n (p_values p)).
Proof.
  intros Hp. unfold align_params. rewrite lookup_fmap, Hp. simpl.
  eexists; split; [reflexivity|]. simpl.
  destruct (align_values_spec n (p_values p)) as (Hlen & Hshort & Hlong).
  auto.
Qed.

Lemma align_params_length_witness :
  sample_params !! "TTT" = Some sample_TTT /\
  exists p', align_params 3 sample_params !! "TTT" = Some p' /\
             length (p_values p') = 3.
Proof.
  split; [vm_compute; reflexivity|].
  destruct (align_params_length 3 sample_params "TTT" sample_TTT
              ltac:(vm_compute; reflexivity))
    as (p' & Hl & _ & _ & Hn & _).
  exists p'. split; [exact Hl|exact Hn].
Defined.

(** C10: with no instant at or after [now], the horizon filter returns the
    time axis and the parameters unchanged, for every horizon (positive or
    not, finite or not). *)
Theorem hours_ahead_all_past_unchanged (now : Z) (timeSteps : list Z)
    (params : Params) (hoursAhead : JSNumber) :
  Forall (fun t => (t < now)%Z) timeSteps ->
  applyHoursAheadFilter now timeSteps params hoursAhead = (timeSteps, params).
Proof.
  intros Hpast. destruct hoursAhead as [h|]; [|reflexivity].
  unfold applyHoursAheadFilter. destruct (Qle_bool h 0); [reflexivity|].
  rewrite window_scan_none
    by (eapply Forall_impl; [exact Hpast|]; intros t Ht; by apply in_window_past).
  simpl.
  rewrite first_future_none by exact Hpast. reflexivity.
Qed.

Lemma hours_ahead_all_past_unchanged_witness :
  Forall (fun t => (t < 100)%Z) [10; 20]%Z /\
  applyHoursAheadFilter 100 [10; 20]%Z ∅ (JSFinite 3) = ([10; 20]%Z, ∅).
Proof.
  assert (H : Forall (fun t => (t < 100)%Z) [10; 20]%Z) by (repeat constructor; lia).
  split; [exact H|]. exact (hours_ahead_all_past_unchanged 100 [10; 20]%Z ∅ (JSFinite 3) H).
Defined.

Lemma runFetch_failed (nts : R -> string) (iso : Z -> string) (node : NodeCfg)
    (ctx : Ctx) (now : Z) (msg : Msg) (errMsg url : string) :
  buildUrl (run_station node msg) (run_template node msg) = inr url ->
  runFetch nts iso node ctx now msg (fun _ => FetchFailed errMsg)
  = match (if node_staleOnError node then ctx !! CTX_KEY else None) with
    | Some last => mkEffects ctx [stale_out last] [] None
    | None => mkEffects ctx [] [errMsg] None
    end.
Proof.
  intros Hurl. unfold runFetch. rewrite Hurl.
  destruct (node_staleOnError node); [|reflexivity].
  unfold sendStaleIfAvailable. by destruct (ctx !! CTX_KEY).
Qed.

Lemma runFetch_ok (nts : R -> string) (iso : Z -> string) (node : NodeCfg)
    (ctx : Ctx) (now : Z) (msg : Msg) (url : string)
    (timeSteps : list Z) (params : Params) (stationName : option string) :
  buildUrl (run_station node msg) (run_template node msg) = inr url ->
  runFetch nts iso node ctx now msg (fun _ => FetchOk timeSteps params stationName)
  = let out := snd (run_success nts iso node now msg (run_station node msg) url
                                timeSteps params stationName) in
    mkEffects (saveLastGood ctx now (out_payload out) (out_meta out)
                            (run_station node msg))
              [out] [] None.
Proof. intros Hurl. unfold runFetch. by rewrite Hurl. Qed.

(** C1 (as the code does it): a failed run changes no cache entry and throws
    nothing further; with stale fallback on and a cache entry present it
    sends one message whose payload is the cached records, whose [_meta] is
    the cached [_meta] with [stale = true], and whose station id is the
    cached one, and reports no error; otherwise it sends no message at all
    and passes the failure description to [node.error]. *)
Theorem failed_run_stale_or_error (nts : R -> string) (iso : Z -> string)
    (node : NodeCfg) (ctx : Ctx) (now : Z) (msg : Msg) (errMsg url : string) :
  buildUrl (run_station node msg) (run_template node msg) = inr url ->
  let eff := runFetch nts iso node ctx now msg (fun _ => FetchFailed errMsg) in
  eff_ctx eff = ctx /\ eff_thrown eff = None /\
  match (if node_staleOnError node then ctx !! CTX_KEY else None) with
  | Some last =>
      exists out, eff_sent eff = [out] /\
        out_payload out = entry_series last /\
        out_meta out = set_stale (entry_meta last) /\
        meta_stale (out_meta out) = true /\
        out_station_id out = entry_station last /\
        eff_errors eff = []
  | None => eff_sent eff = [] /\ eff_errors eff = [errMsg]
  end.
Proof.
  intros Hurl. cbv zeta. rewrite (runFetch_failed nts iso node ctx now msg errMsg url Hurl).
  destruct (if node_staleOnError node then ctx !! CTX_KEY else None) as [last|];
    simpl; [|auto].
  split; [done|]. split; [done|].
  exists (stale_out last). repeat split.
Qed.

Lemma failed_run_stale_or_error_witness :
  buildUrl (run_station node_H721 msg_empty) (run_template node_H721 msg_empty)
    = inr url_H721 /\
  eff_sent (runFetch (fun _ => "") (fun _ => "") node_H721 ∅ 0 msg_empty
              (fun _ => FetchFailed "HTTP 404")) = [].
Proof.
  split; [vm_compute; reflexivity|].
  destruct (failed_run_stale_or_error (fun _ => "") (fun _ => "") node_H721 ∅ 0
              msg_empty "HTTP 404" url_H721 ltac:(vm_compute; reflexivity))
    as (_ & _ & Hsent & _).
  exact Hsent.
Defined.

(** C1 fails as stated: a failed run with no cache entry sends no message
    (no empty result with the failure description), it only reports the
    error through [node.error]. *)
Lemma failed_run_no_cache_sends_nothing :
  let eff := runFetch (fun _ => "") (fun _ => "") node_H721 ∅ 0 msg_empty
               (fun _ => FetchFailed "HTTP 404") in
  eff_sent eff = [] /\ eff_errors eff = ["HTTP 404"].
Proof. vm_compute. split; reflexivity. Qed.

(** C9 fails as stated: after a successful run for H721, a failed request
    for station 10637 is answered with the stale H721 result. *)
Lemma stale_result_other_station :
  run_station node_H721 msg_10637 = "10637" /\
  map out_station_id
      (eff_sent (runFetch (fun _ => "") (fun _ => "") node_H721 ctx_after_H721 0
                          msg_10637 (fun _ => FetchFailed "HTTP 404")))
  = ["H721"].
Proof. vm_compute. split; reflexivity. Qed.

(** C9 (as the code does it): the last-good cache is one slot, the context
    key ["lastGood"]: a successful run overwrites it with an entry recording
    that run's station and leaves every other key alone; a failed run with
    stale fallback serves that slot, labelled with the station recorded in
    it, whatever station the failed request was for. *)
Theorem last_good_single_slot (nts : R -> string) (iso : Z -> string)
    (node : NodeCfg) (ctx : Ctx) (now : Z) (msg : Msg) (url : string) :
  buildUrl (run_station node msg) (run_template node msg) = inr url ->
  (forall timeSteps params stationName,
     exists series meta,
       eff_ctx (runFetch nts iso node ctx now msg
                         (fun _ => FetchOk timeSteps params stationName))
       = <[CTX_KEY := mkEntry now (run_station node msg) series meta]> ctx) /\
  (forall errMsg last,
     node_staleOnError node = true -> ctx !! CTX_KEY = Some last ->
     map out_station_id
         (eff_sent (runFetch nts iso node ctx now msg (fun _ => FetchFailed errMsg)))
     = [entry_station last]).
Proof.
  intros Hurl. split.
  - intros timeSteps params stationName.
    rewrite (runFetch_ok nts iso node ctx now msg url timeSteps params stationName Hurl).
    simpl. unfold saveLastGood. eauto.
  - intros errMsg last Hstale Hlast.
    rewrite (runFetch_failed nts iso node ctx now msg errMsg url Hurl), Hstale, Hlast.
    reflexivity.
Qed.

Lemma last_good_single_slot_witness :
  buildUrl (run_station node_H721 msg_empty) (run_template node_H721 msg_empty)
    = inr url_H721 /\
  exists series meta,
    ctx_after_H721 = <[CTX_KEY := mkEntry 0 "H721" series meta]> ∅.
Proof.
  split; [vm_compute; reflexivity|].
  destruct (last_good_single_slot (fun _ => "") (fun _ => "") node_H721 ∅ 0
              msg_empty url_H721 ltac:(vm_compute; reflexivity)) as [Hok _].
  exact (Hok [] ∅ (Some "KOELN/BONN")).
Defined.

(* ------------------------------------------------------------------------ *)
(** ** Records and the real-number primitives *)

Lemma normalizeRecords_lookup (nts : R -> string) (iso : Z -> string)
    (timeSteps : list Z) (params : Params) (cfg : NormCfg) (i : nat)
    (r : ForecastRecord) :
  normalizeRecords nts iso timeSteps params cfg !! i = Some r ->
  exists t, timeSteps !! i = Some t /\
    r = (if cfg_coreOnly cfg then core_project (build_record nts iso params cfg i t)
         else build_record nts iso params cfg i t).
Proof.
  unfold normalizeRecords. destruct (cfg_coreOnly cfg).
  - rewrite list_lookup_fmap, list_lookup_imap.
    destruct (timeSteps !! i) as [t|]; simpl; [|discriminate].
    intros [= <-]. eauto.
  - rewrite list_lookup_imap.
    destruct (timeSteps !! i) as [t|]; simpl; [|discriminate].
    intros [= <-]. eauto.
Qed.

Section RealLemmas.
Local Open Scope R_scope.

Lemma Int_part_eq (r : R) (z : Z) : IZR z <= r < IZR z + 1 -> Int_part r = z.
Proof. intros [H1 H2]. symmetry. apply Int_part_spec. lra. Qed.

Lemma js_round_eq (x : R) (z : Z) : IZR z - / 2 <= x < IZR z + / 2 -> js_round x = z.
Proof. intros H. unfold js_round. apply Int_part_eq. lra. Qed.

Lemma js_round_IZR (z : Z) : js_round (IZR z) = z.
Proof. apply js_round_eq. lra. Qed.

Lemma Rltb_true (x y : R) : x < y -> Rltb x y = true.
Proof. intros H. unfold Rltb. destruct (Rlt_dec x y); [done|lra]. Qed.

Lemma Rltb_false (x y : R) : y <= x -> Rltb x y = false.
Proof. intros H. unfold Rltb. destruct (Rlt_dec x y); [lra|done]. Qed.

Lemma js_trunc_nonneg (x : R) (z : Z) : 0 <= x -> IZR z <= x < IZR z + 1 -> js_trunc x = z.
Proof.
  intros H0 H. unfold js_trunc. destruct (Rle_dec 0 x); [|lra].
  by apply Int_part_eq.
Qed.

Lemma exp_div (a b : R) : exp a / exp b = exp (a - b).
Proof. unfold Rminus, Rdiv. by rewrite exp_plus, exp_Ropp. Qed.

(** On [[0, 360)] the double remainder of [dirToCardinal] is the identity. *)
Lemma norm_deg_id (d : R) : 0 <= d < 360 -> js_rem (js_rem d 360 + 360) 360 = d.
Proof.
  intros Hd. unfold js_rem.
  rewrite (js_trunc_nonneg (d / 360) 0).
  2: { apply Rmult_le_pos; [lra|]. apply Rlt_le, Rinv_0_lt_compat. lra. }
  2: { split; [apply Rmult_le_pos; [lra|apply Rlt_le, Rinv_0_lt_compat; lra]|].
       apply Rmult_lt_reg_r with 360; [lra|]. unfold Rdiv.
       rewrite Rmult_assoc, Rinv_l by lra. lra. }
  replace (d - 360 * IZR 0 + 360) with (d + 360) by (simpl; lra).
  rewrite (js_trunc_nonneg ((d + 360) / 360) 1).
  2: { apply Rmult_le_pos; [lra|]. apply Rlt_le, Rinv_0_lt_compat. lra. }
  2: { split; apply Rmult_le_reg_r with 360 || apply Rmult_lt_reg_r with 360; try lra;
       unfold Rdiv; rewrite Rmult_assoc, Rinv_l by lra; lra. }
  simpl. lra.
Qed.

End RealLemmas.

Section RealClaims.
Local Open Scope R_scope.

(** C7: when no humidity value is found at index [i] (neither [rH] nor
    [RELH] gives one) but temperature [TTT] and dew point [Td] (Kelvin) are
    there, the record's relative humidity is the Magnus-Tetens value with
    a = 17.625 and b = 243.04 on the Celsius temperatures, clamped to
    [[0, 100]] and rounded to the nearest integer; with temperature equal to
    dew point it is exactly 100. *)
Theorem relHumidity_magnus (nts : R -> string) (iso : Z -> string)
    (timeSteps : list Z) (params : Params) (cfg : NormCfg) (i : nat)
    (r : ForecastRecord) (tk tdk : R) :
  normalizeRecords nts iso timeSteps params cfg !! i = Some r ->
  getFirst params ["rH"; "RELH"] i = None ->
  getFirst params ["TTT"] i = Some tk ->
  getFirst params ["Td"] i = Some tdk ->
  r_relHumidity r =
    Some (IZR (js_round (Rmax 0 (Rmin 100 (100 * exp
      (17.625 * (tdk - 273.15) / (243.04 + (tdk - 273.15))
       - 17.625 * (tk - 273.15) / (243.04 + (tk - 273.15)))))))) /\
  (tk = tdk -> r_relHumidity r = Some 100).
Proof.
  intros Hr HRH HT HTd.
  destruct (normalizeRecords_lookup _ _ _ _ _ _ _ Hr) as (t & _ & ->).
  assert (Hrh : r_relHumidity (build_record nts iso params cfg i t) =
    Some (IZR (js_round (Rmax 0 (Rmin 100 (100 * (exp (gamma (KtoC tdk))
                                               / exp (gamma (KtoC tk))))))))).
  { unfold build_record. cbv zeta. rewrite HRH, HT, HTd. reflexivity. }
  assert (Hrh' : r_relHumidity (if cfg_coreOnly cfg
                                then core_project (build_record nts iso params cfg i t)
                                else build_record nts iso params cfg i t)
                 = r_relHumidity (build_record nts iso params cfg i t))
    by (destruct (cfg_coreOnly cfg); reflexivity).
  rewrite Hrh', Hrh. split.
  - rewrite exp_div. reflexivity.
  - intros <-. unfold Rdiv. rewrite Rinv_r by apply Rgt_not_eq, exp_pos.
    rewrite Rmult_1_r, Rmin_left, Rmax_right by lra.
    by rewrite js_round_IZR.
Qed.

(** C3 (as the code does it): whenever a precipitation value [p] is present
    (any value, also [0] or a negative one) the text is
    ["Regen (<intensity>) – <p> mm/h"] with intensity "leicht" below 0.3,
    "mäßig" from 0.3 below 1.0 and "stark" from 1.0 on; when the value is
    absent the text is [null].  No "no precipitation" text exists. *)
Theorem precipitation_text_rule (nts : R -> string) (iso : Z -> string)
    (timeSteps : list Z) (params : Params) (cfg : NormCfg) (i : nat)
    (r : ForecastRecord) :
  normalizeRecords nts iso timeSteps params cfg !! i = Some r ->
  match r_precipitation r with
  | Some p =>
      exists intensity,
        r_precipitationText r =
          Some ("Regen (" ++ intensity ++ ") – " ++ nts p ++ " mm/h")%string /\
        ((p < 0.3 /\ intensity = "leicht"%string) \/
         (0.3 <= p < 1.0 /\ intensity = "mäßig"%string) \/
         (1.0 <= p /\ intensity = "stark"%string))
  | None => r_precipitationText r = None
  end.
Proof.
  intros Hr.
  destruct (normalizeRecords_lookup _ _ _ _ _ _ _ Hr) as (t & _ & ->).
  assert (H : r_precipitation (if cfg_coreOnly cfg
                               then core_project (build_record nts iso params cfg i t)
                               else build_record nts iso params cfg i t)
              = getFirst params ["RR1c"; "RR1o1"] i /\
              r_precipitationText (if cfg_coreOnly cfg
                               then core_project (build_record nts iso params cfg i t)
                               else build_record nts iso params cfg i t)
              = option_map (precip_text nts) (getFirst params ["RR1c"; "RR1o1"] i))
    by (destruct (cfg_coreOnly cfg); split; reflexivity).
  destruct H as [-> ->].
  destruct (getFirst params ["RR1c"; "RR1o1"] i) as [p|]; [|reflexivity].
  exists (precip_intensity p). split; [reflexivity|].
  unfold precip_intensity.
  destruct (Rlt_dec p 0.3) as [Hl|Hl].
  - left. split; [done|]. by rewrite Rltb_true.
  - right. rewrite Rltb_false by lra.
    destruct (Rlt_dec p 1.0) as [Hm|Hm].
    + left. split; [lra|]. by rewrite Rltb_true.
    + right. split; [lra|]. by rewrite Rltb_false by lra.
Qed.

Lemma relHumidity_magnus_witness :
  getFirst params_saturated ["rH"; "RELH"] 0 = None /\
  getFirst params_saturated ["TTT"] 0 = Some 283.15 /\
  getFirst params_saturated ["Td"] 0 = Some 283.15 /\
  option_map r_relHumidity
    (normalizeRecords (fun _ => ""%string) (fun _ => ""%string) [0%Z]
                      params_saturated cfg_default !! 0%nat)
  = Some (Some 100).
Proof.
  split; [reflexivity|]. split; [reflexivity|]. split; [reflexivity|].
  destruct (relHumidity_magnus (fun _ => ""%string) (fun _ => ""%string) [0%Z]
              params_saturated cfg_default 0
              (build_record (fun _ => ""%string) (fun _ => ""%string)
                            params_saturated cfg_default 0 0)
              283.15 283.15 eq_refl eq_refl eq_refl eq_refl) as [_ H].
  change (Some (r_relHumidity (build_record (fun _ => ""%string) (fun _ => ""%string)
                                             params_saturated cfg_default 0 0))
          = Some (Some 100)).
  rewrite (H eq_refl). reflexivity.
Defined.

(** C3 fails as stated: a present value 0 is rendered as light rain, and an
    absent value gives no text at all, never "no precipitation". *)
Lemma precip_zero_rendered_as_rain :
  option_map r_precipitationText
    (normalizeRecords (fun _ => "0"%string) (fun _ => ""%string) [0%Z]
                      params_rain0 cfg_default !! 0%nat)
  = Some (Some "Regen (leicht) – 0 mm/h"%string) /\
  option_map r_precipitationText
    (normalizeRecords (fun _ => "0"%string) (fun _ => ""%string) [0%Z]
                      ∅ cfg_default !! 0%nat)
  = Some None.
Proof.
  split; [|reflexivity].
  change (Some (option_map (precip_text (fun _ => "0"%string))
                 (getFirst params_rain0 ["RR1c"; "RR1o1"] 0))
          = Some (Some "Regen (leicht) – 0 mm/h"%string)).
  assert (H0 : getFirst params_rain0 ["RR1c"; "RR1o1"] 0 = Some 0) by reflexivity.
  rewrite H0. simpl. unfold precip_text, precip_intensity.
  rewrite Rltb_true by lra. reflexivity.
Qed.

Lemma precipitation_text_rule_witness :
  normalizeRecords (fun _ => "0"%string) (fun _ => ""%string) [0%Z]
                   params_rain0 cfg_default !! 0%nat
  = Some (build_record (fun _ => "0"%string) (fun _ => ""%string)
                       params_rain0 cfg_default 0 0) /\
  exists intensity,
    r_precipitationText (build_record (fun _ => "0"%string) (fun _ => ""%string)
                                      params_rain0 cfg_default 0 0)
    = Some ("Regen (" ++ intensity ++ ") – 0 mm/h")%string.
Proof.
  split; [reflexivity|].
  pose proof (precipitation_text_rule (fun _ => "0"%string) (fun _ => ""%string)
                [0%Z] params_rain0 cfg_default 0 _ eq_refl) as H.
  assert (H0 : getFirst params_rain0 ["RR1c"; "RR1o1"] 0 = Some 0) by reflexivity.
  change (r_precipitation (build_record (fun _ => "0"%string) (fun _ => ""%string)
                                        params_rain0 cfg_default 0 0))
    with (getFirst params_rain0 ["RR1c"; "RR1o1"] 0) in H.
  rewrite H0 in H. destruct H as (intensity & Htext & _).
  exists intensity. exact Htext.
Defined.

Lemma dirToCardinal_8 (d : R) (k : Z) :
  0 <= d < 360 -> 45 * IZR k - 22.5 <= d < 45 * IZR k + 22.5 ->
  dirToCardinal (Some d) "8" = names8 !! Z.to_nat (Z.rem k 8).
Proof.
  intros Hd Hk. unfold dirToCardinal. rewrite norm_deg_id by exact Hd.
  cbn [String.eqb Ascii.eqb Bool.eqb andb].
  rewrite (js_round_eq (d / 45) k); [reflexivity|].
  split; apply Rmult_le_reg_r with 45 || apply Rmult_lt_reg_r with 45; try lra;
    unfold Rdiv; rewrite Rmult_assoc, Rinv_l by lra; lra.
Qed.

Lemma dirToCardinal_16 (d : R) (k : Z) :
  0 <= d < 360 -> 22.5 * IZR k - 11.25 <= d < 22.5 * IZR k + 11.25 ->
  dirToCardinal (Some d) "16" = names16 !! Z.to_nat (Z.rem k 16).
Proof.
  intros Hd Hk. unfold dirToCardinal. rewrite norm_deg_id by exact Hd.
  cbn [String.eqb Ascii.eqb Bool.eqb andb].
  rewrite (js_round_eq (d / 22.5) k); [reflexivity|].
  split; apply Rmult_le_reg_r with 22.5 || apply Rmult_lt_reg_r with 22.5; try lra;
    unfold Rdiv; rewrite Rmult_assoc, Rinv_l by lra; lra.
Qed.

(** C5 fails as stated: 100 degrees is nearest to sector 4 of 16, which
    the code names "O" (east, German labels), not "ESE". *)
Lemma wind_100_16_is_O : dirToCardinal (Some 100) "16" = Some "O"%string.
Proof. apply (dirToCardinal_16 100 4); simpl; lra. Qed.

Lemma windDirCardinal_deg (nts : R -> string) (iso : Z -> string)
    (timeSteps : list Z) (params : Params) (cfg : NormCfg) (i : nat)
    (r : ForecastRecord) :
  cfg_windDirMode cfg = "deg"%string ->
  normalizeRecords nts iso timeSteps params cfg !! i = Some r ->
  r_windDirCardinal r = if cfg_coreOnly cfg then Some None else None.
Proof.
  intros Hmode Hr.
  destruct (normalizeRecords_lookup _ _ _ _ _ _ _ Hr) as (t & _ & ->).
  destruct (cfg_coreOnly cfg); simpl; rewrite Hmode; reflexivity.
Qed.

(** C5 (as the code does it): in the "8" and "16" modes a direction [d] in
    [[0, 360)] gets the German label ("O" for east) of the sector index
    nearest to [d] (sectors 45 and 22.5 degrees wide): 0 is "N" in both
    modes, 225 is "SW" with 8 sectors and 100 is "O" with 16 sectors.  In
    the default "deg" mode the [windDirCardinal] key is missing from the
    record, except with [coreOnly], where it is present with value [null]. *)
Theorem wind_cardinal_nearest_sector :
  (forall (d : R) (k : Z), 0 <= d < 360 -> 45 * IZR k - 22.5 <= d < 45 * IZR k + 22.5 ->
     dirToCardinal (Some d) "8" = names8 !! Z.to_nat (Z.rem k 8)) /\
  (forall (d : R) (k : Z), 0 <= d < 360 ->
     22.5 * IZR k - 11.25 <= d < 22.5 * IZR k + 11.25 ->
     dirToCardinal (Some d) "16" = names16 !! Z.to_nat (Z.rem k 16)) /\
  dirToCardinal (Some 0) "8" = Some "N"%string /\
  dirToCardinal (Some 0) "16" = Some "N"%string /\
  dirToCardinal (Some 225) "8" = Some "SW"%string /\
  dirToCardinal (Some 100) "16" = Some "O"%string /\
  (forall (nts : R -> string) (iso : Z -> string) (timeSteps : list Z)
          (params : Params) (cfg : NormCfg) (i : nat) (r : ForecastRecord),
     cfg_windDirMode cfg = "deg"%string ->
     normalizeRecords nts iso timeSteps params cfg !! i = Some r ->
     r_windDirCardinal r = if cfg_coreOnly cfg then Some None else None).
Proof.
  split; [exact dirToCardinal_8|].
  split; [exact dirToCardinal_16|].
  split; [apply (dirToCardinal_8 0 0); simpl; lra|].
  split; [apply (dirToCardinal_16 0 0); simpl; lra|].
  split; [apply (dirToCardinal_8 225 5); simpl; lra|].
  split; [apply (dirToCardinal_16 100 4); simpl; lra|].
  exact windDirCardinal_deg.
Qed.

Lemma wind_cardinal_nearest_sector_witness :
  dirToCardinal (Some 350) "8" = Some "N"%string /\
  option_map r_windDirCardinal
    (normalizeRecords (fun _ => ""%string) (fun _ => ""%string) [0%Z]
                      ∅ cfg_default !! 0%nat) = Some None.
Proof.
  destruct wind_cardinal_nearest_sector as (H8 & _ & _ & _ & _ & _ & Hdeg).
  split.
  - apply (H8 350 8%Z); simpl; lra.
  - change (Some (r_windDirCardinal
                    (build_record (fun _ => ""%string) (fun _ => ""%string)
                                  ∅ cfg_default 0 0)) = Some None).
    rewrite (Hdeg (fun _ => ""%string) (fun _ => ""%string) [0%Z] ∅ cfg_default 0%nat
                  _ eq_refl eq_refl).
    reflexivity.
Defined.

End RealClaims.

(* ------------------------------------------------------------------------ *)
(** ** Timestamps of the output records *)

Lemma Sorted_drop {A} (Rel : A -> A -> Prop) (l : list A) (k : nat) :
  Sorted Rel l -> Sorted Rel (drop k l).
Proof.
  revert l. induction k as [|k IH]; intros l Hl; [by rewrite drop_0|].
  destruct l as [|x l]; [done|]. simpl. apply IH. by apply Sorted_inv in Hl as [].
Qed.

Lemma HdRel_take {A} (Rel : A -> A -> Prop) (x : A) (l : list A) (k : nat) :
  HdRel Rel x l -> HdRel Rel x (take k l).
Proof.
  intros H. destruct k as [|k]; [constructor|].
  destruct l as [|y l]; simpl; [constructor|]. inversion H; by constructor.
Qed.

Lemma Sorted_take {A} (Rel : A -> A -> Prop) (l : list A) (k : nat) :
  Sorted Rel l -> Sorted Rel (take k l).
Proof.
  revert k. induction l as [|x l IH]; intros k Hl; [by rewrite take_nil|].
  destruct k as [|k]; simpl; [constructor|].
  apply Sorted_inv in Hl as [Hl Hx]. constructor; [by apply IH|].
  by apply HdRel_take.
Qed.

Lemma Sorted_js_slice {A} (Rel : A -> A -> Prop) (l : list A) (a b : nat) :
  Sorted Rel l -> Sorted Rel (js_slice l a b).
Proof. intros H. by apply Sorted_take, Sorted_drop. Qed.

Lemma only_future_sorted (Rel : Z -> Z -> Prop) (now : Z) (ts : list Z)
    (params : Params) (b : bool) :
  Sorted Rel ts -> Sorted Rel (fst (applyOnlyFutureFilter now ts params b)).
Proof.
  intros H. unfold applyOnlyFutureFilter.
  destruct b; simpl; [|done].
  destruct (Z.leb _ 0); [|by apply Sorted_drop].
  destruct (Z.eqb _ (-1)); simpl; [constructor|done].
Qed.

Lemma hours_ahead_sorted (Rel : Z -> Z -> Prop) (now : Z) (ts : list Z)
    (params : Params) (H : JSNumber) :
  Sorted Rel ts -> Sorted Rel (fst (applyHoursAheadFilter now ts params H)).
Proof.
  intros Hs. destruct H as [H|]; [|done]. unfold applyHoursAheadFilter.
  destruct (Qle_bool H 0); [done|].
  repeat case_match; simpl; try done; by apply Sorted_js_slice.
Qed.

Lemma imap_r_ts (f : nat -> Z -> ForecastRecord) (l : list Z) :
  (forall n t, r_ts (f n t) = t) -> r_ts <$> imap f l = l.
Proof.
  revert f. induction l as [|t l IH]; intros f Hf; [done|].
  simpl. rewrite Hf. f_equal. apply IH. intros n u. apply Hf.
Qed.

Lemma normalizeRecords_ts (nts : R -> string) (iso : Z -> string)
    (timeSteps : list Z) (params : Params) (cfg : NormCfg) :
  r_ts <$> normalizeRecords nts iso timeSteps params cfg = timeSteps.
Proof.
  unfold normalizeRecords. destruct (cfg_coreOnly cfg).
  - rewrite <- list_fmap_compose. apply imap_r_ts. reflexivity.
  - apply imap_r_ts. reflexivity.
Qed.

(** C4 (as the code does it): after a successful run the number of records,
    and [_meta.count], equal the length of the filtered time axis, and the
    records carry the instants of that axis in its order; they are strictly
    increasing when the document's time axis is (the code does not sort). *)
Theorem records_follow_filtered_axis (nts : R -> string) (iso : Z -> string)
    (node : NodeCfg) (now : Z) (msg : Msg) (station url : string)
    (timeSteps : list Z) (params : Params) (stationName : option string) :
  let '(ts2, out) := run_success nts iso node now msg station url
                                 timeSteps params stationName in
  length (out_payload out) = length ts2 /\
  meta_count (out_meta out) = length ts2 /\
  r_ts <$> out_payload out = ts2 /\
  (Sorted Z.lt timeSteps -> Sorted Z.lt (r_ts <$> out_payload out)).
Proof.
  unfold run_success.
  destruct (applyOnlyFutureFilter now timeSteps params _) as [ts1 pa1] eqn:E1.
  destruct (applyHoursAheadFilter now ts1 pa1 _) as [ts2 pa2] eqn:E2.
  simpl. rewrite normalizeRecords_ts.
  assert (Hlen : length (normalizeRecords nts iso ts2 pa2
            (mkNormCfg (node_coreOnly node) (node_toC node) (node_windToKmh node)
               (node_pressureToHpa node) (node_visibilityToKm node)
               (node_windDirMode node))) = length ts2).
  { rewrite <- (length_fmap r_ts), normalizeRecords_ts. reflexivity. }
  split; [exact Hlen|]. split; [exact Hlen|]. split; [reflexivity|].
  intros Hs.
  assert (Hs1 : Sorted Z.lt ts1).
  { change ts1 with (fst (ts1, pa1)). rewrite <- E1. by apply only_future_sorted. }
  change ts2 with (fst (ts2, pa2)). rewrite <- E2. by apply hours_ahead_sorted.
Qed.

Lemma records_follow_filtered_axis_witness :
  Sorted Z.lt [1; 2]%Z /\
  Sorted Z.lt (r_ts <$> out_payload
    (snd (run_success (fun _ => ""%string) (fun _ => ""%string) node_H721 0 msg_empty
                      "H721" url_H721 [1; 2]%Z ∅ None))).
Proof.
  assert (Hs : Sorted Z.lt [1; 2]%Z) by (repeat constructor; lia).
  split; [exact Hs|].
  pose proof (records_follow_filtered_axis (fun _ => ""%string) (fun _ => ""%string)
                node_H721 0 msg_empty "H721" url_H721 [1; 2]%Z ∅ None) as H.
  destruct (run_success _ _ _ _ _ _ _ _ _ _) as [ts2 out].
  destruct H as (_ & _ & _ & Hsorted). exact (Hsorted Hs).
Defined.

(** C4 fails as stated: a document whose time steps are out of order gives
    records whose timestamps are not increasing. *)
Lemma records_unsorted_axis :
  r_ts <$> out_payload
    (snd (run_success (fun _ => ""%string) (fun _ => ""%string) node_H721 0 msg_empty
                      "H721" url_H721 [2; 1]%Z ∅ None)) = [2; 1]%Z /\
  ~ Sorted Z.lt [2; 1]%Z.
Proof.
  split; [vm_compute; reflexivity|].
  intros H. apply Sorted_inv in H as [_ H]. inversion H. lia.
Qed.

(* ------------------------------------------------------------------------ *)
(** ** The horizon window on a sorted time axis *)

Lemma in_window_mono (now : Z) (e : Q) (t u : Z) :
  (now <= t)%Z -> in_window now e t = false -> (t <= u)%Z ->
  in_window now e u = false.
Proof.
  unfold in_window. intros Hnt Ht Htu.
  destruct (Z.leb_spec now t); [|lia]. simpl in Ht.
  destruct (Z.leb_spec now u); [|done]. simpl.
  destruct (Qle_bool (inject_Z u) e) eqn:Eu; [|done].
  apply Qle_bool_iff in Eu.
  assert (Hq : (inject_Z t <= e)%Q).
  { eapply Qle_trans; [|exact Eu]. rewrite <- Zle_Qle. exact Htu. }
  apply Qle_bool_iff in Hq. congruence.
Qed.

Lemma in_window_true_le (now : Z) (e : Q) (t : Z) :
  in_window now e t = true -> (now <= t)%Z.
Proof.
  unfold in_window. intros H. apply andb_prop in H as [H _]. by apply Z.leb_le.
Qed.

Lemma sorted_split (now : Z) (e : Q) (ts : list Z) :
  StronglySorted Z.le ts ->
  exists pre mid post, ts = pre ++ mid ++ post /\
    Forall (fun t => (t < now)%Z) pre /\
    Forall (fun t => in_window now e t = true) mid /\
    Forall (fun t => (now <= t)%Z /\ in_window now e t = false) post.
Proof.
  induction ts as [|t ts IH]; intros Hs.
  - exists [], [], []. split_and!; [done|constructor..].
  - apply StronglySorted_inv in Hs as [Hs Hle].
    destruct (IH Hs) as (pre & mid & post & -> & Hpre & Hmid & Hpost).
    destruct (Z.ltb_spec t now) as [Hlt|Hge].
    + exists (t :: pre), mid, post. split_and!; [done|by constructor|done|done].
    + assert (pre = []) as ->.
      { destruct pre as [|x pre]; [done|].
        apply Forall_cons in Hpre as [Hx _]. simpl in Hle.
        apply Forall_cons in Hle as [Htx _]. lia. }
      destruct (in_window now e t) eqn:Ew.
      * exists [], (t :: mid), post. split_and!; [done|by constructor|by constructor|done].
      * assert (mid = []) as ->.
        { destruct mid as [|x mid]; [done|].
          apply Forall_cons in Hmid as [Hx _]. simpl in Hle.
          apply Forall_cons in Hle as [Htx _].
          rewrite (in_window_mono now e t x Hge Ew Htx) in Hx. discriminate. }
        exists [], [], (t :: post).
        split_and!; [done|by constructor|by constructor|by constructor].
Qed.

Lemma window_scan_app (now : Z) (e : Q) (i : Z) (l1 l2 : list Z) (acc : Z * Z) :
  window_scan now e i (l1 ++ l2) acc
  = window_scan now e (i + Z.of_nat (length l1)) l2 (window_scan now e i l1 acc).
Proof.
  revert i acc. induction l1 as [|t l1 IH]; intros i acc; simpl.
  - by rewrite Z.add_0_r.
  - rewrite IH. f_equal. lia.
Qed.

Lemma window_scan_all_in (now : Z) (e : Q) (i : Z) (mid : list Z) (acc : Z * Z) :
  (0 <= i)%Z -> mid <> [] -> Forall (fun t => in_window now e t = true) mid ->
  window_scan now e i mid acc
  = ((if Z.eqb (fst acc) (-1) then i else fst acc), (i + Z.of_nat (length mid) - 1)%Z).
Proof.
  revert i acc. induction mid as [|t mid IH]; intros i acc Hi Hne Hin; [done|].
  apply Forall_cons in Hin as [Ht Hin]. simpl. rewrite Ht.
  destruct mid as [|u mid'].
  - simpl. f_equal. lia.
  - rewrite IH by (done || lia). simpl. f_equal.
    + destruct (Z.eqb_spec (fst acc) (-1)) as [E|E].
      * destruct (Z.eqb_spec i (-1)); [lia|done].
      * by rewrite (proj2 (Z.eqb_neq _ _) E).
    + lia.
Qed.

Lemma first_future_app (now i : Z) (pre l : list Z) :
  Forall (fun t => (t < now)%Z) pre ->
  first_future now i (pre ++ l) = first_future now (i + Z.of_nat (length pre)) l.
Proof.
  revert i. induction pre as [|t pre IH]; intros i Hpre; simpl.
  - by rewrite Z.add_0_r.
  - apply Forall_cons in Hpre as [Ht Hpre].
    destruct (Z.leb_spec now t); [lia|]. rewrite IH by done. f_equal. lia.
Qed.

Lemma filter_all_false {A} (f : A -> bool) (l : list A) :
  Forall (fun x => f x = false) l -> List.filter f l = [].
Proof. induction 1 as [|x l Hx _ IH]; simpl; [done|]. by rewrite Hx. Qed.

Lemma filter_all_true {A} (f : A -> bool) (l : list A) :
  Forall (fun x => f x = true) l -> List.filter f l = l.
Proof. induction 1 as [|x l Hx _ IH]; simpl; [done|]. by rewrite Hx, IH. Qed.

Lemma Qceiling_pos (q : Q) : (0 < q)%Q -> (1 <= Qceiling q)%Z.
Proof.
  intros H. pose proof (Qle_ceiling q) as Hc.
  assert (Hz : (0 < Qceiling q)%Z).
  { rewrite Zlt_Qlt. eapply Qlt_le_trans; [exact H|exact Hc]. }
  lia.
Qed.

Lemma take_min_length {A} (l : list A) (n : nat) : take (Nat.min n (length l)) l = take n l.
Proof.
  destruct (Nat.le_ge_cases n (length l)).
  - by rewrite Nat.min_l.
  - rewrite Nat.min_r by done. rewrite take_ge by done. by rewrite take_ge.
Qed.

Lemma Forall_true_false_nil (now : Z) (e : Q) (l : list Z) :
  Forall (fun t => in_window now e t = true) l ->
  Forall (fun t => in_window now e t = false) l -> l = [].
Proof.
  destruct l as [|t l]; [done|]. intros H1 H2.
  apply Forall_cons in H1 as [H1 _]. apply Forall_cons in H2 as [H2 _]. congruence.
Qed.

Lemma hours_ahead_sorted_in (now : Z) (ts : list Z) (params : Params) (H : Q) :
  (0 < H)%Q -> Sorted Z.le ts ->
  Exists (fun t => in_window now (inject_Z now + H * 3600 * 1000)%Q t = true) ts ->
  fst (applyHoursAheadFilter now ts params (JSFinite H))
  = List.filter (in_window now (inject_Z now + H * 3600 * 1000)%Q) ts.
Proof.
  set (e := (inject_Z now + H * 3600 * 1000)%Q).
  intros Hpos Hs Hex.
  apply Sorted_StronglySorted in Hs; [|intros ???; lia].
  destruct (sorted_split now e ts Hs) as (pre & mid & post & -> & Hpre & Hmid & Hpost).
  assert (Hpre' : Forall (fun t => in_window now e t = false) pre).
  { eapply Forall_impl; [exact Hpre|]. intros t Ht. by apply in_window_past. }
  assert (Hpost' : Forall (fun t => in_window now e t = false) post).
  { eapply Forall_impl; [exact Hpost|]. by intros t [_ Ht]. }
  assert (Hne : mid <> []).
  { intros ->. simpl in Hex. apply Exists_app in Hex as [Hx|Hx];
      apply List.Exists_exists in Hx as (x & Hx & Hxw);
      [apply List.Forall_forall with (x := x) in Hpre'|
       apply List.Forall_forall with (x := x) in Hpost']; congruence. }
  unfold applyHoursAheadFilter. rewrite (Qle_bool_pos_false _ Hpos). fold e.
  rewrite window_scan_app, (window_scan_none _ _ _ pre) by done.
  rewrite window_scan_app, (window_scan_none _ _ _ post) by done.
  rewrite window_scan_all_in by (done || lia).
  cbn [fst]. rewrite Z.eqb_refl.
  assert (Hm : (1 <= length mid)%nat) by (destruct mid; [done|simpl; lia]).
  rewrite (proj2 (Z.eqb_neq _ _)) by lia.
  rewrite (proj2 (Z.eqb_neq _ _)) by lia.
  rewrite (proj2 (Z.ltb_ge _ _)) by lia. cbn [orb fst].
  replace (Z.to_nat (0 + Z.of_nat (length pre))) with (length pre) by lia.
  replace (Z.to_nat (0 + Z.of_nat (length pre) + Z.of_nat (length mid) - 1 + 1))
    with (length pre + length mid)%nat by lia.
  unfold js_slice. replace (length pre + length mid - length pre)%nat with (length mid) by lia.
  rewrite drop_app_length, take_app_length.
  rewrite !List.filter_app, (filter_all_false _ pre), (filter_all_true _ mid),
    (filter_all_false _ post) by done.
  rewrite (proj2 (Z.eqb_neq _ _)) by lia. cbn [orb fst].
  by rewrite app_nil_r.
Qed.

Lemma hours_ahead_sorted_none (now : Z) (ts : list Z) (params : Params) (H : Q) :
  (0 < H)%Q -> Sorted Z.le ts ->
  Forall (fun t => in_window now (inject_Z now + H * 3600 * 1000)%Q t = false) ts ->
  Exists (fun t => (now <= t)%Z) ts ->
  fst (applyHoursAheadFilter now ts params (JSFinite H))
  = take (Z.to_nat (Qceiling H)) (List.filter (fun t => Z.leb now t) ts).
Proof.
  set (e := (inject_Z now + H * 3600 * 1000)%Q).
  intros Hpos Hs Hout Hex.
  apply Sorted_StronglySorted in Hs; [|intros ???; lia].
  destruct (sorted_split now e ts Hs) as (pre & mid & post & -> & Hpre & Hmid & Hpost).
  pose proof Hout as Hout0.
  apply Forall_app in Hout as [_ Hout']. apply Forall_app in Hout' as [Hmid' _].
  pose proof (Forall_true_false_nil _ _ _ Hmid Hmid') as ->. simpl in *.
  destruct post as [|u post'].
  { exfalso. rewrite app_nil_r in Hex.
    apply List.Exists_exists in Hex as (x & Hx & Hxn).
    apply List.Forall_forall with (x := x) in Hpre; [lia|done]. }
  apply Forall_cons in Hpost as [[Hu _] Hpost].
  pose proof (Qceiling_pos _ Hpos) as Hc.
  unfold applyHoursAheadFilter. rewrite (Qle_bool_pos_false _ Hpos). fold e.
  rewrite window_scan_none by done.
  cbn [fst]. rewrite Z.eqb_refl.
  rewrite first_future_app by done. simpl first_future.
  destruct (Z.leb_spec now u); [|lia].
  rewrite (proj2 (Z.eqb_neq _ _)) by lia.
  rewrite (proj2 (Z.eqb_neq _ _)) by lia.
  rewrite length_app. simpl length.
  rewrite (proj2 (Z.eqb_neq _ _)) by lia.
  rewrite (proj2 (Z.ltb_ge _ _)) by lia. cbn [orb fst].
  replace (Z.to_nat (0 + Z.of_nat (length pre))) with (length pre) by lia.
  replace (Z.to_nat
             (Z.min (Z.of_nat (length pre + S (length post')) - 1)
                    (0 + Z.of_nat (length pre) + Z.max 0 (Qceiling H) - 1) + 1))
    with (length pre + Nat.min (Z.to_nat (Qceiling H)) (length (u :: post')))%nat
    by (simpl length; lia).
  unfold js_slice.
  replace (length pre + Nat.min (Z.to_nat (Qceiling H)) (length (u :: post'))
           - length pre)%nat
    with (Nat.min (Z.to_nat (Qceiling H)) (length (u :: post'))) by lia.
  rewrite drop_app_length, take_min_length.
  rewrite List.filter_app, (filter_all_false _ pre).
  2:{ eapply Forall_impl; [exact Hpre|]. intros t Ht. by apply Z.leb_gt. }
  rewrite (filter_all_true _ (u :: post')); [done|].
  constructor; [by apply Z.leb_le|].
  eapply Forall_impl; [exact Hpost|].
  intros t [Ht _]. by apply Z.leb_le.
Qed.

Lemma forall_false_or_exists_true {A} (f : A -> bool) (l : list A) :
  Forall (fun x => f x = false) l \/ Exists (fun x => f x = true) l.
Proof.
  induction l as [|x l [IH|IH]]; [by left| |by right; apply Exists_cons_tl].
  destruct (f x) eqn:E; [right; by apply Exists_cons_hd|left; by constructor].
Qed.

(** A list with an element satisfying [f] splits around the first and the
    last such element. *)
Lemma first_last_split {A} (f : A -> bool) (l : list A) :
  Exists (fun x => f x = true) l ->
  exists pre mid post, l = pre ++ mid ++ post /\
    Forall (fun x => f x = false) pre /\ Forall (fun x => f x = false) post /\
    (exists t m, mid = t :: m /\ f t = true) /\
    (exists m t, mid = m ++ [t] /\ f t = true).
Proof.
  induction l as [|x l IH]; intros Hex; [inversion Hex|].
  destruct (f x) eqn:Ex.
  - destruct (forall_false_or_exists_true f l) as [Hl|Hl].
    + exists [], [x], l. split_and!; [done|constructor|done|eauto|].
      exists [], x. done.
    + destruct (IH Hl) as (pre & mid & post & -> & Hpre & Hpost & _ & (m & t & -> & Ht)).
      exists [], (x :: pre ++ m ++ [t]), post.
      split_and!; [simpl; by rewrite <- !app_assoc|constructor|done|eauto|].
      exists (x :: pre ++ m), t. split; [simpl; by rewrite <- !app_assoc|done].
  - apply Exists_cons in Hex as [Hx|Hl]; [congruence|].
    destruct (IH Hl) as (pre & mid & post & -> & Hpre & Hpost & Hh & Hl').
    exists (x :: pre), mid, post. split_and!; [done|by constructor|done|done|done].
Qed.

Lemma window_scan_fst (now : Z) (e : Q) (i : Z) (l : list Z) (acc : Z * Z) :
  fst acc <> (-1)%Z -> fst (window_scan now e i l acc) = fst acc.
Proof.
  revert i acc. induction l as [|t l IH]; intros i acc Ha; simpl; [done|].
  destruct (in_window now e t); rewrite IH; simpl; try done.
  all: by rewrite (proj2 (Z.eqb_neq _ _) Ha).
Qed.

Lemma window_scan_last (now : Z) (e : Q) (i : Z) (l : list Z) (t : Z) (acc : Z * Z) :
  in_window now e t = true ->
  snd (window_scan now e i (l ++ [t]) acc) = (i + Z.of_nat (length l))%Z.
Proof.
  intros Ht. rewrite window_scan_app. simpl. by rewrite Ht.
Qed.

Lemma window_scan_span (now : Z) (e : Q) (i : Z) (mid : list Z) :
  (0 <= i)%Z ->
  (exists t m, mid = t :: m /\ in_window now e t = true) ->
  (exists m t, mid = m ++ [t] /\ in_window now e t = true) ->
  window_scan now e i mid ((-1)%Z, (-1)%Z) = (i, (i + Z.of_nat (length mid) - 1)%Z).
Proof.
  intros Hi (t & m & Hmid & Ht) (m' & u & Hmid' & Hu).
  destruct (window_scan now e i mid ((-1)%Z, (-1)%Z)) as [f l] eqn:E.
  f_equal.
  - rewrite Hmid in E. simpl in E. rewrite Ht in E. simpl in E.
    change f with (fst (f, l)). rewrite <- E, window_scan_fst; simpl; lia.
  - change l with (snd (f, l)). rewrite <- E, Hmid', window_scan_last by done.
    rewrite length_app. simpl length. lia.
Qed.

(** When some instant lies in the window, a positive finite horizon keeps
    the index range from the first to the last such instant. *)
Lemma hours_ahead_span (now : Z) (ts : list Z) (params : Params) (H : Q)
    (pre mid post : list Z) :
  (0 < H)%Q -> ts = pre ++ mid ++ post ->
  Forall (fun t => in_window now (inject_Z now + H * 3600 * 1000)%Q t = false) pre ->
  Forall (fun t => in_window now (inject_Z now + H * 3600 * 1000)%Q t = false) post ->
  (exists t m, mid = t :: m /\ in_window now (inject_Z now + H * 3600 * 1000)%Q t = true) ->
  (exists m t, mid = m ++ [t] /\ in_window now (inject_Z now + H * 3600 * 1000)%Q t = true) ->
  fst (applyHoursAheadFilter now ts params (JSFinite H)) = mid.
Proof.
  set (e := (inject_Z now + H * 3600 * 1000)%Q).
  intros Hpos -> Hpre Hpost Hh Hl.
  assert (Hm : (1 <= length mid)%nat) by (destruct Hh as (t & m & -> & _); simpl; lia).
  unfold applyHoursAheadFilter. rewrite (Qle_bool_pos_false _ Hpos). fold e.
  rewrite window_scan_app, (window_scan_none _ _ _ pre) by done.
  rewrite window_scan_app, window_scan_span by (done || lia).
  rewrite (window_scan_none _ _ _ post) by done.
  rewrite (proj2 (Z.eqb_neq _ _)) by lia.
  rewrite (proj2 (Z.eqb_neq _ _)) by lia.
  rewrite (proj2 (Z.eqb_neq _ _)) by lia.
  rewrite (proj2 (Z.ltb_ge _ _)) by lia. cbn [orb fst].
  replace (Z.to_nat (0 + Z.of_nat (length pre))) with (length pre) by lia.
  replace (Z.to_nat (0 + Z.of_nat (length pre) + Z.of_nat (length mid) - 1 + 1))
    with (length pre + length mid)%nat by lia.
  unfold js_slice. replace (length pre + length mid - length pre)%nat with (length mid) by lia.
  by rewrite drop_app_length, take_app_length.
Qed.

(** C6 (as the code behaves): a non-finite horizon ([Infinity], [NaN]) returns
    the input unchanged.  With a positive finite horizon [H] the filter either
    returns its input unchanged or cuts ONE contiguous index range [[a, b)]
    out of the time axis and every parameter series alike.  When some instant
    lies in [[now, now + H h]], the range runs from the first to the last such
    instant, whatever lies between them; on a non-decreasing axis it is
    exactly the instants of the window.  When none does but some instant is at
    or after [now], a non-decreasing axis keeps the first [ceil H] of those
    instants. *)
Theorem hours_ahead_window (now : Z) (timeSteps : list Z) (params : Params)
    (hoursAhead : Q) :
  applyHoursAheadFilter now timeSteps params JSNonFinite = (timeSteps, params) /\
  ((0 < hoursAhead)%Q ->
   (applyHoursAheadFilter now timeSteps params (JSFinite hoursAhead) = (timeSteps, params) \/
    exists a b : nat,
      applyHoursAheadFilter now timeSteps params (JSFinite hoursAhead)
      = (js_slice timeSteps a b,
         (fun p => with_values p (js_slice (p_values p) a b)) <$> params)) /\
   (Exists (fun t => in_window now (inject_Z now + hoursAhead * 3600 * 1000)%Q t = true)
      timeSteps ->
    exists pre mid post,
      timeSteps = pre ++ mid ++ post /\
      fst (applyHoursAheadFilter now timeSteps params (JSFinite hoursAhead)) = mid /\
      Forall (fun t => in_window now (inject_Z now + hoursAhead * 3600 * 1000)%Q t = false)
        pre /\
      Forall (fun t => in_window now (inject_Z now + hoursAhead * 3600 * 1000)%Q t = false)
        post /\
      (exists t m, mid = t :: m /\
         in_window now (inject_Z now + hoursAhead * 3600 * 1000)%Q t = true) /\
      (exists m t, mid = m ++ [t] /\
         in_window now (inject_Z now + hoursAhead * 3600 * 1000)%Q t = true)) /\
   (Sorted Z.le timeSteps ->
    (Exists (fun t => in_window now (inject_Z now + hoursAhead * 3600 * 1000)%Q t = true)
       timeSteps ->
     fst (applyHoursAheadFilter now timeSteps params (JSFinite hoursAhead))
     = List.filter (in_window now (inject_Z now + hoursAhead * 3600 * 1000)%Q) timeSteps) /\
    (Forall (fun t => in_window now (inject_Z now + hoursAhead * 3600 * 1000)%Q t = false)
       timeSteps ->
     Exists (fun t => (now <= t)%Z) timeSteps ->
     fst (applyHoursAheadFilter now timeSteps params (JSFinite hoursAhead))
     = take (Z.to_nat (Qceiling hoursAhead)) (List.filter (fun t => Z.leb now t) timeSteps)))).
Proof.
  split; [reflexivity|]. intros Hpos. split_and!.
  - unfold applyHoursAheadFilter. rewrite (Qle_bool_pos_false _ Hpos).
    repeat case_match; first [left; reflexivity | right; eauto].
  - intros Hex.
    destruct (first_last_split _ _ Hex) as (pre & mid & post & E & Hpre & Hpost & Hh & Hl).
    exists pre, mid, post. split_and!; try done.
    by apply (hours_ahead_span now timeSteps params hoursAhead pre mid post).
  - intros Hs. split.
    + by apply hours_ahead_sorted_in.
    + by apply hours_ahead_sorted_none.
Qed.

Lemma hours_ahead_window_witness :
  applyHoursAheadFilter 0 hourly_axis sample_params JSNonFinite = (hourly_axis, sample_params) /\
  (0 < 2)%Q /\ Sorted Z.le hourly_axis /\
  Exists (fun t => in_window 0 (inject_Z 0 + 2 * 3600 * 1000)%Q t = true) hourly_axis /\
  fst (applyHoursAheadFilter 0 hourly_axis sample_params (JSFinite 2))
  = List.filter (in_window 0 (inject_Z 0 + 2 * 3600 * 1000)%Q) hourly_axis /\
  (0 < 3 # 2)%Q /\ Sorted Z.le sparse_axis /\
  Forall (fun t => in_window 0 (inject_Z 0 + (3 # 2) * 3600 * 1000)%Q t = false) sparse_axis /\
  Exists (fun t => (0 <= t)%Z) sparse_axis /\
  fst (applyHoursAheadFilter 0 sparse_axis sample_params (JSFinite (3 # 2)))
  = take (Z.to_nat (Qceiling (3 # 2))) (List.filter (fun t => Z.leb 0 t) sparse_axis) /\
  (0 < 3)%Q /\
  Exists (fun t => in_window 0 (inject_Z 0 + 3 * 3600 * 1000)%Q t = true)
    [3600000; 36000000; 7200000]%Z /\
  (exists pre mid post,
     [3600000; 36000000; 7200000]%Z = pre ++ mid ++ post /\
     fst (applyHoursAheadFilter 0 [3600000; 36000000; 7200000]%Z ∅ (JSFinite 3)) = mid /\
     Forall (fun t => in_window 0 (inject_Z 0 + 3 * 3600 * 1000)%Q t = false) pre /\
     Forall (fun t => in_window 0 (inject_Z 0 + 3 * 3600 * 1000)%Q t = false) post /\
     (exists t m, mid = t :: m /\ in_window 0 (inject_Z 0 + 3 * 3600 * 1000)%Q t = true) /\
     (exists m t, mid = m ++ [t] /\ in_window 0 (inject_Z 0 + 3 * 3600 * 1000)%Q t = true)) /\
  fst (applyHoursAheadFilter 0 [3600000; 36000000; 7200000]%Z (∅ : Params) (JSFinite 3))
  = [3600000; 36000000; 7200000]%Z.
Proof.
  assert (Hpos : (0 < 2)%Q) by reflexivity.
  assert (Hs : Sorted Z.le hourly_axis) by (repeat constructor; lia).
  assert (Hex : Exists (fun t => in_window 0 (inject_Z 0 + 2 * 3600 * 1000)%Q t = true)
                  hourly_axis) by (apply Exists_cons_hd; vm_compute; reflexivity).
  assert (Hpos' : (0 < 3 # 2)%Q) by reflexivity.
  assert (Hs' : Sorted Z.le sparse_axis) by (repeat constructor; lia).
  assert (Hout : Forall (fun t => in_window 0 (inject_Z 0 + (3 # 2) * 3600 * 1000)%Q t = false)
                   sparse_axis) by (repeat constructor).
  assert (Hfut : Exists (fun t => (0 <= t)%Z) sparse_axis)
    by (apply Exists_cons_hd; lia).
  assert (Hpos3 : (0 < 3)%Q) by reflexivity.
  assert (Hex3 : Exists (fun t => in_window 0 (inject_Z 0 + 3 * 3600 * 1000)%Q t = true)
                   [3600000; 36000000; 7200000]%Z)
    by (apply Exists_cons_hd; vm_compute; reflexivity).
  destruct (hours_ahead_window 0 hourly_axis sample_params 2) as [Hnf Hfin].
  destruct (Hfin Hpos) as (_ & _ & Hsorted).
  destruct (hours_ahead_window 0 sparse_axis sample_params (3 # 2)) as [_ Hfin'].
  destruct (Hfin' Hpos') as (_ & _ & Hsorted').
  destruct (Hsorted Hs) as [Hin _].
  destruct (Hsorted' Hs') as [_ Hnone].
  destruct (hours_ahead_window 0 [3600000; 36000000; 7200000]%Z ∅ 3) as [_ Hfin3].
  destruct (Hfin3 Hpos3) as (_ & Hspan & _).
  split_and!; [exact Hnf|exact Hpos|exact Hs|exact Hex|exact (Hin Hex)|exact Hpos'|exact Hs'
              |exact Hout|exact Hfut|exact (Hnone Hout Hfut)|exact Hpos3|exact Hex3
              |exact (Hspan Hex3)|vm_compute; reflexivity].
Defined.

(** C6 fails as stated: on an axis out of order, the instant 10 h ahead
    lies outside the 3 h window and is kept nonetheless, because the filter
    keeps the whole index range between the first and the last in-window
    instant. *)
Lemma hours_ahead_unsorted_slice :
  fst (applyHoursAheadFilter 0 [3600000; 36000000; 7200000]%Z (∅ : Params) (JSFinite 3))
  = [3600000; 36000000; 7200000]%Z /\
  List.filter (in_window 0 (inject_Z 0 + 3 * 3600 * 1000)%Q) [3600000; 36000000; 7200000]%Z
  = [3600000; 7200000]%Z.
Proof. split; vm_compute; reflexivity. Qed.

(* ======================================================================== *)
(** * Further properties of the node's code *)

(* ------------------------------------------------------------------------ *)
(** ** [applyOnlyFutureFilter] *)

Lemma first_future_at (now : Z) (ts : list Z) (k : nat) (t : Z) (i : Z) :
  ts !! k = Some t -> (now <= t)%Z -> Forall (fun u => (u < now)%Z) (take k ts) ->
  first_future now i ts = (i + Z.of_nat k)%Z.
Proof.
  revert k i. induction ts as [|u ts IH]; intros k i Hk Ht Hpre; [done|].
  destruct k as [|k]; simpl in *.
  - injection Hk as ->. destruct (Z.leb_spec now t); [lia|lia].
  - apply Forall_cons in Hpre as [Hu Hpre].
    destruct (Z.leb_spec now u); [lia|]. rewrite (IH k); [lia|done|done|done].
Qed.

Lemma fmap_with_values_id (params : Params) :
  (fun p => with_values p (p_values p)) <$> params = params.
Proof.
  apply map_eq. intros c. rewrite lookup_fmap. by destruct (params !! c) as [[]|].
Qed.

Lemma filter_split_sorted (now : Z) (ts : list Z) (k : nat) (t : Z) :
  StronglySorted Z.le ts -> ts !! k = Some t -> (now <= t)%Z ->
  Forall (fun u => (u < now)%Z) (take k ts) ->
  List.filter (fun u => Z.leb now u) ts = drop k ts.
Proof.
  revert k. induction ts as [|u ts IH]; intros k Hs Hk Ht Hpre; [done|].
  apply StronglySorted_inv in Hs as [Hs Hle].
  destruct k as [|k]; simpl in *.
  - injection Hk as ->. destruct (Z.leb_spec now t); [|lia]. f_equal.
    apply filter_all_true. eapply Forall_impl; [exact Hle|].
    intros x Hx. apply Z.leb_le. lia.
  - apply Forall_cons in Hpre as [Hu Hpre].
    destruct (Z.leb_spec now u); [lia|]. by apply (IH k).
Qed.

(** [applyOnlyFutureFilter] with [onlyFuture] on removes the instants before
    the first instant at or after [now], and the same number of leading values
    from every parameter series; when no instant is at or after [now] the
    time axis and every series become empty.  On a non-decreasing axis it
    keeps exactly the instants [>= now]. *)
Theorem only_future_cut (now : Z) (timeSteps : list Z) (params : Params) :
  (Forall (fun t => (t < now)%Z) timeSteps ->
   applyOnlyFutureFilter now timeSteps params true
   = ([], (fun p => with_values p []) <$> params)) /\
  (forall (k : nat) (t : Z),
     timeSteps !! k = Some t -> (now <= t)%Z ->
     Forall (fun u => (u < now)%Z) (take k timeSteps) ->
     applyOnlyFutureFilter now timeSteps params true
     = (drop k timeSteps, (fun p => with_values p (drop k (p_values p))) <$> params)) /\
  (Sorted Z.le timeSteps ->
   fst (applyOnlyFutureFilter now timeSteps params true)
   = List.filter (fun t => Z.leb now t) timeSteps).
Proof.
  assert (Hnone : Forall (fun t => (t < now)%Z) timeSteps ->
     applyOnlyFutureFilter now timeSteps params true
     = ([], (fun p => with_values p []) <$> params)).
  { intros Hp. unfold applyOnlyFutureFilter. simpl negb. cbv iota.
    by rewrite first_future_none. }
  assert (Hsome : forall (k : nat) (t : Z),
     timeSteps !! k = Some t -> (now <= t)%Z ->
     Forall (fun u => (u < now)%Z) (take k timeSteps) ->
     applyOnlyFutureFilter now timeSteps params true
     = (drop k timeSteps, (fun p => with_values p (drop k (p_values p))) <$> params)).
  { intros k t Hk Ht Hpre. unfold applyOnlyFutureFilter. simpl negb. cbv iota.
    rewrite (first_future_at now timeSteps k t 0 Hk Ht Hpre), Z.add_0_l.
    destruct k as [|k].
    - simpl. rewrite drop_0. f_equal. symmetry. apply fmap_with_values_id.
    - replace (Z.leb (Z.of_nat (S k)) 0) with false by (symmetry; apply Z.leb_gt; lia).
      by rewrite Nat2Z.id. }
  split_and!; [exact Hnone|exact Hsome|].
  intros Hs. apply Sorted_StronglySorted in Hs; [|intros ???; lia].
  destruct (decide (Forall (fun t => (t < now)%Z) timeSteps)) as [Hp|Hp].
  - rewrite (Hnone Hp). simpl. symmetry. apply filter_all_false.
    eapply Forall_impl; [exact Hp|]. intros t Ht. by apply Z.leb_gt.
  - apply not_Forall_Exists in Hp; [|intros t; apply _].
    apply Exists_exists in Hp as (t0 & Ht0 & Hn0).
    destruct (list_find (fun t => (now <= t)%Z) timeSteps) as [[k t]|] eqn:Ef.
    + apply list_find_Some in Ef as (Hk & Ht & Hbefore).
      assert (Hpre : Forall (fun u => (u < now)%Z) (take k timeSteps)).
      { apply Forall_lookup. intros j u Hj.
        rewrite lookup_take_Some in Hj. destruct Hj as [Hj Hjk].
        destruct (Z.lt_ge_cases u now); [done|]. exfalso. by eapply Hbefore. }
      rewrite (Hsome k t Hk Ht Hpre). simpl.
      symmetry. by apply (filter_split_sorted now timeSteps k t).
    + apply list_find_None in Ef. exfalso.
      rewrite Forall_forall in Ef. specialize (Ef t0 Ht0). simpl in Hn0. lia.
Qed.

(* ------------------------------------------------------------------------ *)
(** ** [applyHoursAheadFilter] and the two filters together *)

Lemma window_scan_bounds (now : Z) (e : Q) (i : Z) (ts : list Z) (acc : Z * Z) :
  (0 <= i)%Z ->
  ((fst acc = -1 /\ snd acc = -1) \/ (0 <= fst acc <= snd acc /\ snd acc < i))%Z ->
  ((fst (window_scan now e i ts acc) = -1 /\ snd (window_scan now e i ts acc) = -1) \/
   (0 <= fst (window_scan now e i ts acc) <= snd (window_scan now e i ts acc) /\
    snd (window_scan now e i ts acc) < i + Z.of_nat (length ts)))%Z.
Proof.
  revert i acc. induction ts as [|t ts IH]; intros i acc Hi Hacc; simpl.
  - destruct Hacc as [Hacc|Hacc]; [by left|right; lia].
  - replace (i + Z.of_nat (S (length ts)))%Z with (i + 1 + Z.of_nat (length ts))%Z by lia.
    apply IH; [lia|].
    destruct (in_window now e t); simpl; [|lia].
    right. destruct (Z.eqb_spec (fst acc) (-1)); lia.
Qed.

Lemma first_future_bounds (now i : Z) (ts : list Z) :
  (0 <= i)%Z ->
  first_future now i ts = (-1)%Z \/
  (i <= first_future now i ts < i + Z.of_nat (length ts))%Z.
Proof.
  revert i. induction ts as [|t ts IH]; intros i Hi; simpl; [by left|].
  destruct (Z.leb now t); [right; lia|].
  destruct (IH (i + 1)%Z) as [H|H]; [lia|by left|right; lia].
Qed.

Lemma list_infix_refl {A} (l : list A) : list_infix l l.
Proof. exists [], []. by rewrite app_nil_r. Qed.

Lemma list_infix_trans {A} (l1 l2 l3 : list A) :
  list_infix l1 l2 -> list_infix l2 l3 -> list_infix l1 l3.
Proof.
  intros (k1 & m1 & ->) (k2 & m2 & ->). exists (k2 ++ k1), (m1 ++ m2).
  by rewrite <- !app_assoc.
Qed.

Lemma list_infix_nil {A} (l : list A) : list_infix [] l.
Proof. exists l, []. by rewrite !app_nil_r. Qed.

Lemma list_infix_drop {A} (l : list A) (n : nat) : list_infix (drop n l) l.
Proof. exists (take n l), []. by rewrite app_nil_r, take_drop. Qed.

Lemma js_slice_infix {A} (l : list A) (a b : nat) : list_infix (js_slice l a b) l.
Proof.
  unfold js_slice. exists (take a l), (drop (b - a) (drop a l)).
  by rewrite !take_drop.
Qed.

Lemma length_js_slice {A} (l : list A) (a b : nat) :
  length (js_slice l a b) = Nat.min (b - a) (length l - a).
Proof. unfold js_slice. by rewrite length_take, length_drop. Qed.

Lemma params_pieces_fmap (params : Params) (f : list (option R) -> list (option R)) :
  (forall vs, list_infix (f vs) vs) ->
  params_pieces params ((fun p => with_values p (f (p_values p))) <$> params).
Proof.
  intros Hf c. rewrite lookup_fmap. destruct (params !! c) as [p|]; simpl; [|done].
  split_and!; [done|done|apply Hf].
Qed.

Lemma params_pieces_refl (params : Params) : params_pieces params params.
Proof. intros c. destruct (params !! c); [split_and!; [done|done|apply list_infix_refl]|done]. Qed.

Lemma params_pieces_trans (p1 p2 p3 : Params) :
  params_pieces p1 p2 -> params_pieces p2 p3 -> params_pieces p1 p3.
Proof.
  intros H12 H23 c. specialize (H12 c). specialize (H23 c).
  destruct (p1 !! c), (p2 !! c), (p3 !! c); try done.
  destruct H12 as (E1 & U1 & I1), H23 as (E2 & U2 & I2).
  split_and!; [congruence|congruence|by eapply list_infix_trans].
Qed.

Lemma series_aligned_fmap (ts ts' : list Z) (params : Params)
    (f : list (option R) -> list (option R)) :
  (forall vs, length vs = length ts -> length (f vs) = length ts') ->
  series_aligned ts params ->
  series_aligned ts' ((fun p => with_values p (f (p_values p))) <$> params).
Proof.
  intros Hf Hal. apply map_Forall_fmap. intros c p Hp. simpl. apply Hf. exact (Hal c p Hp).
Qed.

Lemma only_future_pieces (now : Z) (ts : list Z) (params : Params) (of : bool) :
  let r := applyOnlyFutureFilter now ts params of in
  list_infix (fst r) ts /\ params_pieces params (snd r) /\
  (series_aligned ts params -> series_aligned (fst r) (snd r)).
Proof.
  unfold applyOnlyFutureFilter. destruct of; simpl;
    [|split_and!; [apply list_infix_refl|apply params_pieces_refl|done]].
  destruct (Z.leb_spec (first_future now 0 ts) 0).
  - destruct (Z.eqb_spec (first_future now 0 ts) (-1)); simpl.
    + split_and!.
      * apply list_infix_nil.
      * apply (params_pieces_fmap params (fun _ => [])). intros vs. apply list_infix_nil.
      * intros _. apply map_Forall_fmap. by intros c p _.
    + split_and!; [apply list_infix_refl|apply params_pieces_refl|done].
  - simpl. split_and!.
    + apply list_infix_drop.
    + apply (params_pieces_fmap params (drop (Z.to_nat (first_future now 0 ts)))).
      intros vs. apply list_infix_drop.
    + apply (series_aligned_fmap ts _ params (drop (Z.to_nat (first_future now 0 ts)))).
      intros vs Hvs. by rewrite !length_drop, Hvs.
Qed.

Lemma hours_ahead_pieces (now : Z) (ts : list Z) (params : Params) (H : JSNumber) :
  let r := applyHoursAheadFilter now ts params H in
  list_infix (fst r) ts /\ params_pieces params (snd r) /\
  (series_aligned ts params -> series_aligned (fst r) (snd r)) /\
  (ts <> [] -> fst r <> []).
Proof.
  destruct H as [H|];
    [|simpl; split_and!; [apply list_infix_refl|apply params_pieces_refl|done|done]].
  unfold applyHoursAheadFilter.
  destruct (Qle_bool H 0); [simpl; split_and!; [apply list_infix_refl|apply params_pieces_refl|done|done]|].
  set (e := (inject_Z now + H * 3600 * 1000)%Q).
  pose proof (window_scan_bounds now e 0 ts ((-1)%Z, (-1)%Z)) as Hw.
  destruct (window_scan now e 0 ts ((-1)%Z, (-1)%Z)) as [f0 l0]. simpl in Hw.
  assert (Hw' : ((f0 = -1 /\ l0 = -1) \/ (0 <= f0 <= l0 /\ l0 < Z.of_nat (length ts)))%Z)
    by (destruct Hw; lia).
  clear Hw.
  pose proof (first_future_bounds now 0 ts) as Hff.
  assert (Hfirst : exists f l,
    (if Z.eqb f0 (-1) then
       if Z.eqb (first_future now 0 ts) (-1) then (first_future now 0 ts, l0)
       else (first_future now 0 ts,
             Z.min (Z.of_nat (length ts) - 1)
                   (first_future now 0 ts + Z.max 0 (Qceiling H) - 1))
     else (f0, l0)) = (f, l) /\
    (f = -1 \/ 0 <= f < Z.of_nat (length ts))%Z).
  { destruct (Z.eqb_spec f0 (-1)).
    - destruct (Z.eqb_spec (first_future now 0 ts) (-1)); eexists _, _; split; try reflexivity.
      + by left.
      + destruct Hff; lia.
    - eexists _, _; split; [reflexivity|]. lia. }
  destruct Hfirst as (f & l & -> & Hf).
  destruct (Z.eqb_spec f (-1)); simpl;
    [split_and!; [apply list_infix_refl|apply params_pieces_refl|done|done]|].
  destruct (Z.eqb_spec l (-1)); simpl;
    [split_and!; [apply list_infix_refl|apply params_pieces_refl|done|done]|].
  destruct (Z.ltb_spec l f); simpl;
    [split_and!; [apply list_infix_refl|apply params_pieces_refl|done|done]|].
  split_and!.
  - apply js_slice_infix.
  - apply (params_pieces_fmap params (fun vs => js_slice vs (Z.to_nat f) (Z.to_nat (l + 1)))).
    intros vs. apply js_slice_infix.
  - apply (series_aligned_fmap ts _ params
             (fun vs => js_slice vs (Z.to_nat f) (Z.to_nat (l + 1)))).
    intros vs Hvs. by rewrite !length_js_slice, Hvs.
  - intros _ Hnil. apply (f_equal length) in Hnil. rewrite length_js_slice in Hnil.
    simpl in Hnil. lia.
Qed.

(** The two time filters, applied as [runFetch] applies them (first
    [applyOnlyFutureFilter], then [applyHoursAheadFilter]), keep every
    parameter code, its code and unit fields, and cut from each series and
    from the time axis a contiguous piece; series that had one value per
    instant still do afterwards. *)
Theorem filters_keep_codes_and_alignment (now : Z) (timeSteps : list Z)
    (params : Params) (onlyFuture : bool) (hoursAhead : JSNumber) :
  let '(ts1, pa1) := applyOnlyFutureFilter now timeSteps params onlyFuture in
  let '(ts2, pa2) := applyHoursAheadFilter now ts1 pa1 hoursAhead in
  list_infix ts2 timeSteps /\ params_pieces params pa2 /\
  (series_aligned timeSteps params -> series_aligned ts2 pa2).
Proof.
  pose proof (only_future_pieces now timeSteps params onlyFuture) as (H1 & P1 & A1).
  destruct (applyOnlyFutureFilter now timeSteps params onlyFuture) as [ts1 pa1].
  simpl in H1, P1, A1.
  pose proof (hours_ahead_pieces now ts1 pa1 hoursAhead) as (H2 & P2 & A2 & _).
  destruct (applyHoursAheadFilter now ts1 pa1 hoursAhead) as [ts2 pa2].
  simpl in H2, P2, A2. split_and!.
  - by eapply list_infix_trans.
  - by eapply params_pieces_trans.
  - intros Hal. by apply A2, A1.
Qed.

(** [applyHoursAheadFilter] never turns a non-empty time axis into an empty
    one, whatever the clock and the horizon: it returns its input or a
    non-empty contiguous piece of it. *)
Theorem hours_ahead_never_empties (now : Z) (timeSteps : list Z) (params : Params)
    (hoursAhead : JSNumber) :
  timeSteps <> [] ->
  fst (applyHoursAheadFilter now timeSteps params hoursAhead) <> [] /\
  list_infix (fst (applyHoursAheadFilter now timeSteps params hoursAhead)) timeSteps.
Proof.
  intros Hne. pose proof (hours_ahead_pieces now timeSteps params hoursAhead)
    as (Hi & _ & _ & Hn). split; [by apply Hn|exact Hi].
Qed.

Lemma hours_ahead_never_empties_witness :
  sparse_axis <> [] /\
  fst (applyHoursAheadFilter 0 sparse_axis sample_params (JSFinite (3 # 2))) <> [].
Proof.
  assert (H : sparse_axis <> []) by discriminate.
  split; [exact H|].
  exact (proj1 (hours_ahead_never_empties 0 sparse_axis sample_params (JSFinite (3 # 2)) H)).
Defined.

(* ------------------------------------------------------------------------ *)
(** ** The message of a successful run *)

Lemma map_list_fmap {A B} (f : A -> B) (l : list A) : map f l = f <$> l.
Proof. induction l as [|x l IH]; simpl; [done|]. by rewrite IH. Qed.

Lemma str_le_total : forall a b, str_le a b \/ str_le b a.
Proof. intros a b. apply String.leb_total. Qed.

Lemma sorted_keys_spec (params : Params) :
  Sorted str_le (sorted_keys params) /\ NoDup (sorted_keys params) /\
  (forall c, c ∈ sorted_keys params <-> is_Some (params !! c)).
Proof.
  unfold sorted_keys. rewrite map_list_fmap. split_and!.
  - apply (@Sorted_merge_sort _ str_le _ str_le_total).
  - rewrite merge_sort_Permutation. apply NoDup_fst_map_to_list.
  - intros c. rewrite merge_sort_Permutation, list_elem_of_fmap. split.
    + intros ([c' p] & -> & Hin). apply elem_of_map_to_list in Hin. simpl. by exists p.
    + intros [p Hp]. exists (c, p). split; [done|]. by apply elem_of_map_to_list.
Qed.

Lemma params_pieces_dom (params params' : Params) (c : string) :
  params_pieces params params' -> (is_Some (params' !! c) <-> is_Some (params !! c)).
Proof.
  intros H. specialize (H c).
  destruct (params !! c), (params' !! c); try done; split; intros [? ?]; try done; eauto.
Qed.

(** A successful run sends exactly one message and reports no error.  Its
    station id is the station of the request, its [_meta] has the URL
    fetched, [stale = false], the number of records as [count] and the
    node's wind mode; [paramsAvailable] lists every code of the fetched
    parameter set once, in ascending order (the time filters drop no code).
    The cache slot ["lastGood"] then holds exactly these records and this
    [_meta]. *)
Theorem success_message_meta (nts : R -> string) (iso : Z -> string)
    (node : NodeCfg) (ctx : Ctx) (now : Z) (msg : Msg) (url : string)
    (timeSteps : list Z) (params : Params) (stationName : option string) :
  buildUrl (run_station node msg) (run_template node msg) = inr url ->
  let eff := runFetch nts iso node ctx now msg
                      (fun _ => FetchOk timeSteps params stationName) in
  exists out,
    eff_sent eff = [out] /\ eff_errors eff = [] /\ eff_thrown eff = None /\
    out_station_id out = run_station node msg /\
    meta_url (out_meta out) = url /\
    meta_stale (out_meta out) = false /\
    meta_count (out_meta out) = length (out_payload out) /\
    meta_windDirMode (out_meta out) = node_windDirMode node /\
    Sorted str_le (meta_paramsAvailable (out_meta out)) /\
    NoDup (meta_paramsAvailable (out_meta out)) /\
    (forall c, c ∈ meta_paramsAvailable (out_meta out) <-> is_Some (params !! c)) /\
    eff_ctx eff !! CTX_KEY
    = Some (mkEntry now (run_station node msg) (out_payload out) (out_meta out)).
Proof.
  intros Hurl. unfold runFetch. rewrite Hurl. cbv zeta.
  eexists. split_and!; [reflexivity|reflexivity|reflexivity|..].
  all: unfold run_success.
  all: pose proof (only_future_pieces now timeSteps params
         (match msg_onlyFuture msg with Some b => b | None => node_onlyFuture node end))
         as (_ & P1 & _).
  all: destruct (applyOnlyFutureFilter now timeSteps params _) as [ts1 pa1].
  all: pose proof (hours_ahead_pieces now ts1 pa1
         (match msg_hoursAhead msg with Some h => h | None => node_hoursAhead node end))
         as (_ & P2 & _ & _).
  all: destruct (applyHoursAheadFilter now ts1 pa1 _) as [ts2 pa2]; simpl in *.
  all: try reflexivity.
  - apply sorted_keys_spec.
  - apply sorted_keys_spec.
  - intros c. rewrite (proj2 (proj2 (sorted_keys_spec pa2))).
    apply params_pieces_dom. by eapply params_pieces_trans.
  - unfold saveLastGood. by rewrite lookup_insert.
Qed.

Lemma success_message_meta_witness :
  buildUrl (run_station node_H721 msg_empty) (run_template node_H721 msg_empty) = inr url_H721 /\
  exists out,
    eff_sent (runFetch (fun _ => ""%string) (fun _ => ""%string) node_H721 ∅ 0 msg_empty
                       (fun _ => FetchOk [0%Z] sample_params None)) = [out] /\
    meta_url (out_meta out) = url_H721 /\ meta_stale (out_meta out) = false.
Proof.
  assert (H : buildUrl (run_station node_H721 msg_empty) (run_template node_H721 msg_empty)
              = inr url_H721) by (vm_compute; reflexivity).
  split; [exact H|].
  destruct (success_message_meta (fun _ => ""%string) (fun _ => ""%string) node_H721 ∅ 0
              msg_empty url_H721 [0%Z] sample_params None H)
    as (out & E1 & _ & _ & _ & Eu & Es & _).
  exists out. split_and!; [exact E1|exact Eu|exact Es].
Defined.

(* ------------------------------------------------------------------------ *)
(** ** Wind directions outside [[0, 360)] and the unit conversions *)

Section RealProps.
Local Open Scope R_scope.

Lemma js_rem_spec (x y : R) :
  0 < y ->
  - y < js_rem x y < y /\ (0 <= x -> 0 <= js_rem x y) /\
  exists k : Z, x - js_rem x y = y * IZR k.
Proof.
  intros Hy. unfold js_rem, js_trunc.
  set (q := x / y).
  assert (Hx : x = y * q) by (unfold q; field; lra).
  destruct (Rle_dec 0 q) as [Hq|Hq].
  - destruct (base_Int_part q) as [H1 H2].
    assert (Hlo : 0 <= y * (q - IZR (Int_part q))) by (apply Rmult_le_pos; lra).
    assert (Hhi : y * (q - IZR (Int_part q)) < y * 1) by (apply Rmult_lt_compat_l; lra).
    split_and!; [nra|nra|intros _; nra|].
    exists (Int_part q). ring.
  - destruct (base_Int_part (- q)) as [H1 H2].
    rewrite opp_IZR.
    assert (Hlo : y * (q + IZR (Int_part (- q))) <= y * 0) by (apply Rmult_le_compat_l; lra).
    assert (Hhi : y * (-1) < y * (q + IZR (Int_part (- q)))) by (apply Rmult_lt_compat_l; lra).
    split_and!; [nra|nra|intros Hx0; exfalso; apply Hq; unfold q;
                 apply Rmult_le_pos; [lra|apply Rlt_le, Rinv_0_lt_compat; lra]|].
    exists (- Int_part (- q))%Z. rewrite opp_IZR. ring.
Qed.

Lemma norm_deg_spec (d : R) :
  0 <= js_rem (js_rem d 360 + 360) 360 < 360 /\
  exists k : Z, d - js_rem (js_rem d 360 + 360) 360 = 360 * IZR k.
Proof.
  destruct (js_rem_spec d 360) as (B1 & _ & k1 & K1); [lra|].
  destruct (js_rem_spec (js_rem d 360 + 360) 360) as (B2 & P2 & k2 & K2); [lra|].
  split; [split; [apply P2; lra|lra]|].
  exists (k1 + k2 - 1)%Z. rewrite minus_IZR, plus_IZR. simpl IZR. lra.
Qed.

Lemma norm_deg_unique (a b : R) (k : Z) :
  0 <= a < 360 -> 0 <= b < 360 -> a - b = 360 * IZR k -> a = b.
Proof.
  intros Ha Hb Hk.
  assert (Hk0 : k = 0%Z).
  { assert (IZR k < 1) by lra. assert (-1 < IZR k) by lra.
    apply lt_IZR in H. apply lt_IZR in H0. lia. }
  subst k. simpl in Hk. lra.
Qed.

Lemma js_round_nonneg (x : R) : 0 <= x -> (0 <= js_round x)%Z.
Proof.
  intros Hx. unfold js_round. destruct (base_Int_part (x + / 2)) as [_ H2].
  assert (Hgt : -1 < IZR (Int_part (x + / 2))) by lra.
  apply lt_IZR in Hgt. lia.
Qed.

Lemma js_round_bound (x : R) : x - / 2 < IZR (js_round x) <= x + / 2.
Proof. unfold js_round. destruct (base_Int_part (x + / 2)) as [H1 H2]. lra. Qed.

Lemma js_toFixed_bound (d : nat) (x : R) :
  Rabs (js_toFixed d x - x) <= / 2 * / 10 ^ d.
Proof.
  unfold js_toFixed.
  assert (Hp : 0 < 10 ^ d) by (apply pow_lt; lra).
  destruct (js_round_bound (x * 10 ^ d)) as [H1 H2].
  replace (IZR (js_round (x * 10 ^ d)) / 10 ^ d - x)
    with ((IZR (js_round (x * 10 ^ d)) - x * 10 ^ d) * / 10 ^ d) by (field; lra).
  rewrite Rabs_mult, (Rabs_right (/ 10 ^ d)) by (apply Rle_ge, Rlt_le, Rinv_0_lt_compat, Hp).
  apply Rmult_le_compat_r; [apply Rlt_le, Rinv_0_lt_compat, Hp|].
  apply Rabs_le. lra.
Qed.

Lemma dirToCardinal_label (d : R) (names : list string) (w : R) (n : Z) :
  0 < w -> (0 < n)%Z -> length names = Z.to_nat n ->
  exists c, names !! Z.to_nat (Z.rem (js_round (js_rem (js_rem d 360 + 360) 360 / w)) n)
            = Some c /\ c ∈ names.
Proof.
  intros Hw Hn Hlen.
  destruct (norm_deg_spec d) as [[H0 _] _].
  assert (Hr : (0 <= js_round (js_rem (js_rem d 360 + 360) 360 / w))%Z).
  { apply js_round_nonneg. apply Rmult_le_pos; [lra|]. apply Rlt_le, Rinv_0_lt_compat, Hw. }
  pose proof (Z.rem_bound_pos (js_round (js_rem (js_rem d 360 + 360) 360 / w)) n Hr Hn).
  destruct (lookup_lt_is_Some_2 names
              (Z.to_nat (Z.rem (js_round (js_rem (js_rem d 360 + 360) 360 / w)) n)))
    as [c Hc]; [lia|].
  exists c. split; [done|]. by eapply list_elem_of_lookup_2.
Qed.

(** [dirToCardinal] depends on a direction only modulo 360 degrees (so -90
    and 270 get the same label), and in the "8" and "16" modes it returns a
    label of its table for every present direction, never [null]. *)
Theorem dirToCardinal_mod_360 (d : R) (m : Z) (mode : string) :
  dirToCardinal (Some (d + 360 * IZR m)) mode = dirToCardinal (Some d) mode /\
  (exists c, dirToCardinal (Some d) "8" = Some c /\ c ∈ names8) /\
  (exists c, dirToCardinal (Some d) "16" = Some c /\ c ∈ names16).
Proof.
  split_and!.
  - unfold dirToCardinal.
    destruct (norm_deg_spec (d + 360 * IZR m)) as [B1 [k1 K1]].
    destruct (norm_deg_spec d) as [B2 [k2 K2]].
    rewrite (norm_deg_unique _ _ (m - k1 + k2)%Z B1 B2).
    + reflexivity.
    + rewrite plus_IZR, minus_IZR. lra.
  - apply (dirToCardinal_label d names8 45 8); [lra|lia|reflexivity].
  - apply (dirToCardinal_label d names16 22.5 16); [lra|lia|reflexivity].
Qed.

(** Each unit conversion of [normalizeRecords] is the exact conversion
    rounded as the code rounds it: temperature in degrees Celsius and wind
    speed in km/h within 0.005 of the exact value, pressure in hPa a whole
    number within 0.5, visibility in km within 0.05.  A conversion that is
    switched off passes the raw value through. *)
Theorem conversions_within_rounding (nts : R -> string) (iso : Z -> string)
    (timeSteps : list Z) (params : Params) (cfg : NormCfg) (i : nat)
    (r : ForecastRecord) :
  normalizeRecords nts iso timeSteps params cfg !! i = Some r ->
  (forall tk, getFirst params ["TTT"] i = Some tk ->
     exists t, r_temperature r = Some t /\
       (if cfg_toC cfg then Rabs (t - (tk - 273.15)) <= 0.005 else t = tk)) /\
  (forall ms, getFirst params ["FF"] i = Some ms ->
     exists w, r_windSpeed r = Some w /\
       (if cfg_windToKmh cfg then Rabs (w - ms * 3.6) <= 0.005 else w = ms)) /\
  (forall pa, getFirst params ["PPPP"] i = Some pa ->
     exists p, r_pressure r = Some p /\
       (if cfg_pressureToHpa cfg
        then (exists z : Z, p = IZR z) /\ Rabs (p - pa / 100) <= 0.5 else p = pa)) /\
  (forall vm, getFirst params ["VV"] i = Some vm ->
     exists v, r_visibility r = Some v /\
       (if cfg_visibilityToKm cfg then Rabs (v - vm / 1000) <= 0.05 else v = vm)).
Proof.
  intros Hr. destruct (normalizeRecords_lookup _ _ _ _ _ _ _ Hr) as (t & _ & ->).
  assert (Hcore : forall (P : ForecastRecord -> Prop),
            P (build_record nts iso params cfg i t) ->
            (forall x, P x -> P (core_project x)) ->
            P (if cfg_coreOnly cfg then core_project (build_record nts iso params cfg i t)
               else build_record nts iso params cfg i t))
    by (intros P H1 H2; destruct (cfg_coreOnly cfg); auto).
  split_and!.
  - intros tk Htk. apply (Hcore (fun x => exists t0, r_temperature x = Some t0 /\ _));
      [|intros x Hx; exact Hx].
    unfold build_record. cbv zeta. rewrite Htk.
    destruct (cfg_toC cfg); eexists; (split; [reflexivity|]); [|reflexivity].
    pose proof (js_toFixed_bound 2 (KtoC tk)) as B. unfold KtoC in *. simpl in B. lra.
  - intros ms Hms. apply (Hcore (fun x => exists t0, r_windSpeed x = Some t0 /\ _));
      [|intros x Hx; exact Hx].
    unfold build_record. cbv zeta. rewrite Hms.
    destruct (cfg_windToKmh cfg); eexists; (split; [reflexivity|]); [|reflexivity].
    pose proof (js_toFixed_bound 2 (toKmh ms)) as B. unfold toKmh in *. simpl in B. lra.
  - intros pa Hpa. apply (Hcore (fun x => exists t0, r_pressure x = Some t0 /\ _));
      [|intros x Hx; exact Hx].
    unfold build_record. cbv zeta. rewrite Hpa.
    destruct (cfg_pressureToHpa cfg); eexists; (split; [reflexivity|]); [|reflexivity].
    split; [eauto|].
    pose proof (js_round_bound (toHpa pa)) as B. unfold toHpa in *.
    apply Rabs_le. lra.
  - intros vm Hvm. apply (Hcore (fun x => exists t0, r_visibility x = Some t0 /\ _));
      [|intros x Hx; exact Hx].
    unfold build_record. cbv zeta. rewrite Hvm.
    destruct (cfg_visibilityToKm cfg); eexists; (split; [reflexivity|]); [|reflexivity].
    pose proof (js_toFixed_bound 1 (toKm vm)) as B. unfold toKm in *. simpl in B. lra.
Qed.

Lemma conversions_within_rounding_witness :
  normalizeRecords (fun _ => ""%string) (fun _ => ""%string) [0%Z] sample_params cfg_default
    !! 0%nat
  = Some (build_record (fun _ => ""%string) (fun _ => ""%string) sample_params cfg_default 0 0)
  /\ getFirst sample_params ["TTT"] 0 = Some 280%R /\
  exists t,
    r_temperature (build_record (fun _ => ""%string) (fun _ => ""%string)
                                sample_params cfg_default 0 0) = Some t /\
    Rabs (t - (280 - 273.15)) <= 0.005.
Proof.
  assert (Hr : normalizeRecords (fun _ => ""%string) (fun _ => ""%string) [0%Z] sample_params
                 cfg_default !! 0%nat
               = Some (build_record (fun _ => ""%string) (fun _ => ""%string)
                                    sample_params cfg_default 0 0)) by reflexivity.
  assert (Ht : getFirst sample_params ["TTT"] 0 = Some 280%R) by reflexivity.
  split; [exact Hr|]. split; [exact Ht|].
  destruct (conversions_within_rounding (fun _ => ""%string) (fun _ => ""%string) [0%Z]
              sample_params cfg_default 0 _ Hr) as [HT _].
  exact (HT _ Ht).
Defined.

End RealProps.

(* ------------------------------------------------------------------------ *)
(** ** Building the URL; a run without station *)

Lemma string_of_list_ascii_app (l1 l2 : list ascii) :
  string_of_list_ascii (l1 ++ l2) = (string_of_list_ascii l1 ++ string_of_list_ascii l2)%string.
Proof. induction l1 as [|c l1 IH]; simpl; [done|]. by rewrite IH. Qed.

(** A replacement without [$] is inserted as it is. *)
Lemma get_subst_no_dollar (m b a repl : list ascii) :
  Forall (fun c => c <> "$"%char) repl -> get_subst m b a repl = repl.
Proof.
  induction 1 as [|c r Hc _ IH]; [done|]. simpl.
  destruct (Ascii.eqb_spec c "$"); [done|]. by rewrite IH.
Qed.

Lemma replace_station_default (repl : list ascii) :
  (forall m b a, get_subst m b a repl = repl) ->
  replace_ci_go (list_ascii_of_string "{station}") repl []
                (list_ascii_of_string DEFAULT_URL_TEMPLATE) 0
  = list_ascii_of_string
      "https://opendata.dwd.de/weather/local_forecasts/mos/MOSMIX_L/single_stations/"
    ++ repl ++ list_ascii_of_string "/kml/MOSMIX_L_LATEST_" ++ repl
    ++ list_ascii_of_string ".kmz".
Proof. intros H. cbv -[get_subst]. rewrite !H. reflexivity. Qed.

Lemma Forall_drop_spaces (P : ascii -> Prop) (l : list ascii) :
  Forall P l -> Forall P (drop_spaces l).
Proof.
  induction 1 as [|c l Hc Hl IH]; simpl; [constructor|].
  destruct (is_js_space c); [exact IH|by constructor].
Qed.

Lemma Forall_rev_ascii (P : ascii -> Prop) (l : list ascii) :
  Forall P l -> Forall P (rev l).
Proof.
  intros H. apply List.Forall_forall. intros x Hx. apply in_rev in Hx.
  exact (proj1 (List.Forall_forall P l) H x Hx).
Qed.

Lemma ascii_upper_dollar (c : ascii) : c <> "$"%char -> ascii_upper c <> "$"%char.
Proof.
  intros Hc. unfold ascii_upper.
  destruct (Nat.leb 97 (nat_of_ascii c) && Nat.leb (nat_of_ascii c) 122) eqn:E; [|done].
  apply andb_prop in E as [E1 E2]. apply Nat.leb_le in E1, E2. pose proof (nat_ascii_bounded c).
  intros Heq. apply (f_equal nat_of_ascii) in Heq.
  rewrite nat_ascii_embedding in Heq by lia.
  assert (E36 : nat_of_ascii "$" = 36) by reflexivity. lia.
Qed.

Lemma station_no_dollar (station : string) :
  forallb (fun c => negb (Ascii.eqb c "$")) (list_ascii_of_string station) = true ->
  Forall (fun c => c <> "$"%char) (list_ascii_of_string (js_toUpperCase (js_trim station))).
Proof.
  intros H.
  assert (H0 : Forall (fun c => c <> "$"%char) (list_ascii_of_string station)).
  { apply List.Forall_forall. intros x Hx.
    pose proof (proj1 (forallb_forall _ _) H x Hx) as Hn. simpl in Hn.
    destruct (Ascii.eqb_spec x "$"); [discriminate|done]. }
  unfold js_toUpperCase, js_trim. rewrite !list_ascii_of_string_of_list_ascii.
  apply List.Forall_map. eapply List.Forall_impl; [exact ascii_upper_dollar|].
  apply Forall_rev_ascii, Forall_drop_spaces, Forall_rev_ascii, Forall_drop_spaces, H0.
Qed.

(** [buildUrl] rejects a station that is empty after trimming; otherwise,
    with no template or the default one, an ASCII station without [$] (the
    one character [replace] treats specially in a replacement: [$&] inserts
    the match ["{station}"] itself) appears trimmed and upper-cased in both
    places of the MOSMIX_L single station URL.  ASCII is where this string
    model meets JS: [trim] and [toUpperCase] also act on other characters. *)
Theorem buildUrl_default (station tpl : string) :
  (js_toUpperCase (js_trim station) = ""%string ->
   buildUrl station tpl = inl "runtime.errorStationMissing"%string) /\
  (js_toUpperCase (js_trim station) <> ""%string ->
   forallb (fun c => Nat.ltb (nat_of_ascii c) 128) (list_ascii_of_string station) = true ->
   forallb (fun c => negb (Ascii.eqb c "$")) (list_ascii_of_string station) = true ->
   tpl = ""%string \/ tpl = DEFAULT_URL_TEMPLATE ->
   buildUrl station tpl
   = inr ("https://opendata.dwd.de/weather/local_forecasts/mos/MOSMIX_L/single_stations/"
          ++ js_toUpperCase (js_trim station) ++ "/kml/MOSMIX_L_LATEST_"
          ++ js_toUpperCase (js_trim station) ++ ".kmz")%string).
Proof.
  unfold buildUrl. split.
  - intros ->. reflexivity.
  - intros Hne _ Hd Htpl.
    destruct (String.eqb_spec (js_toUpperCase (js_trim station)) ""); [done|].
    assert (Ht : str_or tpl DEFAULT_URL_TEMPLATE = DEFAULT_URL_TEMPLATE)
      by (destruct Htpl as [->| ->]; reflexivity).
    rewrite Ht. unfold replace_ci. rewrite replace_station_default.
    + rewrite !string_of_list_ascii_app, !string_of_list_ascii_of_string. reflexivity.
    + intros m b a. apply get_subst_no_dollar, station_no_dollar, Hd.
Qed.

Lemma buildUrl_default_witness :
  js_toUpperCase (js_trim " h721 ") <> ""%string /\
  forallb (fun c => Nat.ltb (nat_of_ascii c) 128) (list_ascii_of_string " h721 ") = true /\
  forallb (fun c => negb (Ascii.eqb c "$")) (list_ascii_of_string " h721 ") = true /\
  (""%string = ""%string \/ ""%string = DEFAULT_URL_TEMPLATE) /\
  buildUrl " h721 " ""
  = inr ("https://opendata.dwd.de/weather/local_forecasts/mos/MOSMIX_L/single_stations/"
         ++ "H721" ++ "/kml/MOSMIX_L_LATEST_" ++ "H721" ++ ".kmz")%string /\
  buildUrl "$&" "" <> inr ("https://opendata.dwd.de/weather/local_forecasts/mos/MOSMIX_L/single_stations/"
         ++ "$&" ++ "/kml/MOSMIX_L_LATEST_" ++ "$&" ++ ".kmz")%string.
Proof.
  assert (Hne : js_toUpperCase (js_trim " h721 ") <> ""%string) by (vm_compute; discriminate).
  assert (Ha : forallb (fun c => Nat.ltb (nat_of_ascii c) 128) (list_ascii_of_string " h721 ")
               = true) by reflexivity.
  assert (Hd : forallb (fun c => negb (Ascii.eqb c "$")) (list_ascii_of_string " h721 ")
               = true) by reflexivity.
  assert (Htpl : (""%string = ""%string \/ ""%string = DEFAULT_URL_TEMPLATE)) by (left; reflexivity).
  split; [exact Hne|]. split; [exact Ha|]. split; [exact Hd|]. split; [exact Htpl|].
  destruct (buildUrl_default " h721 " "") as [_ H].
  split; [rewrite (H Hne Ha Hd Htpl); reflexivity|].
  vm_compute. discriminate.
Defined.

(** When the station of a request (message, else node setting) is blank,
    [runFetch] throws before fetching: it sends nothing, not even stale data
    with stale fallback on, reports nothing through [node.error] and leaves
    the cache alone. *)
Theorem missing_station_throws (nts : R -> string) (iso : Z -> string)
    (node : NodeCfg) (ctx : Ctx) (now : Z) (msg : Msg)
    (fetchAndParse : string -> FetchOutcome) :
  js_toUpperCase (js_trim (run_station node msg)) = ""%string ->
  runFetch nts iso node ctx now msg fetchAndParse
  = mkEffects ctx [] [] (Some "runtime.errorStationMissing"%string).
Proof.
  intros H. unfold runFetch. unfold buildUrl. rewrite H. reflexivity.
Qed.

Lemma missing_station_throws_witness :
  js_toUpperCase (js_trim (run_station node_blank msg_empty)) = ""%string /\
  runFetch (fun _ => ""%string) (fun _ => ""%string) node_blank ctx_after_H721 0 msg_empty
           (fun _ => FetchFailed "HTTP 404")
  = mkEffects ctx_after_H721 [] [] (Some "runtime.errorStationMissing"%string).
Proof.
  assert (H : js_toUpperCase (js_trim (run_station node_blank msg_empty)) = ""%string)
    by (vm_compute; reflexivity).
  split; [exact H|]. apply missing_station_throws. exact H.
Defined.

(* ------------------------------------------------------------------------ *)
(** ** A failed run after a successful one *)

Lemma run_success_station (nts : R -> string) (iso : Z -> string)
    (node : NodeCfg) (now : Z) (msg : Msg) (station url : string)
    (timeSteps : list Z) (params : Params) (stationName : option string) :
  out_station_id (snd (run_success nts iso node now msg station url
                                   timeSteps params stationName)) = station.
Proof.
  unfold run_success.
  destruct (applyOnlyFutureFilter now timeSteps params _) as [ts1 pa1].
  destruct (applyHoursAheadFilter now ts1 pa1 _) as [ts2 pa2]. reflexivity.
Qed.

(** With stale fallback on, a failed run right after a successful one
    re-sends the successful run's records, station id and [_meta] (now with
    [stale = true]), but without station name: the name is [null] even when
    the successful run had one. *)
Theorem stale_replays_last_success (nts : R -> string) (iso : Z -> string)
    (node : NodeCfg) (ctx : Ctx) (now1 now2 : Z) (msg1 msg2 : Msg)
    (url1 url2 errMsg : string) (timeSteps : list Z) (params : Params)
    (stationName : option string) :
  node_staleOnError node = true ->
  buildUrl (run_station node msg1) (run_template node msg1) = inr url1 ->
  buildUrl (run_station node msg2) (run_template node msg2) = inr url2 ->
  let eff1 := runFetch nts iso node ctx now1 msg1
                       (fun _ => FetchOk timeSteps params stationName) in
  let eff2 := runFetch nts iso node (eff_ctx eff1) now2 msg2
                       (fun _ => FetchFailed errMsg) in
  exists out1 out2,
    eff_sent eff1 = [out1] /\ eff_sent eff2 = [out2] /\ eff_errors eff2 = [] /\
    eff_ctx eff2 = eff_ctx eff1 /\
    out_payload out2 = out_payload out1 /\
    out_station_id out2 = out_station_id out1 /\
    out_meta out2 = set_stale (out_meta out1) /\
    out_station_name out2 = None.
Proof.
  intros Hst Hu1 Hu2. cbv zeta. unfold runFetch. rewrite !Hu1. simpl.
  rewrite Hu2, Hst. unfold sendStaleIfAvailable, saveLastGood.
  rewrite lookup_insert_eq. simpl.
  eexists _, _. split_and!; try reflexivity.
  symmetry. apply run_success_station.
Qed.

Lemma stale_replays_last_success_witness :
  node_staleOnError node_H721 = true /\
  buildUrl (run_station node_H721 msg_empty) (run_template node_H721 msg_empty) = inr url_H721 /\
  buildUrl (run_station node_H721 msg_10637) (run_template node_H721 msg_10637)
    = inr (replace_ci DEFAULT_URL_TEMPLATE "{station}" "10637") /\
  map out_station_name
      (eff_sent (runFetch (fun _ => ""%string) (fun _ => ""%string) node_H721
                   ∅ 0 msg_empty (fun _ => FetchOk [] ∅ (Some "KOELN/BONN"%string))))
    = [Some "KOELN/BONN"%string] /\
  exists out1 out2,
    eff_sent (runFetch (fun _ => ""%string) (fun _ => ""%string) node_H721
                   ∅ 0 msg_empty (fun _ => FetchOk [] ∅ (Some "KOELN/BONN"%string)))
      = [out1] /\
    out_station_name out2 = None /\ out_station_id out2 = out_station_id out1.
Proof.
  assert (H1 : node_staleOnError node_H721 = true) by reflexivity.
  assert (H2 : buildUrl (run_station node_H721 msg_empty) (run_template node_H721 msg_empty)
               = inr url_H721) by (vm_compute; reflexivity).
  assert (H3 : buildUrl (run_station node_H721 msg_10637) (run_template node_H721 msg_10637)
               = inr (replace_ci DEFAULT_URL_TEMPLATE "{station}" "10637"))
    by (vm_compute; reflexivity).
  split; [exact H1|]. split; [exact H2|]. split; [exact H3|].
  split; [vm_compute; reflexivity|].
  destruct (stale_replays_last_success (fun _ => ""%string) (fun _ => ""%string) node_H721
              ∅ 0 1 msg_empty msg_10637 url_H721
              (replace_ci DEFAULT_URL_TEMPLATE "{station}" "10637") "HTTP 404"
              [] ∅ (Some "KOELN/BONN"%string) H1 H2 H3)
    as (out1 & out2 & E1 & _ & _ & _ & _ & Eid & _ & Ename).
  exists out1, out2. split_and!; [exact E1|exact Ename|exact Eid].
Defined.

(* ------------------------------------------------------------------------ *)
(** ** Lookups by code in [normalizeRecords] *)

(** [getFirst] moves on to the next code only when a series has no entry at
    the index, not when the entry is [null]: a [null] in [RR1c] gives no
    precipitation (and no text) even when [RR1o1] has a value, and a [null]
    in [Neff] gives no cloud cover even when [neff] has one. *)
Theorem null_entry_hides_next_code (nts : R -> string) (iso : Z -> string)
    (timeSteps : list Z) (params : Params) (cfg : NormCfg) (i : nat)
    (r : ForecastRecord) :
  normalizeRecords nts iso timeSteps params cfg !! i = Some r ->
  (forall p, params !! "RR1c"%string = Some p -> p_values p !! i = Some None ->
     r_precipitation r = None /\ r_precipitationText r = None) /\
  (forall p, params !! "Neff"%string = Some p -> p_values p !! i = Some None ->
     r_cloudCover r = None) /\
  ((forall p, params !! "RR1c"%string = Some p -> length (p_values p) <= i) ->
     r_precipitation r = getFirst params ["RR1o1"] i).
Proof.
  intros Hr. destruct (normalizeRecords_lookup _ _ _ _ _ _ _ Hr) as (t & _ & ->).
  split_and!.
  - intros p Hp Hi. destruct (cfg_coreOnly cfg); simpl;
      unfold getFirst; rewrite Hp, Hi; split; reflexivity.
  - intros p Hp Hi. destruct (cfg_coreOnly cfg); simpl;
      unfold getFirst; rewrite Hp, Hi; reflexivity.
  - intros Hlen.
    assert (Hg : getFirst params ["RR1c"; "RR1o1"] i = getFirst params ["RR1o1"] i).
    { simpl. destruct (params !! "RR1c"%string) as [p|] eqn:Hp; [|reflexivity].
      rewrite (proj2 (lookup_ge_None _ _) (Hlen p eq_refl)). reflexivity. }
    destruct (cfg_coreOnly cfg); simpl; exact Hg.
Qed.

Lemma null_entry_hides_next_code_witness :
  params_null_first !! "RR1c"%string = Some (mkParam "RR1c" None [None]) /\
  p_values (mkParam "RR1c" None [None]) !! 0%nat = Some None /\
  getFirst params_null_first ["RR1o1"] 0 = Some 2%R /\
  option_map r_precipitation
    (normalizeRecords (fun _ => ""%string) (fun _ => ""%string) [0%Z]
                      params_null_first cfg_default !! 0%nat) = Some None.
Proof.
  assert (H1 : params_null_first !! "RR1c"%string = Some (mkParam "RR1c" None [None]))
    by reflexivity.
  assert (H2 : p_values (mkParam "RR1c" None [None]) !! 0%nat = Some None) by reflexivity.
  split; [exact H1|]. split; [exact H2|]. split; [reflexivity|].
  destruct (null_entry_hides_next_code (fun _ => ""%string) (fun _ => ""%string) [0%Z]
              params_null_first cfg_default 0
              (build_record (fun _ => ""%string) (fun _ => ""%string)
                            params_null_first cfg_default 0 0) eq_refl)
    as [Hp _].
  destruct (Hp _ H1 H2) as [E _].
  change (Some (r_precipitation (build_record (fun _ => ""%string) (fun _ => ""%string)
                                  params_null_first cfg_default 0 0)) = Some None).
  by rewrite E.
Defined.

(** A wind mode other than "", "deg", "8" and "16" (a typo such as "32")
    still adds the [windDirCardinal] key to every record, with value
    [null]. *)
Theorem unknown_wind_mode_null (nts : R -> string) (iso : Z -> string)
    (timeSteps : list Z) (params : Params) (cfg : NormCfg) (i : nat)
    (r : ForecastRecord) :
  cfg_windDirMode cfg <> ""%string -> cfg_windDirMode cfg <> "deg"%string ->
  cfg_windDirMode cfg <> "8"%string -> cfg_windDirMode cfg <> "16"%string ->
  normalizeRecords nts iso timeSteps params cfg !! i = Some r ->
  r_windDirCardinal r = Some None.
Proof.
  intros H0 H1 H8 H16 Hr.
  destruct (normalizeRecords_lookup _ _ _ _ _ _ _ Hr) as (t & _ & ->).
  assert (Ha : windDirMode_active (cfg_windDirMode cfg) = true).
  { unfold windDirMode_active.
    destruct (String.eqb_spec (cfg_windDirMode cfg) ""); [done|].
    destruct (String.eqb_spec (cfg_windDirMode cfg) "deg"); done. }
  assert (Hd : forall w, dirToCardinal w (cfg_windDirMode cfg) = None).
  { intros [d|]; [|done]. unfold dirToCardinal.
    destruct (String.eqb_spec (cfg_windDirMode cfg) "8"); [done|].
    destruct (String.eqb_spec (cfg_windDirMode cfg) "16"); done. }
  destruct (cfg_coreOnly cfg); simpl; rewrite Ha, Hd; reflexivity.
Qed.

Lemma unknown_wind_mode_null_witness :
  cfg_windDirMode cfg_mode32 <> ""%string /\ cfg_windDirMode cfg_mode32 <> "deg"%string /\
  cfg_windDirMode cfg_mode32 <> "8"%string /\ cfg_windDirMode cfg_mode32 <> "16"%string /\
  option_map r_windDirCardinal
    (normalizeRecords (fun _ => ""%string) (fun _ => ""%string) [0%Z]
                      sample_params cfg_mode32 !! 0%nat) = Some (Some None).
Proof.
  assert (H0 : cfg_windDirMode cfg_mode32 <> ""%string) by discriminate.
  assert (H1 : cfg_windDirMode cfg_mode32 <> "deg"%string) by discriminate.
  assert (H8 : cfg_windDirMode cfg_mode32 <> "8"%string) by discriminate.
  assert (H16 : cfg_windDirMode cfg_mode32 <> "16"%string) by discriminate.
  split_and!; [exact H0|exact H1|exact H8|exact H16|].
  change (Some (r_windDirCardinal (build_record (fun _ => ""%string) (fun _ => ""%string)
                                      sample_params cfg_mode32 0 0)) = Some (Some None)).
  rewrite (unknown_wind_mode_null (fun _ => ""%string) (fun _ => ""%string) [0%Z]
             sample_params cfg_mode32 0 _ H0 H1 H8 H16 eq_refl).
  reflexivity.
Defined.

(* ------------------------------------------------------------------------ *)
(** ** The retry loop of [fetchAndParseMosmix] *)

Lemma retry_three_failures {A} (body : nat -> A + string) (e0 e1 e2 : string) :
  body 0 = inr e0 -> body 1 = inr e1 -> body 2 = inr e2 ->
  fetch_retry body = (inr e2, [0; 1; 2], 2000%Z).
Proof. intros H0 H1 H2. unfold fetch_retry. simpl. by rewrite H0, H1, H2. Qed.

(** [fetchAndParseMosmix] makes at most three attempts: it returns the
    result of the first attempt that succeeds, after one 1000 ms pause per
    failed attempt before it, and when all three fail it throws the third
    attempt's error (never its "Unbekannter Fehler" fallback), having paused
    twice. *)
Theorem fetch_retry_spec {A} (body : nat -> A + string) :
  (forall k v, (k < 3)%nat -> body k = inl v ->
     (forall j, (j < k)%nat -> exists e, body j = inr e) ->
     fetch_retry body = (inl v, seq 0 (S k), (1000 * Z.of_nat k)%Z)) /\
  (forall e0 e1 e2, body 0 = inr e0 -> body 1 = inr e1 -> body 2 = inr e2 ->
     fetch_retry body = (inr e2, [0; 1; 2], 2000%Z)).
Proof.
  split; [|apply retry_three_failures].
  intros k v Hk Hv Hbefore. unfold fetch_retry.
  destruct k as [|[|[|k]]]; [| | |lia]; simpl.
  - by rewrite Hv.
  - destruct (Hbefore 0 ltac:(lia)) as [e0 ->]. by rewrite Hv.
  - destruct (Hbefore 0 ltac:(lia)) as [e0 ->].
    destruct (Hbefore 1 ltac:(lia)) as [e1 ->]. by rewrite Hv.
Qed.

Lemma fetch_retry_spec_witness :
  fetch_retry (fun k : nat => if Nat.eqb k 2 then inl 7%Z else inr "HTTP 503"%string)
  = (inl 7%Z, [0; 1; 2], 2000%Z) /\
  fetch_retry (fun k : nat => @inr Z string (if Nat.eqb k 2 then "HTTP 404" else "HTTP 503"))
  = (inr "HTTP 404"%string, [0; 1; 2], 2000%Z).
Proof.
  destruct (fetch_retry_spec (fun k : nat => if Nat.eqb k 2 then inl 7%Z else inr "HTTP 503"%string))
    as [Hok _].
  destruct (fetch_retry_spec (fun k : nat => @inr Z string (if Nat.eqb k 2 then "HTTP 404" else "HTTP 503")))
    as [_ Hfail].
  split.
  - apply (Hok 2 7%Z); [lia|reflexivity|].
    intros j Hj. exists "HTTP 503"%string. destruct j as [|[|j]]; [reflexivity|reflexivity|lia].
  - by apply (Hfail "HTTP 503" "HTTP 503" "HTTP 404").
Defined.

(** When all three download attempts fail and no stale data is served
    (stale fallback off, or nothing cached), [runFetch] reports exactly the
    third attempt's error through [node.error], sends nothing, throws nothing
    and leaves the cache alone. *)
Theorem failed_fetch_reports_last_attempt (nts : R -> string) (iso : Z -> string)
    (node : NodeCfg) (ctx : Ctx) (now : Z) (msg : Msg) (url : string)
    (body : string -> nat -> (list Z * Params * option string) + string)
    (e0 e1 e2 : string) :
  buildUrl (run_station node msg) (run_template node msg) = inr url ->
  body url 0 = inr e0 -> body url 1 = inr e1 -> body url 2 = inr e2 ->
  node_staleOnError node = false \/ ctx !! CTX_KEY = None ->
  runFetch nts iso node ctx now msg
           (fun u => mosmix_outcome (fst (fst (fetch_retry (body u)))))
  = mkEffects ctx [] [e2] None.
Proof.
  intros Hu H0 H1 H2 Hstale. unfold runFetch. rewrite Hu. cbv zeta.
  rewrite (retry_three_failures (body url) e0 e1 e2 H0 H1 H2). simpl.
  destruct Hstale as [-> | Hc]; [reflexivity|].
  destruct (node_staleOnError node); [|reflexivity].
  unfold sendStaleIfAvailable. by rewrite Hc.
Qed.

Lemma failed_fetch_reports_last_attempt_witness :
  buildUrl (run_station node_H721 msg_empty) (run_template node_H721 msg_empty) = inr url_H721 /\
  runFetch (fun _ => ""%string) (fun _ => ""%string) node_H721 ∅ 0 msg_empty
           (fun u => mosmix_outcome (fst (fst (fetch_retry
              (fun k : nat => @inr (list Z * Params * option string) string
                                (if Nat.eqb k 2 then "HTTP 404" else "HTTP 503"))))))
  = mkEffects ∅ [] ["HTTP 404"%string] None.
Proof.
  assert (Hu : buildUrl (run_station node_H721 msg_empty) (run_template node_H721 msg_empty)
               = inr url_H721) by (vm_compute; reflexivity).
  split; [exact Hu|].
  apply (failed_fetch_reports_last_attempt (fun _ => ""%string) (fun _ => ""%string)
           node_H721 ∅ 0 msg_empty url_H721
           (fun _ (k : nat) => @inr (list Z * Params * option string) string
                                 (if Nat.eqb k 2 then "HTTP 404" else "HTTP 503"))
           "HTTP 503" "HTTP 503" "HTTP 404"); try reflexivity.
  right. reflexivity.
Defined.

(* ------------------------------------------------------------------------ *)
(** ** The time axis and the series at the end of [fetchAndParseMosmix] *)

Lemma align_values_lookup (n j : nat) (vs : list (option R)) :
  (j < n)%nat ->
  align_values n vs !! j = Some (match vs !! j with Some v => v | None => None end).
Proof.
  intros Hj. destruct (align_values_spec n vs) as (Hlen & Hshort & Hlong).
  destruct (Nat.le_gt_cases (length vs) n) as [Hle|Hgt].
  - destruct (Hshort Hle) as [Ht Hd].
    rewrite <- (take_drop (length vs) (align_values n vs)), Ht, Hd.
    destruct (Nat.lt_ge_cases j (length vs)) as [Hjl|Hjl].
    + rewrite lookup_app_l by lia.
      destruct (lookup_lt_is_Some_2 vs j Hjl) as [x ->]. reflexivity.
    + rewrite lookup_app_r by lia. rewrite lookup_replicate_2 by lia.
      by rewrite (lookup_ge_None_2 vs j Hjl).
  - rewrite Hlong by lia. rewrite lookup_take_lt by lia.
    destruct (lookup_lt_is_Some_2 vs j ltac:(lia)) as [x ->]. reflexivity.
Qed.

(** The instants are the time strings that parse, in document order, with
    the others dropped; an empty result throws "ForecastTimeSteps leer".
    Every series is cut or padded with [null] to the number of instants,
    but its values keep their document positions: the [j]-th instant gets
    each series' [j]-th value (or [null]), so a time string that fails to
    parse pairs the later values with the wrong instants. *)
Theorem mosmix_result_pairs_by_position (parse : string -> option Z)
    (tsStrings : list string) (params : Params) (stationName : option string) :
  (omap parse tsStrings = [] ->
   mosmix_result parse tsStrings params stationName = inr "ForecastTimeSteps leer"%string) /\
  (forall timeSteps params' stationName',
     mosmix_result parse tsStrings params stationName
       = inl (timeSteps, params', stationName') ->
     timeSteps = omap parse tsStrings /\ timeSteps <> [] /\
     stationName' = stationName /\ series_aligned timeSteps params' /\
     forall c p j, params !! c = Some p -> (j < length timeSteps)%nat ->
       exists q, params' !! c = Some q /\ p_code q = p_code p /\ p_unit q = p_unit p /\
         p_values q !! j = Some (match p_values p !! j with Some v => v | None => None end)).
Proof.
  unfold mosmix_result. split.
  - intros ->. reflexivity.
  - intros timeSteps params' stationName' H.
    destruct (omap parse tsStrings) as [|t ts] eqn:E; [discriminate|].
    injection H as <- <- <-. split_and!; [done|done|done| |].
    + intros c q Hq. unfold align_params in Hq. rewrite lookup_fmap in Hq.
      destruct (params !! c) as [p|]; [|discriminate]. injection Hq as <-.
      apply align_values_spec.
    + intros c p j Hp Hj. unfold align_params. rewrite lookup_fmap, Hp. simpl.
      eexists. split_and!; [reflexivity|reflexivity|reflexivity|].
      by apply align_values_lookup.
Qed.

(** Three time strings, the middle one unparsable, and a three-value
    temperature series. *)
Lemma mosmix_result_pairs_by_position_witness :
  mosmix_result (fun s => if String.eqb s "a" then Some 1%Z
                          else if String.eqb s "b" then Some 3%Z else None)
                ["a"; "x"; "b"]%string
                {[ "TTT" := mkParam "TTT" None [Some 280%R; Some 281%R; Some 282%R] ]} None
  = inl ([1; 3]%Z,
         {[ "TTT" := mkParam "TTT" None [Some 280%R; Some 281%R] ]}, None) /\
  exists q,
    ({[ "TTT" := mkParam "TTT" None [Some 280%R; Some 281%R] ]} : Params) !! "TTT"%string
      = Some q /\ p_values q !! 1%nat = Some (Some 281%R).
Proof.
  assert (Hr : mosmix_result (fun s => if String.eqb s "a" then Some 1%Z
                                       else if String.eqb s "b" then Some 3%Z else None)
                ["a"; "x"; "b"]%string
                {[ "TTT" := mkParam "TTT" None [Some 280%R; Some 281%R; Some 282%R] ]} None
               = inl ([1; 3]%Z,
                      {[ "TTT" := mkParam "TTT" None [Some 280%R; Some 281%R] ]}, None)).
  { unfold mosmix_result. simpl. unfold align_params. rewrite map_fmap_singleton.
    reflexivity. }
  split; [exact Hr|].
  destruct (mosmix_result_pairs_by_position
              (fun s => if String.eqb s "a" then Some 1%Z
                        else if String.eqb s "b" then Some 3%Z else None)
              ["a"; "x"; "b"]%string
              {[ "TTT" := mkParam "TTT" None [Some 280%R; Some 281%R; Some 282%R] ]} None)
    as [_ H].
  destruct (H _ _ _ Hr) as (_ & _ & _ & _ & Hpos).
  destruct (Hpos "TTT"%string (mkParam "TTT" None [Some 280%R; Some 281%R; Some 282%R]) 1%nat
              ltac:(reflexivity) ltac:(simpl; lia)) as (q & Hq & _ & _ & Hv).
  exists q. split; [exact Hq|exact Hv].
Defined.

(* ------------------------------------------------------------------------ *)
(** ** The time-string collectors on the parsed KML tree *)

(** Induction on trees, with the hypothesis also for the elements of a
    field's value ([asArray]). *)
Lemma JVal_ind2 (P : JVal -> Prop) :
  (forall s, P (JStr s)) ->
  (forall l, Forall P l -> P (JArr l)) ->
  (forall fields, Forall (fun kv => P kv.2 /\ Forall P (asArray kv.2)) fields ->
     P (JObj fields)) ->
  forall v, P v.
Proof.
  intros Hs Ha Ho. fix IH 1. intros [s|l|fields].
  - apply Hs.
  - apply Ha. revert l. fix IHl 1. intros [|v l]; constructor; [apply IH|apply IHl].
  - apply Ho. revert fields. fix IHf 1. intros [|[k w] fields]; constructor; [|apply IHf].
    simpl. split; [apply IH|].
    refine (match w as w0 return (P w0 -> Forall P (asArray w0)) with
            | JStr s => fun H => List.Forall_cons _ _ _ H (List.Forall_nil _)
            | JArr vs => fun _ =>
                (fix IHv (vs : list JVal) : Forall P vs :=
                   match vs with
                   | [] => List.Forall_nil _
                   | v :: vs' => List.Forall_cons _ _ _ (IH v) (IHv vs')
                   end) vs
            | JObj fs => fun H => List.Forall_cons _ _ _ H (List.Forall_nil _)
            end (IH w)).
Qed.

Lemma fold_left_acc {A} (f : list string -> A -> list string) (l : list A)
    (hits : list string) :
  Forall (fun a => forall h, f h a = h ++ f [] a) l ->
  fold_left f l hits = hits ++ fold_left f l [].
Proof.
  intros Hl. revert hits. induction Hl as [|a l Ha Hl IH]; intros hits; simpl.
  - by rewrite app_nil_r.
  - rewrite (IH (f hits a)), (IH (f [] a)), (Ha hits). by rewrite app_assoc.
Qed.

Lemma fold_left_sound {A} (f : list string -> A -> list string) (S : A -> list string)
    (l : list A) (hits : list string) :
  Forall (fun a => forall h s, In s (f h a) -> In s h \/ In s (S a)) l ->
  forall s, In s (fold_left f l hits) -> In s hits \/ In s (flat_map S l).
Proof.
  intros Hl. revert hits. induction Hl as [|a l Ha Hl IH]; intros hits s Hs; simpl in *.
  - by left.
  - destruct (IH _ _ Hs) as [H|H].
    + destruct (Ha _ _ H) as [H'|H']; [by left|]. right. apply in_app_iff. by left.
    + right. apply in_app_iff. by right.
Qed.

Lemma jprop_str_in (v : JVal) (k s : string) :
  jprop_str v k = Some s -> In s (jstrings v).
Proof.
  destruct v as [|l|fields]; unfold jprop_str; simpl; [done|done|].
  induction fields as [|[k' w] fields IH]; simpl; [done|].
  destruct (String.eqb k' k).
  - destruct w; intros H; [|done|done]. injection H as ->. apply in_app_iff. left. by left.
  - intros H. apply in_app_iff. right. by apply IH.
Qed.

Lemma ts_leaf_acc (v : JVal) :
  (forall h, collectTimeStepStrings v h = h ++ collectTimeStepStrings v []) ->
  forall h, ts_leaf collectTimeStepStrings v h = h ++ ts_leaf collectTimeStepStrings v [].
Proof.
  intros IH h. unfold ts_leaf.
  destruct v; [done| |];
    (destruct (jprop_str _ "_"); [done|]); (destruct (jprop_str _ "value"); [done|]);
    apply IH.
Qed.

Lemma ts_leaf_sound (v : JVal) :
  (forall h s, In s (collectTimeStepStrings v h) -> In s h \/ In s (jstrings v)) ->
  forall h s, In s (ts_leaf collectTimeStepStrings v h) -> In s h \/ In s (jstrings v).
Proof.
  intros IH h s. unfold ts_leaf.
  assert (Hpush : forall s', In s' (jstrings v) -> In s (h ++ [s']) ->
                             In s h \/ In s (jstrings v)).
  { intros s' Hs' Hin. apply in_app_iff in Hin as [Hin|[<-|[]]]; [by left|by right]. }
  destruct v as [s0| |].
  - apply Hpush. simpl. by left.
  - destruct (jprop_str _ "_") eqn:E1; [apply Hpush; by eapply jprop_str_in|].
    destruct (jprop_str _ "value") eqn:E2; [apply Hpush; by eapply jprop_str_in|].
    apply IH.
  - destruct (jprop_str _ "_") eqn:E1; [apply Hpush; by eapply jprop_str_in|].
    destruct (jprop_str _ "value") eqn:E2; [apply Hpush; by eapply jprop_str_in|].
    apply IH.
Qed.

Lemma when_leaf_acc (w : JVal) (h : list string) : when_leaf w h = h ++ when_leaf w [].
Proof.
  unfold when_leaf. destruct w; [done| |];
    (destruct (jprop_str _ "_"); [done|]); (destruct (jprop_str _ "value"); [done|]);
    by rewrite app_nil_r.
Qed.

Lemma when_leaf_sound (w : JVal) (h : list string) (s : string) :
  In s (when_leaf w h) -> In s h \/ In s (jstrings w).
Proof.
  unfold when_leaf.
  assert (Hpush : forall s', In s' (jstrings w) -> In s (h ++ [s']) ->
                             In s h \/ In s (jstrings w)).
  { intros s' Hs' Hin. apply in_app_iff in Hin as [Hin|[<-|[]]]; [by left|by right]. }
  destruct w as [s0| |].
  - apply Hpush. simpl. by left.
  - destruct (jprop_str _ "_") eqn:E1; [apply Hpush; by eapply jprop_str_in|].
    destruct (jprop_str _ "value") eqn:E2; [apply Hpush; by eapply jprop_str_in|].
    by left.
  - destruct (jprop_str _ "_") eqn:E1; [apply Hpush; by eapply jprop_str_in|].
    destruct (jprop_str _ "value") eqn:E2; [apply Hpush; by eapply jprop_str_in|].
    by left.
Qed.

Lemma jprop_in (v w : JVal) (k : string) (s : string) :
  jprop v k = Some w -> In s (jstrings w) -> In s (jstrings v).
Proof.
  destruct v as [|l|fields]; simpl; [done|done|].
  induction fields as [|[k' w'] fields IH]; simpl; [done|].
  destruct (String.eqb k' k).
  - intros H Hs. injection H as ->. apply in_app_iff. by left.
  - intros H Hs. apply in_app_iff. right. by apply IH.
Qed.

Lemma asArray_in (v : JVal) (s : string) :
  In s (flat_map jstrings (asArray v)) -> In s (jstrings v).
Proof. destruct v; simpl; rewrite ?app_nil_r; auto. Qed.

Lemma track_leaf_acc (tr : JVal) (h : list string) : track_leaf tr h = h ++ track_leaf tr [].
Proof.
  unfold track_leaf. destruct (jprop tr "when") as [wa|]; [|by rewrite app_nil_r].
  destruct (jtruthy wa); [|by rewrite app_nil_r].
  apply fold_left_acc. apply Forall_forall. intros w _ h'. apply when_leaf_acc.
Qed.

Lemma track_leaf_sound (tr : JVal) (h : list string) (s : string) :
  In s (track_leaf tr h) -> In s h \/ In s (jstrings tr).
Proof.
  unfold track_leaf. destruct (jprop tr "when") as [wa|] eqn:Ew; [|by left].
  destruct (jtruthy wa); [|by left].
  intros Hin. destruct (fold_left_sound (fun h w => when_leaf w h) jstrings (asArray wa) h
                          ltac:(apply Forall_forall; intros w _ h' s'; apply when_leaf_sound)
                          s Hin) as [H|H]; [by left|].
  right. eapply jprop_in; [exact Ew|]. by apply asArray_in.
Qed.

Lemma string_length_app (s1 s2 : string) :
  String.length (s1 ++ s2) = String.length s1 + String.length s2.
Proof. induction s1 as [|c s1 IH]; simpl; [done|]. by rewrite IH. Qed.

Lemma substring_app_r (s1 s2 : string) (n : nat) :
  String.substring (String.length s1) n (s1 ++ s2) = String.substring 0 n s2.
Proof. induction s1 as [|c s1 IH]; simpl; [done|]. apply IH. Qed.

Lemma substring_all (s : string) : String.substring 0 (String.length s) s = s.
Proof. induction s as [|c s IH]; simpl; [done|]. by rewrite IH. Qed.

Lemma endsWithAny_prefixed (p n : string) :
  endsWithAny (p ++ ":" ++ n) [n] = true.
Proof.
  unfold endsWithAny. cbn [existsb]. rewrite orb_false_r.
  apply orb_true_intro. right. unfold str_ends_with.
  remember (":" ++ n)%string as suf eqn:Hsuf.
  rewrite string_length_app.
  replace (String.length p + String.length suf - String.length suf)
    with (String.length p) by lia.
  rewrite substring_app_r, substring_all, String.eqb_refl.
  apply andb_true_intro. split; [apply Nat.leb_le; lia|done].
Qed.

(** Both time-string collectors only append to the [hits] array they are
    given, and what they append are strings of the tree: they never make up
    a time string. *)
Theorem collectors_append_tree_strings (v : JVal) (hits : list string) :
  collectTimeStepStrings v hits = hits ++ collectTimeStepStrings v [] /\
  collectTrackWhenStrings v hits = hits ++ collectTrackWhenStrings v [] /\
  (forall s, In s (collectTimeStepStrings v []) -> In s (jstrings v)) /\
  (forall s, In s (collectTrackWhenStrings v []) -> In s (jstrings v)).
Proof.
  assert (A1 : forall v h, collectTimeStepStrings v h = h ++ collectTimeStepStrings v []).
  { apply (JVal_ind2 (fun v => forall h, collectTimeStepStrings v h
                                          = h ++ collectTimeStepStrings v [])).
    - intros s h. simpl. by rewrite app_nil_r.
    - intros l Hl h. cbn [collectTimeStepStrings collectTrackWhenStrings]. apply fold_left_acc.
      eapply Forall_impl; [exact Hl|]. intros a Ha h'.
      destruct (jis_object a); [apply Ha|by rewrite app_nil_r].
    - intros fields Hf h. cbn [collectTimeStepStrings collectTrackWhenStrings]. apply fold_left_acc.
      eapply Forall_impl; [exact Hf|]. intros [k w] [Hw Hws] h'. cbv beta iota delta [snd] in *.
      destruct (endsWithAny k ["TimeStep"]).
      + destruct w as [s|vs|fs]; try (apply ts_leaf_acc; exact Hw).
        apply fold_left_acc. eapply Forall_impl; [exact Hws|]. intros a Ha h''.
        by apply ts_leaf_acc.
      + destruct (jis_object w); [apply Hw|by rewrite app_nil_r]. }
  assert (A2 : forall v h, collectTrackWhenStrings v h = h ++ collectTrackWhenStrings v []).
  { apply (JVal_ind2 (fun v => forall h, collectTrackWhenStrings v h
                                          = h ++ collectTrackWhenStrings v [])).
    - intros s h. simpl. by rewrite app_nil_r.
    - intros l Hl h. cbn [collectTimeStepStrings collectTrackWhenStrings]. apply fold_left_acc.
      eapply Forall_impl; [exact Hl|]. intros a Ha h'.
      destruct (jis_object a); [apply Ha|by rewrite app_nil_r].
    - intros fields Hf h. cbn [collectTimeStepStrings collectTrackWhenStrings]. apply fold_left_acc.
      eapply Forall_impl; [exact Hf|]. intros [k w] [Hw _] h'. cbv beta iota delta [snd] in *.
      destruct (endsWithAny k ["Track"]).
      + apply fold_left_acc. apply Forall_forall. intros tr _ h''. apply track_leaf_acc.
      + destruct (jis_object w); [apply Hw|by rewrite app_nil_r]. }
  assert (S1 : forall v h s, In s (collectTimeStepStrings v h) -> In s h \/ In s (jstrings v)).
  { apply (JVal_ind2 (fun v => forall h s, In s (collectTimeStepStrings v h) ->
                                           In s h \/ In s (jstrings v))).
    - intros s0 h s. simpl. by left.
    - intros l Hl h s Hs. cbn [collectTimeStepStrings collectTrackWhenStrings] in Hs.
      refine (fold_left_sound _ jstrings l h _ s Hs).
      eapply Forall_impl; [exact Hl|]. intros a Ha h' s'.
      destruct (jis_object a); [apply Ha|by left].
    - intros fields Hf h s Hs. cbn [collectTimeStepStrings collectTrackWhenStrings] in Hs.
      refine (fold_left_sound _ (fun '(_, w) => jstrings w) fields h _ s Hs).
      eapply Forall_impl; [exact Hf|]. intros [k w] [Hw Hws] h' s'. cbv beta iota delta [snd] in *.
      destruct (endsWithAny k ["TimeStep"]).
      + destruct w as [s0|vs|fs]; try (apply ts_leaf_sound; exact Hw).
        intros Hin. refine (fold_left_sound _ jstrings vs h' _ s' Hin).
        eapply Forall_impl; [exact Hws|]. intros a Ha. by apply ts_leaf_sound.
      + destruct (jis_object w); [apply Hw|by left]. }
  assert (S2 : forall v h s, In s (collectTrackWhenStrings v h) -> In s h \/ In s (jstrings v)).
  { apply (JVal_ind2 (fun v => forall h s, In s (collectTrackWhenStrings v h) ->
                                           In s h \/ In s (jstrings v))).
    - intros s0 h s. simpl. by left.
    - intros l Hl h s Hs. cbn [collectTimeStepStrings collectTrackWhenStrings] in Hs.
      refine (fold_left_sound _ jstrings l h _ s Hs).
      eapply Forall_impl; [exact Hl|]. intros a Ha h' s'.
      destruct (jis_object a); [apply Ha|by left].
    - intros fields Hf h s Hs. cbn [collectTimeStepStrings collectTrackWhenStrings] in Hs.
      refine (fold_left_sound _ (fun '(_, w) => jstrings w) fields h _ s Hs).
      eapply Forall_impl; [exact Hf|]. intros [k w] [Hw _] h' s'. cbv beta iota delta [snd] in *.
      destruct (endsWithAny k ["Track"]).
      + intros Hin.
        destruct (fold_left_sound (fun h tr => track_leaf tr h) jstrings (asArray w) h'
                    ltac:(apply Forall_forall; intros tr _ h'' s''; apply track_leaf_sound)
                    s' Hin) as [H|H]; [by left|].
        right. by apply asArray_in.
      + destruct (jis_object w); [apply Hw|by left]. }
  split_and!; [apply A1|apply A2| |].
  - intros s Hs. by destruct (S1 v [] s Hs).
  - intros s Hs. by destruct (S2 v [] s Hs).
Qed.

(** [k1: [{ k2: [ ... { key: [...] } ] }]]: a chain of single-child
    elements as [xml2js] nests them. *)
Fixpoint nest (path : list string) (leaf : JVal) : JVal :=
  match path with
  | [] => leaf
  | k :: path' => JObj [(k, JArr [nest path' leaf])]
  end.

(** [collectTimeStepStrings] finds the strings of a [TimeStep] element
    with or without namespace prefix ([TimeStep], [dwd:TimeStep], ...),
    in document order, however deep it is nested below elements whose
    names do not end in [TimeStep]. *)
Theorem time_steps_found_at_depth (path : list string) (key : string)
    (ss hits : list string) :
  Forall (fun k => endsWithAny k ["TimeStep"] = false) path ->
  (key = "TimeStep"%string \/ exists p, key = (p ++ ":TimeStep")%string) ->
  collectTimeStepStrings (nest path (JObj [(key, JArr (map JStr ss))])) hits = hits ++ ss.
Proof.
  intros Hpath Hkey. revert hits. induction Hpath as [|k path Hk Hpath IH]; intros hits.
  - assert (Hts : endsWithAny key ["TimeStep"] = true).
    { destruct Hkey as [->|[p ->]]; [reflexivity|].
      exact (endsWithAny_prefixed p "TimeStep"). }
    cbn [nest collectTimeStepStrings fold_left]. rewrite Hts.
    revert hits. induction ss as [|s ss IHs]; intros hits; simpl.
    + by rewrite app_nil_r.
    + rewrite IHs. by rewrite <- app_assoc.
  - cbn [nest collectTimeStepStrings fold_left]. rewrite Hk.
    assert (Hobj : jis_object (nest path (JObj [(key, JArr (map JStr ss))])) = true)
      by (destruct path; reflexivity).
    simpl jis_object. cbn iota. rewrite Hobj. apply IH.
Qed.

(** The [TimeStep] strings of a DWD document, below
    [kml:Document > kml:ExtendedData > dwd:ProductDefinition >
    dwd:ForecastTimeSteps]. *)
Lemma time_steps_found_at_depth_witness :
  Forall (fun k => endsWithAny k ["TimeStep"] = false)
    ["kml:Document"; "kml:ExtendedData"; "dwd:ProductDefinition";
     "dwd:ForecastTimeSteps"]%string /\
  collectTimeStepStrings
    (nest ["kml:Document"; "kml:ExtendedData"; "dwd:ProductDefinition";
           "dwd:ForecastTimeSteps"]%string
          (JObj [("dwd:TimeStep"%string,
                  JArr (map JStr ["2025-06-01T10:00:00.000Z"; "2025-06-01T11:00:00.000Z"]%string))]))
    [] = ["2025-06-01T10:00:00.000Z"; "2025-06-01T11:00:00.000Z"]%string.
Proof.
  assert (Hp : Forall (fun k => endsWithAny k ["TimeStep"] = false)
                 ["kml:Document"; "kml:ExtendedData"; "dwd:ProductDefinition";
                  "dwd:ForecastTimeSteps"]%string) by (repeat constructor).
  split; [exact Hp|].
  apply (time_steps_found_at_depth _ "dwd:TimeStep" _ [] Hp).
  right. exists "dwd"%string. reflexivity.
Defined.

(** [collectTrackWhenStrings] reads only the unprefixed [when] field of a
    [Track] element and does not walk into it: a track whose instants sit
    under a prefixed key such as [gx:when] contributes nothing. *)
Theorem track_times_need_plain_when (k : string) (val : JVal)
    (fields : list (string * JVal)) (hits : list string) :
  endsWithAny k ["Track"] = true ->
  Forall (fun tr => jprop tr "when" = None) (asArray val) ->
  collectTrackWhenStrings (JObj ((k, val) :: fields)) hits
  = collectTrackWhenStrings (JObj fields) hits.
Proof.
  intros Hk Hnone. cbn [collectTrackWhenStrings fold_left]. rewrite Hk.
  f_equal. induction Hnone as [|tr trs Htr _ IH]; [done|].
  simpl. unfold track_leaf at 2. rewrite Htr. exact IH.
Qed.

Lemma track_times_need_plain_when_witness :
  endsWithAny "gx:Track" ["Track"] = true /\
  Forall (fun tr => jprop tr "when" = None)
    (asArray (JArr [JObj [("gx:when"%string, JArr [JStr "2025-06-01T10:00:00.000Z"]);
                          ("gx:coord"%string, JArr [JStr "7.15 50.86 92"])]])) /\
  collectTrackWhenStrings
    (JObj [("gx:Track"%string,
            JArr [JObj [("gx:when"%string, JArr [JStr "2025-06-01T10:00:00.000Z"]);
                        ("gx:coord"%string, JArr [JStr "7.15 50.86 92"])]])]) []
  = [].
Proof.
  assert (Hk : endsWithAny "gx:Track" ["Track"] = true) by reflexivity.
  assert (Hn : Forall (fun tr => jprop tr "when" = None)
    (asArray (JArr [JObj [("gx:when"%string, JArr [JStr "2025-06-01T10:00:00.000Z"]);
                          ("gx:coord"%string, JArr [JStr "7.15 50.86 92"])]])))
    by (repeat constructor).
  split; [exact Hk|]. split; [exact Hn|].
  exact (track_times_need_plain_when _ _ [] [] Hk Hn).
Defined.

(* ------------------------------------------------------------------------ *)
(** ** [findFirstDocumentNode] *)

Lemma jsize_pos (v : JVal) : (1 <= jsize v)%nat.
Proof. destruct v; simpl; lia. Qed.

Lemma stack_size_app (a b : list JVal) :
  stack_size (a ++ b) = (stack_size a + stack_size b)%nat.
Proof. unfold stack_size. induction a as [|x a IH]; simpl; [done|]. rewrite IH. lia. Qed.

Lemma stack_size_rev (l : list JVal) : stack_size (rev l) = stack_size l.
Proof.
  induction l as [|x l IH]; simpl; [done|].
  rewrite stack_size_app, IH. unfold stack_size. simpl. lia.
Qed.

Lemma push_val_size (val : JVal) (st : list JVal) :
  (stack_size (push_val val st) <= jsize val + stack_size st)%nat.
Proof.
  destruct val as [s|l|fields]; simpl.
  - lia.
  - rewrite stack_size_app, stack_size_rev. unfold stack_size. lia.
  - unfold stack_size. simpl. lia.
Qed.

Lemma fold_push_size (l : list JVal) (st : list JVal) :
  (stack_size (fold_left (fun st v => push_val v st) l st)
   <= list_sum (map jsize l) + stack_size st)%nat.
Proof.
  revert st. induction l as [|v l IH]; intros st; simpl; [lia|].
  pose proof (IH (push_val v st)). pose proof (push_val_size v st). lia.
Qed.

(** One pass of [scan_fields] on a field, unfolded. *)
Lemma scan_fields_cons (key : string) (val : JVal) (fields : list (string * JVal))
    (st : list JVal) :
  scan_fields ((key, val) :: fields) st
  = match (if endsWithAny key ["Document"] then
             match asArray val with
             | a0 :: _ => if jis_object a0 then Some a0 else None
             | [] => None
             end
           else None) with
    | Some d => inl d
    | None => scan_fields fields (push_val val st)
    end.
Proof. reflexivity. Qed.

Lemma scan_fields_size (fields : list (string * JVal)) (st st' : list JVal) :
  scan_fields fields st = inr st' ->
  (stack_size st' <= list_sum (map (fun '(_, w) => jsize w) fields) + stack_size st)%nat.
Proof.
  revert st. induction fields as [|[key val] fields IH]; intros st H.
  - injection H as <-. simpl. lia.
  - rewrite scan_fields_cons in H.
    destruct (if endsWithAny key ["Document"] then _ else None); [discriminate|].
    pose proof (IH _ H). pose proof (push_val_size val st). simpl. lia.
Qed.

(** The size of the stack is enough fuel: more fuel changes nothing. *)
Lemma find_loop_fuel (f f' : nat) (st : list JVal) :
  (stack_size st <= f)%nat -> (f <= f')%nat -> find_loop f st = find_loop f' st.
Proof.
  revert f' st. induction f as [|f IH]; intros f' st Hs Hf.
  - destruct st as [|x st]; [destruct f'; reflexivity|].
    unfold stack_size in Hs. simpl in Hs. pose proof (jsize_pos x). lia.
  - destruct f' as [|f']; [lia|]. destruct st as [|cur st]; [reflexivity|].
    cbn [find_loop]. unfold stack_size in Hs. simpl in Hs.
    destruct cur as [s|l|fields]; cbn [jsize] in Hs.
    + apply IH; [unfold stack_size; lia|lia].
    + apply IH; [|lia]. pose proof (fold_push_size l st). unfold stack_size in *. lia.
    + destruct (scan_fields fields st) as [d|st'] eqn:E; [reflexivity|].
      apply IH; [|lia]. pose proof (scan_fields_size _ _ _ E). unfold stack_size in *. lia.
Qed.

Lemma find_loop_nil (f : nat) : find_loop f [] = None.
Proof. by destruct f. Qed.

Lemma push_val_app (val : JVal) (a b : list JVal) : push_val val (a ++ b) = push_val val a ++ b.
Proof. destruct val; simpl; [done| |done]. by rewrite app_assoc. Qed.

Lemma fold_push_app (l : list JVal) (a b : list JVal) :
  fold_left (fun st v => push_val v st) l (a ++ b)
  = fold_left (fun st v => push_val v st) l a ++ b.
Proof. revert a. induction l as [|v l IH]; intros a; simpl; [done|]. by rewrite push_val_app, IH. Qed.

Lemma scan_fields_app (fields : list (string * JVal)) (a b : list JVal) :
  scan_fields fields (a ++ b)
  = match scan_fields fields a with inl d => inl d | inr st => inr (st ++ b) end.
Proof.
  revert a. induction fields as [|[key val] fields IH]; intros a; [done|].
  rewrite !scan_fields_cons.
  destruct (if endsWithAny key ["Document"] then _ else None); [done|].
  by rewrite push_val_app, IH.
Qed.

(** The loop on a stack [st1 ++ st2] searches everything [st1] leads to
    before [st2]. *)
Lemma find_loop_app (f : nat) (st1 st2 : list JVal) :
  (stack_size (st1 ++ st2) <= f)%nat ->
  find_loop f (st1 ++ st2)
  = match find_loop f st1 with Some d => Some d | None => find_loop f st2 end.
Proof.
  revert st1. induction f as [|f IH]; intros st1 Hs.
  - destruct st1 as [|x st1]; [done|].
    unfold stack_size in Hs. simpl in Hs. pose proof (jsize_pos x). lia.
  - destruct st1 as [|cur st1]; [by rewrite find_loop_nil|].
    rewrite stack_size_app in Hs. unfold stack_size in Hs. simpl in Hs.
    assert (H2 : find_loop f st2 = find_loop (S f) st2).
    { pose proof (jsize_pos cur). apply find_loop_fuel; [unfold stack_size; lia|lia]. }
    simpl app. cbn [find_loop]. destruct cur as [s|l|fields]; cbn [jsize] in Hs.
    + rewrite IH by (rewrite stack_size_app; unfold stack_size; lia).
      destruct (find_loop f st1); [done|]. exact H2.
    + rewrite fold_push_app.
      pose proof (fold_push_size l st1).
      rewrite IH by (rewrite stack_size_app; unfold stack_size in *; lia).
      destruct (find_loop f (fold_left _ l st1)); [done|]. exact H2.
    + rewrite scan_fields_app.
      destruct (scan_fields fields st1) as [d|st'] eqn:E; [done|].
      pose proof (scan_fields_size _ _ _ E).
      rewrite IH by (rewrite stack_size_app; unfold stack_size in *; lia).
      destruct (find_loop f st'); [done|]. exact H2.
Qed.

Lemma jsub_trans (x y z : JVal) : jsub x y -> jsub y z -> jsub x z.
Proof.
  intros Hxy Hyz. induction Hyz as [|l w Hin _ IH|fields k w Hin _ IH].
  - exact Hxy.
  - eapply jsub_arr; [exact Hin|exact IH].
  - eapply jsub_obj; [exact Hin|exact IH].
Qed.

Lemma push_val_sub (v val : JVal) (st : list JVal) :
  jsub val v -> Forall (fun x => jsub x v) st -> Forall (fun x => jsub x v) (push_val val st).
Proof.
  intros Hval Hst. destruct val as [s|l|fields]; simpl.
  - exact Hst.
  - apply Forall_app. split; [|exact Hst].
    apply Forall_forall. intros e He. rewrite list_elem_of_In, <- in_rev in He.
    eapply jsub_trans; [|exact Hval]. eapply jsub_arr; [exact He|apply jsub_refl].
  - constructor; [exact Hval|exact Hst].
Qed.

Lemma fold_push_sub (v : JVal) (l : list JVal) (st : list JVal) :
  (forall e, In e l -> jsub e v) -> Forall (fun x => jsub x v) st ->
  Forall (fun x => jsub x v) (fold_left (fun st v => push_val v st) l st).
Proof.
  revert st. induction l as [|e l IH]; intros st Hl Hst; simpl; [exact Hst|].
  apply IH; [intros e' He'; apply Hl; by right|].
  apply push_val_sub; [apply Hl; by left|exact Hst].
Qed.

Lemma scan_fields_sub (v : JVal) (fields : list (string * JVal)) (st st' : list JVal) :
  (forall k w, In (k, w) fields -> jsub w v) -> Forall (fun x => jsub x v) st ->
  scan_fields fields st = inr st' -> Forall (fun x => jsub x v) st'.
Proof.
  revert st. induction fields as [|[key val] fields IH]; intros st Hf Hst H.
  - by injection H as <-.
  - rewrite scan_fields_cons in H.
    destruct (if endsWithAny key ["Document"] then _ else None); [discriminate|].
    eapply IH; [intros k w Hin; eapply Hf; by right| |exact H].
    apply push_val_sub; [eapply Hf; by left|exact Hst].
Qed.

Lemma scan_fields_hit (fields : list (string * JVal)) (st : list JVal) (d : JVal) :
  scan_fields fields st = inl d ->
  jis_object d = true /\
  exists key val, In (key, val) fields /\ endsWithAny key ["Document"] = true /\
                  head (asArray val) = Some d.
Proof.
  revert st. induction fields as [|[key val] fields IH]; intros st H; [discriminate|].
  rewrite scan_fields_cons in H.
  destruct (endsWithAny key ["Document"]) eqn:Ek.
  - destruct (asArray val) as [|a0 rest] eqn:Ea.
    + destruct (IH _ H) as (Hd & k & w & Hin & Hk & Hh).
      split; [exact Hd|]. exists k, w. split_and!; [by right|exact Hk|exact Hh].
    + destruct (jis_object a0) eqn:Eo.
      * injection H as <-. split; [exact Eo|]. exists key, val.
        split_and!; [by left|exact Ek|by rewrite Ea].
      * destruct (IH _ H) as (Hd & k & w & Hin & Hk & Hh).
        split; [exact Hd|]. exists k, w. split_and!; [by right|exact Hk|exact Hh].
  - destruct (IH _ H) as (Hd & k & w & Hin & Hk & Hh).
    split; [exact Hd|]. exists k, w. split_and!; [by right|exact Hk|exact Hh].
Qed.

Lemma find_loop_sound (v : JVal) (f : nat) (st : list JVal) (d : JVal) :
  Forall (fun x => jsub x v) st -> find_loop f st = Some d ->
  jis_object d = true /\
  exists fields key val, jsub (JObj fields) v /\ In (key, val) fields /\
    endsWithAny key ["Document"] = true /\ head (asArray val) = Some d.
Proof.
  revert st. induction f as [|f IH]; intros st Hst H; [discriminate|].
  destruct st as [|cur st]; [discriminate|]. cbn [find_loop] in H.
  apply Forall_cons in Hst as [Hcur Hst].
  destruct cur as [s|l|fields].
  - exact (IH _ Hst H).
  - refine (IH _ _ H). apply fold_push_sub; [|exact Hst].
    intros e He. eapply jsub_trans; [|exact Hcur]. eapply jsub_arr; [exact He|apply jsub_refl].
  - destruct (scan_fields fields st) as [d'|st'] eqn:E.
    + injection H as <-. destruct (scan_fields_hit _ _ _ E) as (Hd & key & val & Hin & Hk & Hh).
      split; [exact Hd|]. exists fields, key, val. split_and!; done.
    + refine (IH _ _ H). eapply scan_fields_sub; [|exact Hst|exact E].
      intros k w Hin. eapply jsub_trans; [|exact Hcur]. eapply jsub_obj; [exact Hin|apply jsub_refl].
Qed.

Lemma scan_fields_first (pre : list (string * JVal)) (key : string) (val : JVal)
    (rest : list (string * JVal)) (st : list JVal) (d : JVal) :
  Forall (fun kv => endsWithAny kv.1 ["Document"] = false \/
                    forall a0, head (asArray kv.2) = Some a0 -> jis_object a0 = false) pre ->
  endsWithAny key ["Document"] = true -> head (asArray val) = Some d -> jis_object d = true ->
  scan_fields (pre ++ (key, val) :: rest) st = inl d.
Proof.
  intros Hpre Hk Hh Hd. revert st. induction Hpre as [|[k w] pre Hkw _ IH]; intros st.
  - simpl app. rewrite scan_fields_cons, Hk.
    destruct (asArray val) as [|a0 l]; [discriminate|]. injection Hh as ->. by rewrite Hd.
  - simpl app. rewrite scan_fields_cons. simpl in Hkw.
    destruct Hkw as [Hkf|Hno].
    + change (endsWithAny k ["Document"] = false) in Hkf. rewrite Hkf. apply IH.
    + change (forall a0, head (asArray w) = Some a0 -> jis_object a0 = false) in Hno.
      destruct (endsWithAny k ["Document"]); [|apply IH].
      destruct (asArray w) as [|a0 l] eqn:Ea; [apply IH|].
      rewrite (Hno a0 eq_refl). apply IH.
Qed.

(** [findFirstDocumentNode] returns an object that is the first element of
    the value of a [Document] key (with or without prefix) somewhere in the
    tree.  A qualifying [Document] field of the root object wins over
    everything nested, the first such field in key order.  Nested below the
    root, the search is last-in first-out: of two sibling subtrees, the later
    one is searched first, so its [Document] is returned even when the
    earlier sibling has one. *)
Theorem findFirstDocumentNode_spec (v : JVal) :
  (forall d, findFirstDocumentNode v = Some d ->
     jis_object d = true /\
     exists fields key val, jsub (JObj fields) v /\ In (key, val) fields /\
       endsWithAny key ["Document"] = true /\ head (asArray val) = Some d) /\
  (forall pre key val rest d,
     v = JObj (pre ++ (key, val) :: rest) ->
     Forall (fun kv => endsWithAny kv.1 ["Document"] = false \/
                       forall a0, head (asArray kv.2) = Some a0 -> jis_object a0 = false) pre ->
     endsWithAny key ["Document"] = true -> head (asArray val) = Some d ->
     jis_object d = true ->
     findFirstDocumentNode v = Some d) /\
  (forall k1 k2 w1 w2,
     v = JObj [(k1, JArr [w1]); (k2, JArr [w2])] ->
     endsWithAny k1 ["Document"] = false -> endsWithAny k2 ["Document"] = false ->
     findFirstDocumentNode v
     = match findFirstDocumentNode w2 with
       | Some d => Some d
       | None => findFirstDocumentNode w1
       end).
Proof.
  split_and!.
  - intros d H. eapply find_loop_sound; [|exact H]. constructor; [apply jsub_refl|constructor].
  - intros pre key val rest d -> Hpre Hk Hh Hd. unfold findFirstDocumentNode.
    cbn [jsize find_loop]. by rewrite (scan_fields_first pre key val rest [] d Hpre Hk Hh Hd).
  - intros k1 k2 w1 w2 -> H1 H2. unfold findFirstDocumentNode.
    assert (Hn : jsize (JObj [(k1, JArr [w1]); (k2, JArr [w2])])
                 = S (2 + jsize w1 + jsize w2)) by (simpl; lia).
    rewrite Hn. cbn [find_loop]. rewrite !scan_fields_cons, H1, H2.
    cbn [scan_fields push_val rev app].
    change [w2; w1] with ([w2] ++ [w1]).
    rewrite find_loop_app by (unfold stack_size; simpl; lia).
    rewrite <- (find_loop_fuel (jsize w2) (2 + jsize w1 + jsize w2) [w2])
      by (unfold stack_size; simpl; lia).
    destruct (find_loop (jsize w2) [w2]); [done|].
    symmetry. apply find_loop_fuel; [unfold stack_size; simpl; lia|lia].
Qed.

(** Two sibling elements [a] and [b], each holding a [Document]: the one
    under [b] is returned. *)
Lemma findFirstDocumentNode_spec_witness :
  endsWithAny "a" ["Document"] = false /\ endsWithAny "b" ["Document"] = false /\
  findFirstDocumentNode
    (JObj [("a"%string, JArr [JObj [("Document"%string, JArr [JObj [("name"%string, JArr [JStr "eins"])]])]]);
           ("b"%string, JArr [JObj [("Document"%string, JArr [JObj [("name"%string, JArr [JStr "zwei"])]])]])])
  = Some (JObj [("name"%string, JArr [JStr "zwei"])]).
Proof.
  assert (H1 : endsWithAny "a" ["Document"] = false) by reflexivity.
  assert (H2 : endsWithAny "b" ["Document"] = false) by reflexivity.
  split; [exact H1|]. split; [exact H2|].
  destruct (findFirstDocumentNode_spec
    (JObj [("a"%string, JArr [JObj [("Document"%string, JArr [JObj [("name"%string, JArr [JStr "eins"])]])]]);
           ("b"%string, JArr [JObj [("Document"%string, JArr [JObj [("name"%string, JArr [JStr "zwei"])]])]])]))
    as (_ & _ & H3).
  rewrite (H3 _ _ _ _ eq_refl H1 H2). reflexivity.
Defined.

(* ------------------------------------------------------------------------ *)
(** ** The station name read from the first Placemark *)

Definition trim_list (l : list ascii) : list ascii :=
  rev (drop_spaces (rev (drop_spaces l))).

Lemma js_trim_list (s : string) :
  list_ascii_of_string (js_trim s) = trim_list (list_ascii_of_string s).
Proof. unfold js_trim, trim_list. apply list_ascii_of_string_of_list_ascii. Qed.

Lemma drop_spaces_head (l : list ascii) :
  drop_spaces l = [] \/ exists c r, drop_spaces l = c :: r /\ is_js_space c = false.
Proof.
  induction l as [|c l IH]; simpl; [by left|].
  destruct (is_js_space c) eqn:E; [done|]. right. eauto.
Qed.

Lemma drop_spaces_suffix (l : list ascii) : exists sp, l = sp ++ drop_spaces l.
Proof.
  induction l as [|c l [sp IH]]; simpl; [by exists []|].
  destruct (is_js_space c); [exists (c :: sp); simpl; by f_equal|by exists []].
Qed.

Lemma drop_spaces_fix (l : list ascii) :
  (forall c r, l = c :: r -> is_js_space c = false) -> drop_spaces l = l.
Proof. destruct l as [|c r]; intros H; simpl; [done|]. by rewrite (H c r eq_refl). Qed.

Lemma drop_spaces_snoc (x : list ascii) (a : ascii) :
  is_js_space a = false -> exists y, drop_spaces (x ++ [a]) = y ++ [a].
Proof.
  intros Ha. induction x as [|c x IH]; simpl.
  - rewrite Ha. by exists [].
  - destruct (is_js_space c); [done|]. by exists (c :: x).
Qed.

Lemma trim_list_idem (l : list ascii) : trim_list (trim_list l) = trim_list l.
Proof.
  unfold trim_list.
  set (A := drop_spaces l). set (B := drop_spaces (rev A)).
  assert (HB : drop_spaces (rev B) = rev B).
  { apply drop_spaces_fix. intros c r Hc.
    destruct (drop_spaces_suffix (rev A)) as [sp Hsp]. fold B in Hsp.
    assert (HA : A = c :: (r ++ rev sp)).
    { rewrite <- (rev_involutive A), Hsp, rev_app_distr, Hc. done. }
    destruct (drop_spaces_head l) as [H0|(c' & r' & H1 & H2)].
    - fold A in H0. rewrite HA in H0. discriminate.
    - fold A in H1. rewrite HA in H1. by injection H1 as -> _. }
  rewrite HB, rev_involutive. f_equal. apply drop_spaces_fix. intros c r Hc.
  destruct (drop_spaces_head (rev A)) as [H0|(c' & r' & H1 & H2)].
  - fold B in H0. rewrite Hc in H0. discriminate.
  - fold B in H1. rewrite Hc in H1. by injection H1 as -> _.
Qed.

(** [s.trim().trim() === s.trim()] *)
Lemma js_trim_idem (s : string) : js_trim (js_trim s) = js_trim s.
Proof.
  assert (E : forall x, js_trim x = string_of_list_ascii (trim_list (list_ascii_of_string x)))
    by reflexivity.
  rewrite (E (js_trim s)), js_trim_list, trim_list_idem. symmetry. apply E.
Qed.

Lemma trim_list_head (l : list ascii) :
  trim_list l = [] \/ exists c r, trim_list l = c :: r /\ is_js_space c = false.
Proof.
  unfold trim_list.
  destruct (drop_spaces_head l) as [H0|(c & r & H1 & H2)]; rewrite ?H0; [by left|].
  rewrite H1. simpl. destruct (drop_spaces_snoc (rev r) c H2) as [y Hy].
  rewrite Hy, rev_app_distr. simpl. right. eauto.
Qed.

Lemma trim_list_nonempty (c : ascii) (r : list ascii) :
  is_js_space c = false -> trim_list (c :: r) <> [].
Proof.
  intros Hc. unfold trim_list. rewrite (drop_spaces_fix (c :: r)) by (by intros ? ? [= <- _]).
  simpl. destruct (drop_spaces_snoc (rev r) c Hc) as [y Hy].
  rewrite Hy, rev_app_distr. discriminate.
Qed.

Lemma string_eqb_empty_list (s : string) :
  String.eqb s "" = false -> list_ascii_of_string s <> [].
Proof. destruct s; simpl; [discriminate|]. intros _. discriminate. Qed.

Lemma lazy_name_prefix (l pre m : list ascii) :
  lazy_name pre l = Some m -> exists t r, m = rev pre ++ t /\ t <> [] /\ l = t ++ r.
Proof.
  revert pre. induction l as [|c l IH]; intros pre H; simpl in H; [discriminate|].
  destruct (is_line_term c); [discriminate|].
  destruct (id_suffix l).
  - injection H as <-. exists [c], l. simpl. done.
  - destruct (IH _ H) as (t & r & -> & Ht & ->).
    exists (c :: t), r. simpl. rewrite <- app_assoc. done.
Qed.

(** A name the code returns: non-empty, trimmed, and not of the id shape. *)
Definition station_name_ok (s : string) : Prop :=
  s <> "" /\ js_trim s = s /\ id_shape (list_ascii_of_string s) = false.

Lemma name_if_ok_ok (t s : string) : name_if_ok t = Some s -> station_name_ok s.
Proof.
  unfold name_if_ok. destruct (String.eqb (js_trim t) "") eqn:E; [discriminate|].
  destruct (looksLikeId (js_trim t)) eqn:L; [discriminate|]. intros [= <-].
  unfold looksLikeId in L. rewrite js_trim_idem in L.
  split; [by apply String.eqb_neq|]. split; [apply js_trim_idem|done].
Qed.

Lemma name_leaf_ok (a : JVal) (s : string) : name_leaf a = Some s -> station_name_ok s.
Proof.
  assert (V : value_branch a = Some s -> station_name_ok s).
  { unfold value_branch. destruct (jprop_str a "value"); [apply name_if_ok_ok|discriminate]. }
  unfold name_leaf. destruct a as [t| |]; [apply name_if_ok_ok| |];
    (destruct (jprop_str _ "_") as [t|]; [|exact V]);
    (destruct (String.eqb (js_trim t) ""); [exact V|apply name_if_ok_ok]).
Qed.

Lemma first_name_ok (arr : list JVal) (s : string) : first_name arr = Some s -> station_name_ok s.
Proof.
  induction arr as [|a arr IH]; simpl; [discriminate|].
  destruct (name_leaf a) eqn:E; [intros [= <-]; by apply (name_leaf_ok a)|exact IH].
Qed.

Lemma scan_names_ok (fields : list (string * JVal)) (st : list JVal) (s : string) :
  scan_names fields st = inl s -> station_name_ok s.
Proof.
  revert st. induction fields as [|[k v] fields IH]; intros st; simpl; [discriminate|].
  destruct (if isNameKey k then first_name (asArray v) else None) as [s'|] eqn:E.
  - intros [= <-]. destruct (isNameKey k); [by apply (first_name_ok (asArray v))|discriminate].
  - apply IH.
Qed.

Lemma pick_loop_ok (f : nat) (st : list JVal) (s : string) :
  pick_loop f st = Some s -> station_name_ok s.
Proof.
  revert st. induction f as [|f IH]; intros st; simpl; [discriminate|].
  destruct st as [|cur st]; [discriminate|].
  destruct cur as [t|l|fields]; [apply IH|apply IH|].
  destruct (scan_names fields st) as [s'|st'] eqn:E; [intros [= <-]|apply IH].
  by apply (scan_names_ok fields st).
Qed.

Lemma name_from_desc_ok (d s : string) : name_from_desc d = Some s -> station_name_ok s.
Proof.
  unfold name_from_desc.
  set (plain := list_ascii_of_string (js_trim _)).
  assert (F : forall x, (if negb (String.eqb (js_trim x) "") && negb (looksLikeId (js_trim x))
                         then Some (js_trim x) else None) = Some s -> station_name_ok s).
  { intros x. destruct (String.eqb (js_trim x) "") eqn:E; [discriminate|].
    destruct (looksLikeId (js_trim x)) eqn:L; [discriminate|]. intros [= <-].
    unfold looksLikeId in L. rewrite js_trim_idem in L.
    split; [by apply String.eqb_neq|]. split; [apply js_trim_idem|done]. }
  destruct (lazy_name [] plain) as [m1|] eqn:Em; [|apply F].
  destruct (negb (String.eqb (string_of_list_ascii m1) "") &&
            negb (looksLikeId (string_of_list_ascii m1))) eqn:C; [|apply F].
  intros [= <-]. apply andb_true_iff in C as [_ L]. apply negb_true_iff in L.
  split; [|split; [apply js_trim_idem|exact L]].
  destruct (lazy_name_prefix _ _ _ Em) as (t & r & -> & Ht & Hp). simpl in Hp.
  assert (Hpl : plain = trim_list (list_ascii_of_string
                  (string_of_list_ascii (strip_tags (list_ascii_of_string d))))).
  { apply js_trim_list. }
  destruct (trim_list_head (list_ascii_of_string
              (string_of_list_ascii (strip_tags (list_ascii_of_string d)))))
    as [H0|(c & r' & H1 & H2)].
  - rewrite <- Hpl in H0. rewrite H0 in Hp. destruct t; [done|discriminate].
  - rewrite <- Hpl in H1. rewrite H1 in Hp. destruct t as [|c' t]; [done|]. injection Hp as Hcc _.
    rewrite <- Hcc. intros He. cbn [rev app] in He. apply (trim_list_nonempty c t H2).
    rewrite <- (list_ascii_of_string_of_list_ascii (c :: t)), <- js_trim_list, He.
    reflexivity.
Qed.

Lemma scan_names_size (fields : list (string * JVal)) (st st' : list JVal) :
  scan_names fields st = inr st' ->
  (stack_size st' <= list_sum (map (fun '(_, w) => jsize w) fields) + stack_size st)%nat.
Proof.
  revert st. induction fields as [|[k v] fields IH]; intros st H.
  - injection H as <-. simpl. lia.
  - cbn [scan_names] in H.
    destruct (if isNameKey k then first_name (asArray v) else None); [discriminate|].
    pose proof (IH _ H). pose proof (push_val_size v st). simpl. lia.
Qed.

(** The size of the stack is enough fuel for [pickDeepName]'s loop. *)
Lemma pick_loop_fuel (f f' : nat) (st : list JVal) :
  (stack_size st <= f)%nat -> (f <= f')%nat -> pick_loop f st = pick_loop f' st.
Proof.
  revert f' st. induction f as [|f IH]; intros f' st Hs Hf.
  - destruct st as [|x st]; [destruct f'; reflexivity|].
    unfold stack_size in Hs. simpl in Hs. pose proof (jsize_pos x). lia.
  - destruct f' as [|f']; [lia|]. destruct st as [|cur st]; [reflexivity|].
    cbn [pick_loop]. unfold stack_size in Hs. simpl in Hs.
    destruct cur as [s|l|fields]; cbn [jsize] in Hs.
    + apply IH; [unfold stack_size; lia|lia].
    + apply IH; [|lia]. pose proof (fold_push_size l st). unfold stack_size in *. lia.
    + destruct (scan_names fields st) as [d|st'] eqn:E; [reflexivity|].
      apply IH; [|lia]. pose proof (scan_names_size _ _ _ E). unfold stack_size in *. lia.
Qed.

Lemma list_ascii_of_string_app (s1 s2 : string) :
  list_ascii_of_string (s1 ++ s2) = list_ascii_of_string s1 ++ list_ascii_of_string s2.
Proof. induction s1 as [|c s1 IH]; simpl; [done|]. by rewrite IH. Qed.

Lemma str_ends_with_app (p suf : string) : str_ends_with (p ++ suf) suf = true.
Proof.
  unfold str_ends_with. rewrite string_length_app.
  replace (String.length p + String.length suf - String.length suf)
    with (String.length p) by lia.
  rewrite substring_app_r, substring_all, String.eqb_refl.
  apply andb_true_intro. split; [apply Nat.leb_le; lia|done].
Qed.

Lemma isNameKey_colon_name (p : string) : isNameKey (p ++ ":name") = true.
Proof.
  unfold isNameKey. apply orb_true_intro. right.
  assert (E : js_toUpperCase (p ++ ":name") = (js_toUpperCase p ++ ":NAME")%string).
  { unfold js_toUpperCase. rewrite list_ascii_of_string_app, map_app,
      string_of_list_ascii_app. reflexivity. }
  rewrite E. apply str_ends_with_app.
Qed.

(** [tryGetStationName]: with no Placemark the station name is
    [null]; any name it returns is non-empty, already trimmed, and never of
    the id shape [/^[A-Z]\d{3,4}$/i] (one letter and three or four digits),
    whether it comes from a name element anywhere under the first Placemark,
    from the text before a trailing "(ID)" of the description, or from the
    description's first line. *)
Theorem tryGetStationName_never_id (doc : JVal) (s : string) :
  (placemarks doc = [] -> tryGetStationName doc = None) /\
  (tryGetStationName doc = Some s ->
   s <> "" /\ js_trim s = s /\ id_shape (list_ascii_of_string s) = false).
Proof.
  unfold tryGetStationName. split; [intros ->; reflexivity|].
  assert (D : forall pm, desc_name pm = Some s -> station_name_ok s).
  { intros pm. unfold desc_name.
    destruct (match pickText pm "kml:description" with
              | Some d => if String.eqb d "" then pickText pm "description" else Some d
              | None => pickText pm "description" end) as [d|]; [|discriminate].
    destruct (String.eqb d ""); [discriminate|apply name_from_desc_ok]. }
  destruct (placemarks doc) as [|pm pms]; [discriminate|].
  unfold pickDeepName. destruct (pick_loop (jsize pm) [pm]) as [name|] eqn:E; [|apply D].
  destruct (String.eqb name ""); [apply D|]. intros [= <-].
  apply (pick_loop_ok _ _ _ E).
Qed.

(** [tryGetStationName]: a non-blank string in the first element of a
    field "name" or "...:name" opening the first Placemark is returned,
    trimmed, as the station name unless it looks like an id (one letter and
    three or four digits); a 5-digit WMO number such as "10637" does not
    look like one, so it is returned as the name. *)
Theorem tryGetStationName_first_name (doc pm : JVal) (pms : list JVal) (k s : string)
    (more : list JVal) (fields : list (string * JVal)) :
  placemarks doc = pm :: pms ->
  pm = JObj ((k, JArr (JStr s :: more)) :: fields) ->
  (k = "name" \/ exists p, k = (p ++ ":name")%string) ->
  js_trim s <> "" ->
  looksLikeId s = false ->
  tryGetStationName doc = Some (js_trim s).
Proof.
  intros Hp -> Hk Hne Hid.
  assert (Hk' : isNameKey k = true).
  { destruct Hk as [->|[p ->]]; [reflexivity|apply isNameKey_colon_name]. }
  assert (He : String.eqb (js_trim s) "" = false) by (by apply String.eqb_neq).
  unfold tryGetStationName. rewrite Hp. unfold pickDeepName. cbn [jsize pick_loop scan_names].
  rewrite Hk'. cbn [asArray first_name name_leaf]. unfold name_if_ok.
  unfold looksLikeId in Hid |- *. rewrite js_trim_idem, He, Hid, He. reflexivity.
Qed.

Lemma tryGetStationName_never_id_witness :
  tryGetStationName (JObj []) = None /\
  tryGetStationName station_doc_h721 = Some "KOELN/BONN" /\
  id_shape (list_ascii_of_string "KOELN/BONN") = false.
Proof.
  assert (H : tryGetStationName station_doc_h721 = Some "KOELN/BONN") by reflexivity.
  split; [exact (proj1 (tryGetStationName_never_id (JObj []) "") eq_refl)|].
  split; [exact H|].
  exact (proj2 (proj2 (proj2 (tryGetStationName_never_id station_doc_h721 "KOELN/BONN") H))).
Defined.

Lemma tryGetStationName_first_name_witness :
  tryGetStationName station_doc_10637 = Some "10637".
Proof.
  exact (tryGetStationName_first_name station_doc_10637
           (JObj [("kml:name", JArr [JStr "10637"]);
                  ("kml:description", JArr [JStr "FRANKFURT/M."])])
           [] "kml:name" "10637" []
           [("kml:description", JArr [JStr "FRANKFURT/M."])]
           eq_refl eq_refl (or_intror (ex_intro _ "kml" eq_refl))
           ltac:(vm_compute; discriminate) eq_refl).
Defined.
